(** * merge-pr.py: a shallow embedding and its verified properties

    The script [scripts/merge-pr.py] fetches the metadata of a pull request,
    composes a merge-commit message and performs the merge through the
    hosting platform or through local [git] commands.

    Python [str] values are modelled as lists of code points below 256
    (type [ascii]); dictionaries as [gmap]; the content of [.github.json]
    as the value that [json.load] returns; the effects of the script
    (printing, platform requests, sub-processes, the temporary file,
    exceptions and [sys.exit]) through a small state-and-exception monad
    over an explicit [World]. *)

From Stdlib Require Import Ascii String ZArith NArith Lia DecimalString.
From stdpp Require Import gmap strings list.

Local Open Scope list_scope.
Local Open Scope bool_scope.

(** ** Python strings *)

Definition str := list ascii.

(** A literal of the source. *)
Definition lit (s : string) : str := list_ascii_of_string s.

Module Py.

Definition ord (c : ascii) : N := N_of_ascii c.

Definition NL : ascii := ascii_of_N 10.
Definition CR : ascii := ascii_of_N 13.
Definition TAB : ascii := ascii_of_N 9.
Definition SPACE : ascii := ascii_of_N 32.
Definition HYPHEN : ascii := ascii_of_N 45.

Definition in_range (lo hi : N) (c : ascii) : bool :=
  (lo <=? ord c)%N && (ord c <=? hi)%N.

(** [str.isspace] on one character, for code points below 256: the
    characters of bidirectional class WS, B or S, or of category Zs. *)
Definition isspace (c : ascii) : bool :=
  in_range 9 13 c || in_range 28 32 c || (ord c =? 133)%N || (ord c =? 160)%N.

(** [str.isdecimal] (the regular expression class [\d]). *)
Definition isdecimal (c : ascii) : bool := in_range 48 57 c.

(** [str.isalnum] on one character, for code points below 256. *)
Definition isalnum (c : ascii) : bool :=
  in_range 48 57 c || in_range 65 90 c || in_range 97 122 c
  || (ord c =? 170)%N || (ord c =? 178)%N || (ord c =? 179)%N
  || (ord c =? 181)%N || (ord c =? 185)%N || (ord c =? 186)%N
  || in_range 188 190 c || in_range 192 214 c || in_range 216 246 c
  || in_range 248 255 c.

Fixpoint lstrip (s : str) : str :=
  match s with
  | c :: s' => if isspace c then lstrip s' else s
  | [] => []
  end.

Definition rstrip (s : str) : str := rev (lstrip (rev s)).

(** [s.strip()] *)
Definition strip (s : str) : str := rstrip (lstrip s).

(** [s.startswith(p)] *)
Fixpoint startswith (p s : str) : bool :=
  match p, s with
  | [], _ => true
  | a :: p', b :: s' => if decide (a = b) then startswith p' s' else false
  | _ :: _, [] => false
  end.

(** [s.split(sep)] for a one-character separator: never an empty list. *)
Fixpoint split (sep : ascii) (s : str) : list str :=
  match s with
  | [] => [[]]
  | c :: s' =>
      if decide (c = sep) then [] :: split sep s'
      else match split sep s' with
           | l :: ls => (c :: l) :: ls
           | [] => [[c]]
           end
  end.

(** [sep.join(parts)] *)
Fixpoint join (sep : str) (parts : list str) : str :=
  match parts with
  | [] => []
  | [p] => p
  | p :: ps => p ++ sep ++ join sep ps
  end.

(** [s.expandtabs(tabsize)], from column [col]. *)
Fixpoint expandtabs_from (tabsize col : nat) (s : str) : str :=
  match s with
  | [] => []
  | c :: s' =>
      if decide (c = TAB) then
        match tabsize with
        | 0 => expandtabs_from tabsize col s'
        | _ =>
            let incr := tabsize - col mod tabsize in
            repeat SPACE incr ++ expandtabs_from tabsize (col + incr) s'
        end
      else
        c :: expandtabs_from tabsize
               (if decide (c = NL) then 0 else if decide (c = CR) then 0 else S col)
               s'
  end.

Definition expandtabs (tabsize : nat) (s : str) : str := expandtabs_from tabsize 0 s.

(** [s.replace(old, new)] for a non-empty [old]: occurrences are replaced
    from left to right and do not overlap.  [skip] counts the characters of
    a replaced occurrence that are still to be passed over. *)
Fixpoint replace_from (old new : str) (skip : nat) (s : str) : str :=
  match s with
  | [] => []
  | c :: s' =>
      match skip with
      | S k => replace_from old new k s'
      | 0 =>
          if startswith old s then new ++ replace_from old new (length old - 1) s'
          else c :: replace_from old new 0 s'
      end
  end.

Definition replace (old new s : str) : str := replace_from old new 0 s.

(** [s.rfind(c, 0, stop)] for a one-character needle: the highest index
    below [stop] that holds [c]. *)
Fixpoint rfind_from (c : ascii) (i stop : nat) (s : str) : option nat :=
  match s with
  | [] => None
  | x :: s' =>
      if i <? stop then
        match rfind_from c (S i) stop s' with
        | Some j => Some j
        | None => if decide (x = c) then Some i else None
        end
      else None
  end.

Definition rfind (c : ascii) (stop : nat) (s : str) : option nat := rfind_from c 0 stop s.

(** The length of the longest prefix of [s] whose characters satisfy [p]. *)
Fixpoint count_while (p : ascii -> bool) (s : str) : nat :=
  match s with
  | c :: s' => if p c then S (count_while p s') else 0
  | [] => 0
  end.

(** [str(n)] for an integer. *)
Definition str_of_int (n : Z) : str :=
  lit (NilZero.string_of_int (Z.to_int n)).

(** [c.isprintable()], for the characters below U+0100. *)
Definition isprintable (c : ascii) : bool :=
  in_range 32 126 c || (in_range 161 255 c && negb (ord c =? 173)%N).

Definition QUOTE : ascii := ascii_of_N 39.
Definition DQUOTE : ascii := ascii_of_N 34.
Definition BACKSLASH : ascii := ascii_of_N 92.

Definition hex_digit (n : N) : ascii :=
  ascii_of_N (if (n <? 10)%N then 48 + n else 87 + n).

(** A character inside [repr(s)]: the quote and the backslash are
    escaped, and so is what cannot be printed. *)
Definition repr_char (quote c : ascii) : str :=
  if (ord c =? ord quote)%N || (ord c =? 92)%N then [BACKSLASH; c]
  else if (ord c =? 9)%N then [BACKSLASH; ascii_of_N 116]
  else if (ord c =? 10)%N then [BACKSLASH; ascii_of_N 110]
  else if (ord c =? 13)%N then [BACKSLASH; ascii_of_N 114]
  else if isprintable c then [c]
  else [BACKSLASH; ascii_of_N 120; hex_digit (ord c / 16); hex_digit (ord c mod 16)].

(** [repr(s)]: single quotes, or double quotes when the string holds a
    single quote and no double quote. *)
Definition repr (s : str) : str :=
  let quote :=
    if existsb (fun c => (ord c =? 39)%N) s && negb (existsb (fun c => (ord c =? 34)%N) s)
    then DQUOTE else QUOTE in
  [quote] ++ flat_map (repr_char quote) s ++ [quote].

(** A Python string is true when it is not empty; [None] is false. *)
Definition truthy (o : option str) : bool :=
  match o with
  | Some (_ :: _) => true
  | _ => false
  end.

(** The value of [x if x else y] for an optional string [x]. *)
Definition or_else (o : option str) (y : str) : str :=
  match o with
  | Some (c :: s) => c :: s
  | _ => y
  end.

(** The digits of [int(s)]: decimal digits, single underscores between
    them. *)
Fixpoint parse_digits (acc : Z) (after_digit : bool) (s : str) : option Z :=
  match s with
  | [] => if after_digit then Some acc else None
  | c :: s' =>
      if isdecimal c then
        parse_digits (10 * acc + (Z.of_N (ord c) - 48)) true s'
      else if bool_decide (ord c = 95%N) && after_digit then
        match s' with
        | d :: _ => if isdecimal d then parse_digits acc false s' else None
        | [] => None
        end
      else None
  end.

(** The whitespace that [int] ignores around the number: the ASCII
    whitespace and, above it, the characters of [str.isspace]. *)
Definition int_space (c : ascii) : bool :=
  in_range 9 13 c || (ord c =? 32)%N || (ord c =? 133)%N || (ord c =? 160)%N.

Fixpoint int_lstrip (s : str) : str :=
  match s with
  | c :: s' => if int_space c then int_lstrip s' else s
  | [] => []
  end.

(** [sys.get_int_max_str_digits()], at its default: the longest number
    that [int] converts. *)
Definition int_max_str_digits : nat := 4300.

(** The digits of a number, the underscores between them left out. *)
Definition digit_count (s : str) : nat := length (List.filter isdecimal s).

(** The number after the sign: its digits are parsed, unless there are
    more of them than the limit allows. *)
Definition int_unsigned (s : str) : option Z :=
  if int_max_str_digits <? digit_count s then None else parse_digits 0 false s.

(** [int(s)]: surrounding whitespace is ignored, a sign may come first;
    [None] stands for [ValueError]. *)
Definition int (s : str) : option Z :=
  match rev (int_lstrip (rev (int_lstrip s))) with
  | c :: s' =>
      if bool_decide (ord c = 45%N) then Z.opp <$> int_unsigned s'
      else if bool_decide (ord c = 43%N) then int_unsigned s'
      else int_unsigned (c :: s')
  | [] => None
  end.

(** The digits and underscores that [int] reads first, after the
    whitespace and the sign. *)
Definition int_scan (s : str) : str :=
  let body :=
    match int_lstrip s with
    | c :: s' => if bool_decide (ord c = 45%N) || bool_decide (ord c = 43%N) then s' else c :: s'
    | [] => []
    end in
  take (count_while (fun c => isdecimal c || (ord c =? 95)%N) body) body.

(** The message of the [ValueError] of [int(s)]: the number is too long,
    or the string is no number (it is shown up to 200 characters). *)
Definition int_error (s : str) : str :=
  match parse_digits 0 false (int_scan s) with
  | Some _ =>
      if int_max_str_digits <? digit_count (int_scan s) then
        lit "Exceeds the limit (4300 digits) for integer string conversion: value has "
        ++ str_of_int (Z.of_nat (digit_count (int_scan s)))
        ++ lit " digits; use sys.set_int_max_str_digits() to increase the limit"
      else lit "invalid literal for int() with base 10: " ++ take 200 (repr s)
  | None => lit "invalid literal for int() with base 10: " ++ take 200 (repr s)
  end.

(** [re.match] of the pattern [^\d+$] on [s]: one or more digits up to the end of the
    string, or up to a line feed that ends the string. *)
Definition re_match_digits (s : str) : bool :=
  let k := count_while isdecimal s in
  (1 <=? k) && match drop k s with
               | [] => true
               | [c] => bool_decide (c = NL)
               | _ => false
               end.

End Py.

(** ** Exceptions and results *)

Inductive exn :=
  | SystemExit (code : Z)
  | KeyError (key : str)
  | IndexError
  | ValueError (msg : str)
  | TypeError (msg : str)
  | AttributeError (msg : str)
  | FileNotFoundError (path : str)
  | OSError (msg : str)
  | UnicodeEncodeError (msg : str)
  | GithubException (msg : str).

(** What [except Exception] catches: everything but [SystemExit]. *)
Definition is_Exception (e : exn) : bool :=
  match e with
  | SystemExit _ => false
  | _ => true
  end.

(** A computation returns, raises, or (in the model only) runs out of the
    fuel that bounds its loops. *)
Inductive outcome (A : Type) :=
  | Ret (a : A)
  | Exc (e : exn)
  | OutOfFuel.
Arguments Ret {A} a.
Arguments Exc {A} e.
Arguments OutOfFuel {A}.

(** ** What [json.load] returns

    An object is a dictionary whose keys are strings, shown here by its
    items in their order (the keys of a dictionary are distinct); a number
    is an [int], or a [float] that is given by the text that [repr] shows
    for it. *)
Unset Elimination Schemes.
Inductive json :=
  | JNull
  | JBool (b : bool)
  | JInt (n : Z)
  | JFloat (text : str)
  | JStr (s : str)
  | JList (items : list json)
  | JDict (items : list (str * json)).
Set Elimination Schemes.

(** The value of a key among the items of a dictionary. *)
Fixpoint assoc {A} (key : str) (items : list (str * A)) : option A :=
  match items with
  | [] => None
  | (k, v) :: items' => if bool_decide (k = key) then Some v else assoc key items'
  end.

(** [repr(j)] *)
Fixpoint json_repr (j : json) : str :=
  match j with
  | JNull => lit "None"
  | JBool true => lit "True"
  | JBool false => lit "False"
  | JInt n => Py.str_of_int n
  | JFloat text => text
  | JStr s => Py.repr s
  | JList items => lit "[" ++ Py.join (lit ", ") (map json_repr items) ++ lit "]"
  | JDict items =>
      lit "{"
      ++ Py.join (lit ", ")
           (map (fun kv => let '(k, v) := kv in Py.repr k ++ lit ": " ++ json_repr v) items)
      ++ lit "}"
  end.

(** [str(j)], which is also how an f-string shows [j]. *)
Definition json_str (j : json) : str :=
  match j with
  | JStr s => s
  | _ => json_repr j
  end.

(** [type(j).__name__] *)
Definition type_name (j : json) : str :=
  match j with
  | JNull => lit "NoneType"
  | JBool _ => lit "bool"
  | JInt _ => lit "int"
  | JFloat _ => lit "float"
  | JStr _ => lit "str"
  | JList _ => lit "list"
  | JDict _ => lit "dict"
  end.

(** [sub in s] for two strings. *)
Fixpoint substring (sub s : str) : bool :=
  Py.startswith sub s
  || match s with
     | [] => false
     | _ :: s' => substring sub s'
     end.

(** ** [textwrap.wrap] with the default options

    [expand_tabs], [replace_whitespace], [drop_whitespace],
    [break_long_words] and [break_on_hyphens] are set, [tabsize] is 8,
    both indents are empty, [fix_sentence_endings] is clear and
    [max_lines] is [None]. *)

Module Textwrap.
Import Py.

(** [textwrap._whitespace], the characters of [string.whitespace]. *)
Definition whitespace (c : ascii) : bool := in_range 9 13 c || (ord c =? 32)%N.

Definition munge_whitespace (text : str) : str :=
  map (fun c => if whitespace c then SPACE else c) (expandtabs 8 text).

(** The classes of [wordsep_re]: word characters, letters (word characters
    that are no digits), and word characters with the punctuation marks
    that may stand before an em-dash. *)
Definition is_word (c : ascii) : bool := isalnum c || (ord c =? 95)%N.
Definition letter (c : ascii) : bool := is_word c && negb (isdecimal c).
Definition word_punct (c : ascii) : bool :=
  is_word c || (ord c =? 33)%N || (ord c =? 34)%N || (ord c =? 39)%N
  || (ord c =? 38)%N || (ord c =? 46)%N || (ord c =? 44)%N || (ord c =? 63)%N.

Definition is_hyphen (c : ascii) : bool := bool_decide (c = HYPHEN).

(** [-{2,}(?=\w)] at the head of [rest]: the length of the run of hyphens. *)
Definition emdash_ahead (rest : str) : option nat :=
  let k := count_while is_hyphen rest in
  if (2 <=? k) && match drop k rest with c :: _ => is_word c | [] => false end
  then Some k else None.

(** The lookbehind for a word character or punctuation mark; [before] is
    the text already read, last character first. *)
Definition behind_word_punct (before : str) : bool :=
  match before with
  | c :: _ => word_punct c
  | [] => false
  end.

(** [(?<=[^\d\W]{2}-)|(?<=[^\d\W]-[^\d\W]-)] just after a hyphen; [before]
    is the text read before that hyphen, last character first. *)
Definition hyphen_behind (before : str) : bool :=
  match before with
  | a :: b :: before' =>
      letter a && (letter b
                   || (is_hyphen b && match before' with c :: _ => letter c | [] => false end))
  | _ => false
  end.

(** [(?=[^\d\W]-?[^\d\W])] *)
Definition hyphen_ahead (rest : str) : bool :=
  match rest with
  | a :: b :: rest' =>
      letter a && (letter b
                   || (is_hyphen b && match rest' with c :: _ => letter c | [] => false end))
  | _ => false
  end.

(** The word alternative of [wordsep_re], after its lazy [[^ws]+?] has read
    at least one character: how many more characters the match takes.  The
    alternatives are tried in the order of the pattern: a hyphen that ends a
    part of a hyphenated word, the end of the word, an em-dash ahead. *)
Fixpoint word_end (before rest : str) : nat :=
  match rest with
  | [] => 0
  | c :: rest' =>
      if is_hyphen c && hyphen_behind before && hyphen_ahead rest' then 1
      else if whitespace c then 0
      else if behind_word_punct before && bool_decide (is_Some (emdash_ahead rest)) then 0
      else S (word_end (c :: before) rest')
  end.

(** The length of the match of [wordsep_re] at the head of [rest]. *)
Definition chunk_len (before rest : str) : nat :=
  match rest with
  | [] => 0
  | c :: rest' =>
      if whitespace c then count_while whitespace rest
      else match emdash_ahead rest with
           | Some k => if behind_word_punct before then k else S (word_end (c :: before) rest')
           | None => S (word_end (c :: before) rest')
           end
  end.

(** [wordsep_re.split(text)] without its empty strings: the matches tile
    the text. *)
Fixpoint split_from (fuel : nat) (before rest : str) : list str :=
  match fuel, rest with
  | S fuel', _ :: _ =>
      let n := chunk_len before rest in
      take n rest :: split_from fuel' (rev (take n rest) ++ before) (drop n rest)
  | _, _ => []
  end.

Definition split (text : str) : list str := split_from (length text) [] text.

(** [chunk.strip() == ''] *)
Definition is_blank (chunk : str) : bool :=
  match strip chunk with
  | [] => true
  | _ => false
  end.

(** The inner loop of [_wrap_chunks]: the chunks that fit on the line, and
    the chunks left. *)
Fixpoint take_fitting (width cur_len : nat) (chunks : list str) : list str * list str :=
  match chunks with
  | c :: cs =>
      if cur_len + length c <=? width then
        let '(line, rest) := take_fitting width (cur_len + length c) cs in
        (c :: line, rest)
      else ([], chunks)
  | [] => ([], [])
  end.

(** [_handle_long_word]: where the first chunk is cut. *)
Definition long_word_end (chunk : str) (space_left : nat) : nat :=
  if space_left <? length chunk then
    match rfind HYPHEN space_left chunk with
    | Some hyphen =>
        if (0 <? hyphen) && existsb (fun c => negb (is_hyphen c)) (take hyphen chunk)
        then hyphen + 1 else space_left
    | None => space_left
    end
  else space_left.

Definition handle_long_word (chunks cur_line : list str) (cur_len width : nat)
  : list str * list str :=
  let space_left := if width <? 1 then 1 else width - cur_len in
  match chunks with
  | chunk :: cs =>
      let e := long_word_end chunk space_left in
      (drop e chunk :: cs, cur_line ++ [take e chunk])
  | [] => (chunks, cur_line)
  end.

Definition drop_trailing_blank (cur_line : list str) : list str :=
  match rev cur_line with
  | c :: r => if is_blank c then rev r else cur_line
  | [] => cur_line
  end.

(** A line does not start with whitespace, unless it is the first one. *)
Definition drop_leading_blank (chunks lines : list str) : list str :=
  match chunks, lines with
  | c :: cs, _ :: _ => if is_blank c then cs else chunks
  | _, _ => chunks
  end.

(** The line is full and the next chunk fits on no line: it is cut. *)
Definition break_long_word (width : nat) (cur_line chunks : list str)
  : list str * list str :=
  match chunks with
  | c :: _ =>
      if width <? length c
      then handle_long_word chunks cur_line (length (concat cur_line)) width
      else (chunks, cur_line)
  | [] => (chunks, cur_line)
  end.

Definition add_line (lines cur_line : list str) : list str :=
  match cur_line with
  | _ :: _ => lines ++ [concat cur_line]
  | [] => lines
  end.

(** One pass of the outer loop of [_wrap_chunks]. *)
Definition wrap_line (width : nat) (chunks lines : list str) : list str * list str :=
  let chunks1 := drop_leading_blank chunks lines in
  let '(cur_line, chunks2) := take_fitting width 0 chunks1 in
  let '(chunks3, cur_line2) := break_long_word width cur_line chunks2 in
  (chunks3, add_line lines (drop_trailing_blank cur_line2)).

Fixpoint wrap_loop (fuel width : nat) (chunks lines : list str) : outcome (list str) :=
  match chunks with
  | [] => Ret lines
  | _ :: _ =>
      match fuel with
      | 0 => OutOfFuel
      | S fuel' =>
          let '(chunks', lines') := wrap_line width chunks lines in
          wrap_loop fuel' width chunks' lines'
      end
  end.

(** [_wrap_chunks] *)
Definition wrap_chunks (width : nat) (chunks : list str) : outcome (list str) :=
  if width <=? 0 then Exc (ValueError (lit "invalid width 0 (must be > 0)"))
  else wrap_loop (length (concat chunks) + length chunks) width chunks [].

(** [textwrap.wrap(text, width=width)] *)
Definition wrap (text : str) (width : nat) : outcome (list str) :=
  wrap_chunks width (split (munge_whitespace text)).

End Textwrap.

(** ** The world outside the script *)

(** What the script does to the outside, in the order it does it. *)
Inductive event :=
  | Print (msg : str)
  | GetRepo (full_name : str)
  | GetPull (number : Z)
  | GetReviews (number : Z)
  | GetUser (username : str)
  | QueryMergeable (number : Z)
  | MergePull (number : Z) (commit_title commit_message merge_method : str)
  | CreateTemp (path : str)
  | WriteTemp (path content : str)
  | RunCommand (command : str)
  | Unlink (path : str).

(** The requests to the hosting platform. *)
Definition is_network (e : event) : bool :=
  match e with
  | GetRepo _ | GetPull _ | GetReviews _ | GetUser _ | QueryMergeable _ | MergePull _ _ _ _ => true
  | _ => false
  end.

Definition is_merge_attempt (e : event) : bool :=
  match e with
  | QueryMergeable _ | MergePull _ _ _ _ => true
  | _ => false
  end.

(** The local strategy: the temporary file and the [git] commands. *)
Definition is_local_step (e : event) : bool :=
  match e with
  | CreateTemp _ | WriteTemp _ _ | RunCommand _ | Unlink _ => true
  | _ => false
  end.

Record World := mkWorld {
  log : list event;       (* oldest event first *)
  files : gset str        (* the temporary files that exist *)
}.

(** The world after some more events. *)
Definition add_events (w : World) (evs : list event) : World :=
  mkWorld (log w ++ evs) (files w).

Definition M (A : Type) : Type := World -> World * outcome A.

Definition ret {A} (a : A) : M A := fun w => (w, Ret a).

Definition bind {A B} (m : M A) (k : A -> M B) : M B :=
  fun w =>
    match m w with
    | (w', Ret a) => k a w'
    | (w', Exc e) => (w', Exc e)
    | (w', OutOfFuel) => (w', OutOfFuel)
    end.

Notation "x <- m ;; k" := (bind m (fun x => k))
  (at level 20, m at level 99, k at level 200, only parsing).
Notation "' pat <- m ;; k" := (bind m (fun x => match x with pat => k end))
  (at level 20, pat pattern, m at level 99, k at level 200, only parsing).
Notation "m ;; k" := (bind m (fun _ => k))
  (at level 100, k at level 200, only parsing, right associativity).

Definition raise {A} (e : exn) : M A := fun w => (w, Exc e).

Definition emit (e : event) : M unit :=
  fun w => (add_events w [e], Ret tt).

(** A pure computation that may raise. *)
Definition lift {A} (r : outcome A) : M A := fun w => (w, r).

(** [try: body / except Exception as e: handler e] *)
Definition try_except {A} (body : M A) (handler : exn -> M A) : M A :=
  fun w =>
    match body w with
    | (w', Exc e) => if is_Exception e then handler e w' else (w', Exc e)
    | r => r
    end.

(** [try: body / finally: cleanup]: the cleanup runs however the body
    ends; what the body returned or raised stands unless the cleanup
    raises. *)
Definition try_finally {A} (body : M A) (cleanup : M unit) : M A :=
  fun w =>
    match body w with
    | (w', r) =>
        match cleanup w' with
        | (w'', Ret _) => (w'', r)
        | (w'', Exc e) => (w'', Exc e)
        | (w'', OutOfFuel) => (w'', OutOfFuel)
        end
    end.

(** [for x in xs: acc = step acc x] *)
Fixpoint for_each {A B} (step : B -> A -> M B) (acc : B) (xs : list A) : M B :=
  match xs with
  | [] => ret acc
  | x :: xs' => acc' <- step acc x ;; for_each step acc' xs'
  end.

Definition print (msg : str) : M unit := emit (Print msg).

Definition sys_exit {A} (code : Z) : M A := raise (SystemExit code).

(** [str(e)] *)
Definition str_of_exn (e : exn) : str :=
  match e with
  | SystemExit code => Py.str_of_int code
  | KeyError key => Py.repr key
  | IndexError => lit "list index out of range"
  | ValueError msg | TypeError msg | AttributeError msg | OSError msg
  | UnicodeEncodeError msg | GithubException msg => msg
  | FileNotFoundError path =>
      lit "[Errno 2] No such file or directory: " ++ Py.repr path
  end.

(** [key in obj] for a string [key]: a key of a dictionary, an item of a
    list, a part of a string; nothing else can be searched. *)
Definition contains (obj : json) (key : str) : M bool :=
  match obj with
  | JDict items => ret (bool_decide (is_Some (assoc key items)))
  | JList items =>
      ret (existsb (fun item => match item with
                                | JStr s => bool_decide (s = key)
                                | _ => false
                                end) items)
  | JStr s => ret (substring key s)
  | _ => raise (TypeError (lit "argument of type '" ++ type_name obj ++ lit "' is not iterable"))
  end.

(** [obj[key]] for a string [key]. *)
Definition getitem (obj : json) (key : str) : M json :=
  match obj with
  | JDict items =>
      match assoc key items with
      | Some v => ret v
      | None => raise (KeyError key)
      end
  | JList _ => raise (TypeError (lit "list indices must be integers or slices, not str"))
  | JStr _ => raise (TypeError (lit "string indices must be integers, not 'str'"))
  | _ => raise (TypeError (lit "'" ++ type_name obj ++ lit "' object is not subscriptable"))
  end.

(** *** The hosting platform, as PyGithub shows it *)

(** A request answers or fails (not found, rate limit, network error);
    a failure is raised as an exception with the given message. *)
Inductive response (A : Type) :=
  | Ok (a : A)
  | Failed (msg : str).
Arguments Ok {A} a.
Arguments Failed {A} msg.

Record NamedUser := {
  login : str;
  name : option str;
  email : option str
}.

Record PullRequestReview := {
  review_state : str;
  review_user : NamedUser
}.

Record PullRequestMergeStatus := {
  merged : bool;
  merge_sha : str;
  merge_message : str
}.

Record PullRequest := {
  pr_num : Z;
  pr_title : str;
  pr_user : NamedUser;
  pr_head_ref : str;
  pr_head_sha : str;
  pr_body : option str;
  pr_get_reviews : response (list PullRequestReview);
  pr_mergeable : response (option bool);
  pr_mergeable_state : str;
  pr_merge : str -> str -> str -> response PullRequestMergeStatus
}.

Record Repository := {
  get_pull : Z -> response PullRequest
}.

(** What becomes of a text written to the temporary file: it is written,
    or the encoding of the locale has no bytes for it
    ([UnicodeEncodeError]), or the system refuses the bytes ([OSError]). *)
Inductive write_result :=
  | Written
  | NotEncodable (msg : str)
  | NotWritten (msg : str).

(** Everything the script reads from outside. *)
Record Env := {
  dot_github_json : option json;             (* [.github.json] as [json.load] returns it *)
  environ : gmap str str;                    (* [os.environ] *)
  get_user : str -> response NamedUser;      (* [g.get_user] *)
  get_repo : str -> response Repository;     (* [g.get_repo] *)
  popen : str -> response (str * str * Z);   (* a command: stdout, stderr, return code *)
  temp_name : str;                           (* the name [NamedTemporaryFile] picks *)
  temp_failure : option str;                 (* the [OSError] of [NamedTemporaryFile], if any *)
  temp_write : str -> write_result           (* a text written to the temporary file *)
}.

(** A value held by the dictionary that [get_pr_info] returns. *)
Inductive value :=
  | VInt (n : Z)
  | VStr (s : str)
  | VList (l : list str)
  | VPull (pr : PullRequest).

(** The dictionary that [get_pr_info] returns. *)
Definition pr_info_of (number : Z) (title author head head_sha body : str)
    (reviewed_by : list str) : gmap str value :=
  <[lit "number" := VInt number]>
  (<[lit "title" := VStr title]>
  (<[lit "author" := VStr author]>
  (<[lit "head" := VStr head]>
  (<[lit "head_sha" := VStr head_sha]>
  (<[lit "body" := VStr body]>
  (<[lit "reviewed_by" := VList reviewed_by]> ∅)))))).

(** ** The script *)

Section Script.

Variable E : Env.

(** A request to the platform: it is logged, then answers or raises. *)
Definition request {A} (e : event) (r : response A) : M A :=
  emit e ;;
  match r with
  | Ok a => ret a
  | Failed msg => raise (GithubException msg)
  end.

Definition run_command (command : str) : M (str * str * Z) :=
  emit (RunCommand command) ;;
  match popen E command with
  | Ok (output, error, returncode) => ret (Py.strip output, Py.strip error, returncode)
  | Failed msg => raise (OSError msg)
  end.

(** [load_user_mapping()] is called once, when the script is loaded,
    before every other function: a file that cannot be read or decoded
    ends the script there, with the exception of [open] or [json.load],
    and none of the functions below runs.  [dot_github_json] is [None] for
    a file that does not exist, and otherwise the value that [json.load]
    returned, which nothing checks. *)
Definition load_user_mapping : json :=
  match dot_github_json E with
  | Some mapping => mapping
  | None => JDict []
  end.

Definition user_mapping : json := load_user_mapping.

(** The mapping is searched and indexed as it was loaded, outside the
    [try] block.  The [try] block of [get_user_email] returns from the
    function with [Some] string; its [except] clause falls through with
    [None]. *)
Definition get_user_email (username : str) : M str :=
  known <- contains user_mapping username ;;
  if known : bool then
    entry <- getitem user_mapping username ;;
    mapped_name <- getitem entry (lit "name") ;;
    entry <- getitem user_mapping username ;;
    mapped_email <- getitem entry (lit "email") ;;
    ret (json_str mapped_name ++ lit " <" ++ json_str mapped_email ++ lit ">")
  else
      found <- try_except
        (user <- request (GetUser username) (get_user E username) ;;
         let name := Py.or_else (name user) username in
         match email user with
         | Some (c :: s) => ret (Some (name ++ lit " <" ++ (c :: s) ++ lit ">"))
         | _ => ret (Some (name ++ lit " (@" ++ username ++ lit ")"))
         end)
        (fun e =>
           print (lit "Error fetching email for user " ++ username ++ lit ": "
                  ++ str_of_exn e) ;;
           ret None) ;;
      match found with
      | Some address => ret address
      | None => ret (username ++ lit " <" ++ username ++ lit "@users.noreply.github.com>")
      end.

Definition py_int (s : str) : M Z :=
  match Py.int s with
  | Some n => ret n
  | None => raise (ValueError (Py.int_error s))
  end.

(** The loop over the reviews of [get_pr_info]. *)
Definition add_reviewer (reviewed_by : list str) (review : PullRequestReview)
  : M (list str) :=
  if bool_decide (review_state review = lit "APPROVED") then
    reviewer <- get_user_email (login (review_user review)) ;;
    ret (reviewed_by ++ [reviewer])
  else ret reviewed_by.

Definition get_pr_info (repo : Repository) (pr_number : str) : M (gmap str value) :=
  n <- py_int pr_number ;;
  pr <- request (GetPull n) (get_pull repo n) ;;
  let author := pr_user pr in
  let author_name := Py.or_else (name author) (login author) in
  reviews <- request (GetReviews (pr_num pr)) (pr_get_reviews pr) ;;
  reviewed_by <- for_each add_reviewer [] reviews ;;
  ret (pr_info_of (pr_num pr) (pr_title pr) author_name (pr_head_ref pr) (pr_head_sha pr)
         (match pr_body pr with
          | Some (c :: s) => Py.strip (c :: s)
          | _ => []
          end)
         reviewed_by).

(** [d[key]] *)
Definition dict_get (d : gmap str value) (key : str) : M value :=
  match d !! key with
  | Some v => ret v
  | None => raise (KeyError key)
  end.

(** A value inside an f-string. *)
Definition format_value (v : value) : str :=
  match v with
  | VInt n => Py.str_of_int n
  | VStr s => s
  | VList l => lit "[" ++ Py.join (lit ", ") (map Py.repr l) ++ lit "]"
  | VPull pr =>
      lit "PullRequest(title=" ++ Py.repr (pr_title pr) ++ lit ", number="
      ++ Py.str_of_int (pr_num pr) ++ lit ")"
  end.

(** The string methods of a value. *)
Definition as_str (v : value) : M str :=
  match v with
  | VStr s => ret s
  | _ => raise (AttributeError (lit "object has no attribute 'split'"))
  end.

(** [for x in v]: the items of a list, the characters of a string. *)
Definition iterate (v : value) : M (list str) :=
  match v with
  | VList l => ret l
  | VStr s => ret (map (fun c => [c]) s)
  | _ => raise (TypeError (lit "object is not iterable"))
  end.

(** The attributes of a pull request. *)
Definition as_pull (v : value) : M PullRequest :=
  match v with
  | VPull pr => ret pr
  | _ => raise (AttributeError (lit "object has no attribute 'mergeable'"))
  end.

Definition wrap_step (width : nat) (st : bool * list str) (line : str)
  : outcome (bool * list str) :=
  let '(in_code_block, wrapped_lines) := st in
  if Py.startswith (lit "```") (Py.strip line) then
    Ret (negb in_code_block, wrapped_lines ++ [line])
  else if in_code_block then
    Ret (in_code_block, wrapped_lines ++ [line])
  else
    match Textwrap.wrap line width with
    | Ret ls => Ret (in_code_block, wrapped_lines ++ ls)
    | Exc e => Exc e
    | OutOfFuel => OutOfFuel
    end.

(** The loop of [wrap_text], from a given state. *)
Fixpoint wrap_lines (width : nat) (st : bool * list str) (lines : list str)
  : outcome (bool * list str) :=
  match lines with
  | [] => Ret st
  | line :: lines' =>
      match wrap_step width st line with
      | Ret st' => wrap_lines width st' lines'
      | Exc e => Exc e
      | OutOfFuel => OutOfFuel
      end
  end.

Definition wrap_text (text : str) (width : nat) : outcome str :=
  match wrap_lines width (false, []) (Py.split Py.NL text) with
  | Ret (_, wrapped_lines) => Ret (Py.join [Py.NL] wrapped_lines)
  | Exc e => Exc e
  | OutOfFuel => OutOfFuel
  end.

(** The commit title and message that [merge_pr] composes from the
    metadata (its lines 110 to 121). *)
Definition compose_message (pr_info : gmap str value) : M (str * str) :=
  title <- dict_get pr_info (lit "title") ;;
  author <- dict_get pr_info (lit "author") ;;
  let commit_title :=
    lit "Merge '" ++ format_value title ++ lit "' from " ++ format_value author in
  body <- dict_get pr_info (lit "body") ;;
  body <- as_str body ;;
  commit_body <- lift (wrap_text body 72) ;;
  let commit_message :=
    commit_title ++ [Py.NL; Py.NL] ++ commit_body ++ [Py.NL] in
  reviewed_by <- dict_get pr_info (lit "reviewed_by") ;;
  approvers <- iterate reviewed_by ;;
  let commit_message :=
    fold_left (fun msg approver => msg ++ [Py.NL] ++ lit "Reviewed-by: " ++ approver)
              approvers commit_message in
  number <- dict_get pr_info (lit "number") ;;
  ret (commit_title,
       commit_message ++ [Py.NL; Py.NL] ++ lit "Closes #" ++ format_value number).

(** The API strategy of [merge_pr] (its lines 124 to 146). *)
Definition merge_via_api (pr_number : str) (pr_info : gmap str value)
    (commit_title commit_message : str) : M unit :=
  try_except
    (pr <- dict_get pr_info (lit "pr_object") ;;
     pr <- as_pull pr ;;
     mergeable <- request (QueryMergeable (pr_num pr)) (pr_mergeable pr) ;;
     match mergeable with
     | Some true =>
         let message := Py.replace (commit_title ++ [Py.NL; Py.NL]) [] commit_message in
         result <- request (MergePull (pr_num pr) commit_title message (lit "merge"))
                           (pr_merge pr commit_title message (lit "merge")) ;;
         if merged result then
           print (lit "Pull request #" ++ pr_number
                  ++ lit " merged successfully via GitHub API!") ;;
           print (lit "Merge commit SHA: " ++ merge_sha result) ;;
           print ([Py.NL] ++ lit "Merge commit message:" ++ [Py.NL] ++ commit_message)
         else
           print (lit "Error: Failed to merge PR #" ++ pr_number) ;;
           print (lit "Message: " ++ merge_message result) ;;
           sys_exit 1
     | _ =>
         print (lit "Error: PR #" ++ pr_number ++ lit " is not mergeable. State: "
                ++ pr_mergeable_state pr) ;;
         sys_exit 1
     end)
    (fun e =>
       print (lit "Error merging PR via API: " ++ str_of_exn e) ;;
       sys_exit 1).

(** [tempfile.NamedTemporaryFile(mode='w', delete=False)]: the file is
    created, empty, and stays when it is closed. *)
Definition named_temporary_file : M str :=
  match temp_failure E with
  | Some msg => raise (OSError msg)
  | None =>
      fun w =>
        (mkWorld (log w ++ [CreateTemp (temp_name E)]) ({[temp_name E]} ∪ files w),
         Ret (temp_name E))
  end.

(** [temp_file.write(content)] and the closing of the file at the end of
    the [with] block, which puts the text into the file or raises. *)
Definition write_and_close (path content : str) : M unit :=
  match temp_write E content with
  | Written => emit (WriteTemp path content)
  | NotEncodable msg => raise (UnicodeEncodeError msg)
  | NotWritten msg => raise (OSError msg)
  end.

(** [os.unlink(path)]: a file that exists is removed (the script removes
    only the file that it created); a path that does not exist raises. *)
Definition os_unlink (path : str) : M unit :=
  fun w =>
    if bool_decide (path ∈ files w) then
      (mkWorld (log w ++ [Unlink path]) (files w ∖ {[path]}), Ret tt)
    else (w, Exc (FileNotFoundError path)).

(** The [git] commands of the local strategy (the [try] block of
    [merge_pr], its lines 155 to 178). *)
Definition git_commands (pr_number : str) (pr_info : gmap str value)
    (commit_message temp_file_path : str) : M unit :=
  '(_, error, returncode) <-
    run_command (lit "git fetch origin pull/" ++ pr_number ++ lit "/head") ;;
  if bool_decide (returncode ≠ 0%Z) then
    print (lit "Error fetching PR: " ++ error) ;; sys_exit 1
  else
  '(_, error, returncode) <- run_command (lit "git checkout main") ;;
  if bool_decide (returncode ≠ 0%Z) then
    print (lit "Error checking out main branch: " ++ error) ;; sys_exit 1
  else
  head_sha <- dict_get pr_info (lit "head_sha") ;;
  '(_, error, returncode) <-
    run_command (lit "git merge --no-ff " ++ format_value head_sha ++ lit " -F "
                 ++ temp_file_path) ;;
  if bool_decide (returncode ≠ 0%Z) then
    print (lit "Error merging PR: " ++ error) ;; sys_exit 1
  else
  print (lit "Pull request merged successfully!") ;;
  print (lit "Merge commit message:" ++ [Py.NL] ++ commit_message) ;;
  print ([Py.NL] ++ lit "Note: You'll need to push this merge to mark the PR as merged on GitHub").

(** The local strategy of [merge_pr] (its lines 149 to 182): the file is
    created and written before the [try] block begins. *)
Definition merge_locally (pr_number : str) (pr_info : gmap str value)
    (commit_message : str) : M unit :=
  temp_file <- named_temporary_file ;;
  write_and_close temp_file commit_message ;;
  let temp_file_path := temp_file in
  try_finally
    (git_commands pr_number pr_info commit_message temp_file_path)
    (os_unlink temp_file_path).

Definition merge_pr (pr_number : str) (use_api : bool) : M unit :=
  match environ E !! lit "GITHUB_REPOSITORY" with
  | Some (c :: s) =>
      let repo_name := c :: s in
      repo <- request (GetRepo repo_name) (get_repo E repo_name) ;;
      pr_info <- get_pr_info repo pr_number ;;
      '(commit_title, commit_message) <- compose_message pr_info ;;
      if use_api then merge_via_api pr_number pr_info commit_title commit_message
      else merge_locally pr_number pr_info commit_message
  | _ =>
      print (lit "Error: GITHUB_REPOSITORY environment variable not set") ;;
      sys_exit 1
  end.

(** [xs[i]] *)
Definition list_get (xs : list str) (i : nat) : M str :=
  match xs !! i with
  | Some x => ret x
  | None => raise IndexError
  end.

(** The body of [if __name__ == '__main__'], on [sys.argv]. *)
Definition main (argv : list str) : M unit :=
  if bool_decide (length argv ≠ 2) then
    print (lit "Usage: python merge_pr.py <pr_number>") ;;
    sys_exit 1
  else
  pr_number <- list_get argv 1 ;;
  if negb (Py.re_match_digits pr_number) then
    print (lit "Error: PR number must be a positive integer") ;;
    sys_exit 1
  else
  use_api <-
    (if bool_decide (length argv = 3) then
       flag <- list_get argv 2 ;;
       ret (negb (bool_decide (flag = lit "--local")))
     else ret true) ;;
  merge_pr pr_number use_api.

End Script.

(** The exit status of the process: 0 when the script runs to its end,
    the code of [sys.exit], 1 for an exception that nothing catches. *)
Definition exit_status {A} (r : outcome A) : option Z :=
  match r with
  | Ret _ => Some 0%Z
  | Exc (SystemExit code) => Some code
  | Exc _ => Some 1%Z
  | OutOfFuel => None
  end.

Definition initial_world : World := mkWorld [] ∅.

(** ** Notions that the statements use *)

(** The characters of a text that are not whitespace, in order. *)
Fixpoint non_space (s : str) : str :=
  match s with
  | c :: s' => if Py.isspace c then non_space s' else c :: non_space s'
  | [] => []
  end.

(** The words of a text ([s.split()]): its maximal runs of characters that
    are not whitespace.  [cur] holds the word being read, last character
    first. *)
Fixpoint words_from (cur s : str) : list str :=
  match s with
  | [] => match cur with [] => [] | _ => [rev cur] end
  | c :: s' =>
      if Py.isspace c then
        match cur with
        | [] => words_from [] s'
        | _ => rev cur :: words_from [] s'
        end
      else words_from (c :: cur) s'
  end.

(** A text with its runs of whitespace collapsed to single spaces. *)
Definition collapse (s : str) : str := Py.join [Py.SPACE] (words_from [] s).

(** A wrapped text with its line breaks taken back: each one becomes the
    space it stood for. *)
Definition unbreak (s : str) : str :=
  map (fun c => if bool_decide (c = Py.NL) then Py.SPACE else c) s.

(** A wrapped text with its line breaks deleted. *)
Fixpoint delete_breaks (s : str) : str :=
  match s with
  | c :: s' => if bool_decide (c = Py.NL) then delete_breaks s' else c :: delete_breaks s'
  | [] => []
  end.

(** What is left to wrap: the characters and the chunks. *)
Definition chunks_size (chunks : list str) : nat := length (concat chunks) + length chunks.

(** The round trip of a text through [wrap_text]: the wrapped text, with
    its line breaks undone by [undo], reads as the text does once the runs
    of whitespace are collapsed. *)
Definition round_trip (undo : str -> str) (text : str) (width : nat) : Prop :=
  exists wrapped, wrap_text text width = Ret wrapped
                  /\ collapse (undo wrapped) = collapse text.

(** Every run of characters other than the whitespace of [textwrap] has at
    most [width] characters; [cur] is the length of the run being read. *)
Fixpoint runs_fit (width cur : nat) (s : str) : bool :=
  match s with
  | [] => true
  | c :: s' =>
      if Textwrap.whitespace c then runs_fit width 0 s'
      else (S cur <=? width) && runs_fit width (S cur) s'
  end.

(** A line that [textwrap] can break between words only: it has no word
    longer than the width and no hyphen. *)
Definition plain_line (width : nat) (line : str) : bool :=
  forallb (fun c => negb (Textwrap.is_hyphen c)) line && runs_fit width 0 line.

(** A chunk of whitespace, not empty. *)
Definition gap (chunk : str) : Prop :=
  chunk <> [] /\ Forall (fun c => Py.isspace c = true) chunk.

(** Chunks that a line break can part without harm: none is empty, and each
    is a gap, or fits the width and is followed by a gap if by anything. *)
Fixpoint parted (width : nat) (chunks : list str) : Prop :=
  match chunks with
  | [] => True
  | c :: rest =>
      (gap c \/ (c <> [] /\ length c <= width
                 /\ match rest with d :: _ => gap d | [] => True end))
      /\ parted width rest
  end.

(** A line that opens or closes a fenced code block. *)
Definition is_fence (line : str) : bool := Py.startswith (lit "```") (Py.strip line).

(** The lines that [wrap_text] hands over to [textwrap.wrap]: those
    outside the fenced code blocks. *)
Fixpoint prose_lines (in_code_block : bool) (lines : list str) : list str :=
  match lines with
  | [] => []
  | line :: lines' =>
      if is_fence line then prose_lines (negb in_code_block) lines'
      else if in_code_block then prose_lines in_code_block lines'
      else line :: prose_lines in_code_block lines'
  end.

(** A line of whitespace only: characters of [string.whitespace]. *)
Definition whitespace_only (line : str) : bool := forallb Textwrap.whitespace line.

(** A text of spaces. *)
Definition all_SPACE (s : str) : Prop := Forall (fun c => c = Py.SPACE) s.

(** The string that [get_user_email] returns for a username. *)
Definition identity_of (E : Env) (username : str) : str :=
  match (get_user_email E username initial_world).2 with
  | Ret s => s
  | _ => []
  end.

Definition approved (review : PullRequestReview) : bool :=
  bool_decide (review_state review = lit "APPROVED").

(** An event that is neither a step of the local strategy nor an attempt
    to merge through the platform. *)
Definition quiet (e : event) : bool := negb (is_local_step e) && negb (is_merge_attempt e).

(** What the [try] block of the local strategy does: commands and
    printing. *)
Definition is_command_or_print (e : event) : bool :=
  match e with
  | RunCommand _ | Print _ => true
  | _ => false
  end.

Definition usage : str := lit "Usage: python merge_pr.py <pr_number>".

(** The lines that [wrap_text] copies as they are: the fences and the
    lines inside the fenced code blocks. *)
Fixpoint verbatim_lines (in_code_block : bool) (lines : list str) : list str :=
  match lines with
  | [] => []
  | line :: lines' =>
      if is_fence line then line :: verbatim_lines (negb in_code_block) lines'
      else if in_code_block then line :: verbatim_lines in_code_block lines'
      else verbatim_lines in_code_block lines'
  end.

(** The usernames of the profile requests among some events, in order. *)
Definition user_requests (evs : list event) : list str :=
  omap (fun e => match e with GetUser username => Some username | _ => None end) evs.

(** The shell commands among some events, in order. *)
Definition commands_of (evs : list event) : list str :=
  omap (fun e => match e with RunCommand command => Some command | _ => None end) evs.

(** The entry of a username in the user mapping, when the mapping is an
    object that has one for it. *)
Definition mapping_entry (E : Env) (username : str) : option json :=
  match user_mapping E with
  | JDict items => assoc username items
  | _ => None
  end.

(** A username that is a key of the user mapping. *)
Definition mapped (E : Env) (username : str) : bool :=
  match mapping_entry E username with
  | Some _ => true
  | None => false
  end.

(** The name and the e-mail address of an entry that is an object and
    holds both. *)
Definition entry_fields (entry : json) : option (json * json) :=
  match entry with
  | JDict fields =>
      match assoc (lit "name") fields, assoc (lit "email") fields with
      | Some mapped_name, Some mapped_email => Some (mapped_name, mapped_email)
      | _, _ => None
      end
  | _ => None
  end.

(** The user mapping is as the script expects it, as far as a username
    goes: the mapping is an object, and the entry of the username, if it
    has one, is an object that holds a name and an e-mail address. *)
Definition well_mapped (E : Env) (username : str) : bool :=
  match user_mapping E with
  | JDict items =>
      match assoc username items with
      | Some entry => bool_decide (is_Some (entry_fields entry))
      | None => true
      end
  | _ => false
  end.

(** The three commands of the local strategy. *)
Definition git_fetch (pr_number : str) : str :=
  lit "git fetch origin pull/" ++ pr_number ++ lit "/head".
Definition git_checkout : str := lit "git checkout main".
Definition git_merge (head_sha temp_file_path : str) : str :=
  lit "git merge --no-ff " ++ head_sha ++ lit " -F " ++ temp_file_path.

(** A command that ran and returned the code 0. *)
Definition succeeded (E : Env) (command : str) : Prop :=
  exists output error, popen E command = Ok (output, error, 0%Z).

(** What the local strategy runs: the commands in their order, up to the
    first that does not succeed. *)
Definition commands_run (E : Env) (pr_number head_sha temp_file_path : str)
    (commands : list str) : Prop :=
  (~ succeeded E (git_fetch pr_number) -> commands = [git_fetch pr_number])
  /\ (succeeded E (git_fetch pr_number) -> ~ succeeded E git_checkout ->
      commands = [git_fetch pr_number; git_checkout])
  /\ (succeeded E (git_fetch pr_number) -> succeeded E git_checkout ->
      commands = [git_fetch pr_number; git_checkout; git_merge head_sha temp_file_path]).

(** The reviewers whose approvals [get_pr_info] resolves. *)
Definition approvers (reviews : list PullRequestReview) : list str :=
  map (fun r => login (review_user r)) (List.filter approved reviews).

(** *** The scenario of pull request 42 *)

Definition user_alice : NamedUser := {| login := lit "alice"; name := None; email := None |}.
Definition user_bob : NamedUser := {| login := lit "bob"; name := None; email := None |}.

Definition pr_42 : PullRequest := {|
  pr_num := 42;
  pr_title := lit "Fix bug";
  pr_user := user_alice;
  pr_head_ref := lit "fix-bug";
  pr_head_sha := lit "0123abc";
  pr_body := Some (lit "Short fix.");
  pr_get_reviews := Ok [ {| review_state := lit "APPROVED"; review_user := user_bob |} ];
  pr_mergeable := Ok (Some true);
  pr_mergeable_state := lit "clean";
  pr_merge := fun _ _ _ =>
    Ok {| merged := true; merge_sha := lit "fedcba9";
          merge_message := lit "Pull Request successfully merged" |}
|}.

Definition repo_42 : Repository := {|
  get_pull := fun n => if bool_decide (n = 42%Z) then Ok pr_42 else Failed (lit "404 Not Found")
|}.

Definition env_42 : Env := {|
  dot_github_json :=
    Some (JDict [ (lit "bob", JDict [ (lit "name", JStr (lit "Bob B"));
                                      (lit "email", JStr (lit "bob@x.com")) ]) ]);
  environ := {[ lit "GITHUB_REPOSITORY" := lit "owner/repo" ]};
  get_user := fun _ => Failed (lit "404 Not Found");
  get_repo := fun _ => Ok repo_42;
  popen := fun _ => Ok ([], [], 0%Z);
  temp_name := lit "/tmp/tmp0a1b2c";
  temp_failure := None;
  temp_write := fun _ => Written
|}.

Definition message_42 : str :=
  Py.join [Py.NL]
    [ lit "Merge 'Fix bug' from alice";
      [];
      lit "Short fix.";
      [];
      lit "Reviewed-by: Bob B <bob@x.com>";
      [];
      lit "Closes #42" ].

(** *** The scenario of the reviews by A, B and A *)

Definition user_A : NamedUser := {| login := lit "A"; name := None; email := None |}.
Definition user_B : NamedUser := {| login := lit "B"; name := None; email := None |}.

Definition reviews_ABA : list PullRequestReview :=
  [ {| review_state := lit "APPROVED"; review_user := user_A |};
    {| review_state := lit "CHANGES_REQUESTED"; review_user := user_B |};
    {| review_state := lit "APPROVED"; review_user := user_A |} ].

Definition pr_ABA : PullRequest := {|
  pr_num := 7;
  pr_title := lit "Add feature";
  pr_user := user_B;
  pr_head_ref := lit "feature";
  pr_head_sha := lit "89abcde";
  pr_body := None;
  pr_get_reviews := Ok reviews_ABA;
  pr_mergeable := Ok (Some true);
  pr_mergeable_state := lit "clean";
  pr_merge := fun _ _ _ => Failed (lit "405 Method Not Allowed")
|}.

Definition repo_ABA : Repository := {| get_pull := fun _ => Ok pr_ABA |}.

Definition env_ABA : Env := {|
  dot_github_json := None;
  environ := {[ lit "GITHUB_REPOSITORY" := lit "owner/repo" ]};
  get_user := fun u =>
    if bool_decide (u = lit "A")
    then Ok {| login := lit "A"; name := Some (lit "Ann"); email := Some (lit "ann@x.com") |}
    else Failed (lit "404 Not Found");
  get_repo := fun _ => Ok repo_ABA;
  popen := fun _ => Failed (lit "cannot run");
  temp_name := lit "/tmp/tmp3d4e5f";
  temp_failure := None;
  temp_write := fun _ => Written
|}.

(** *** The scenario of an entry without an e-mail address

    The file [.github.json] holds a name for bob and nothing else. *)
Definition env_no_email : Env := {|
  dot_github_json := Some (JDict [ (lit "bob", JDict [ (lit "name", JStr (lit "Bob B")) ]) ]);
  environ := {[ lit "GITHUB_REPOSITORY" := lit "owner/repo" ]};
  get_user := fun _ => Failed (lit "404 Not Found");
  get_repo := fun _ => Ok repo_42;
  popen := fun _ => Ok ([], [], 0%Z);
  temp_name := lit "/tmp/tmp0a1b2c";
  temp_failure := None;
  temp_write := fun _ => Written
|}.

(** *** The scenario of a locale that encodes ASCII only

    Pull request 8 has a title with a letter outside ASCII, which the
    encoding of the locale cannot write to a file. *)
Definition title_cafe : str := lit "Fix caf" ++ [ascii_of_N 233].

Definition pr_8 : PullRequest := {|
  pr_num := 8;
  pr_title := title_cafe;
  pr_user := user_alice;
  pr_head_ref := lit "fix-cafe";
  pr_head_sha := lit "4567def";
  pr_body := Some (lit "Short fix.");
  pr_get_reviews := Ok [];
  pr_mergeable := Ok (Some true);
  pr_mergeable_state := lit "clean";
  pr_merge := fun _ _ _ => Failed (lit "405 Method Not Allowed")
|}.

Definition repo_8 : Repository := {| get_pull := fun _ => Ok pr_8 |}.

Definition ascii_only (content : str) : write_result :=
  if forallb (fun c => (Py.ord c <? 128)%N) content then Written
  else NotEncodable (lit "'ascii' codec can't encode character: ordinal not in range(128)").

Definition env_ascii : Env := {|
  dot_github_json := None;
  environ := {[ lit "GITHUB_REPOSITORY" := lit "owner/repo" ]};
  get_user := fun _ => Failed (lit "404 Not Found");
  get_repo := fun _ => Ok repo_8;
  popen := fun _ => Ok ([], [], 0%Z);
  temp_name := lit "/tmp/tmp6g7h8i";
  temp_failure := None;
  temp_write := ascii_only
|}.

Definition message_8 : str :=
  Py.join [Py.NL]
    [ lit "Merge '" ++ title_cafe ++ lit "' from alice";
      [];
      lit "Short fix.";
      [];
      [];
      lit "Closes #8" ].

(** *** A text with a fenced code block *)

Definition fenced_text : str :=
  Py.join [Py.NL]
    [ lit "This change fixes the parser.";
      lit "```";
      lit "let  x   =   parse  input  in  x";
      lit "```";
      lit "See the  parser   notes." ].

(** *** A text that wrapping does not give back *)

(** A word of 73 letters, a space, a word of 72 letters. *)
Definition long_words : str :=
  repeat (ascii_of_N 97) 73 ++ [Py.SPACE] ++ repeat (ascii_of_N 98) 72.

Definition long_words_wrapped : str :=
  repeat (ascii_of_N 97) 72 ++ [Py.NL] ++ [ascii_of_N 97] ++ [Py.NL] ++ repeat (ascii_of_N 98) 72.

(** * Verified properties *)

(** ** Whitespace *)

Lemma whitespace_isspace c : Textwrap.whitespace c = true -> Py.isspace c = true.
Proof.
  unfold Textwrap.whitespace, Py.isspace, Py.in_range.
  intros H. apply orb_true_iff in H as [H | H].
  - rewrite H. reflexivity.
  - apply N.eqb_eq in H. rewrite H. reflexivity.
Qed.

Lemma isspace_SPACE : Py.isspace Py.SPACE = true.
Proof. reflexivity. Qed.

Lemma non_space_app a b : non_space (a ++ b) = non_space a ++ non_space b.
Proof.
  induction a as [| c a IH]; simpl; [reflexivity |].
  destruct (Py.isspace c); simpl; congruence.
Qed.

Lemma non_space_rev s : non_space (rev s) = rev (non_space s).
Proof.
  induction s as [| c s IH]; simpl; [reflexivity |].
  rewrite non_space_app, IH. simpl.
  destruct (Py.isspace c); simpl; [apply app_nil_r | reflexivity].
Qed.

Lemma non_space_repeat_SPACE n : non_space (repeat Py.SPACE n) = [].
Proof. induction n; simpl; [reflexivity | assumption]. Qed.

Lemma non_space_lstrip s : non_space (Py.lstrip s) = non_space s.
Proof.
  induction s as [| c s IH]; simpl; [reflexivity |].
  destruct (Py.isspace c) eqn:Hc; [assumption |].
  simpl. rewrite Hc. reflexivity.
Qed.

Lemma non_space_strip s : non_space (Py.strip s) = non_space s.
Proof.
  unfold Py.strip, Py.rstrip.
  rewrite non_space_rev, non_space_lstrip, non_space_rev, rev_involutive.
  apply non_space_lstrip.
Qed.

Lemma is_blank_non_space chunk : Textwrap.is_blank chunk = true -> non_space chunk = [].
Proof.
  unfold Textwrap.is_blank. intros H.
  rewrite <- non_space_strip.
  destruct (Py.strip chunk); [reflexivity | discriminate].
Qed.

Lemma non_space_concat_app (xs ys : list str) :
  non_space (concat (xs ++ ys)) = non_space (concat xs) ++ non_space (concat ys).
Proof. rewrite concat_app. apply non_space_app. Qed.

Lemma non_space_expandtabs tabsize col s :
  non_space (Py.expandtabs_from tabsize col s) = non_space s.
Proof.
  revert col. induction s as [| c s IH]; intros col; simpl; [reflexivity |].
  destruct (decide (c = Py.TAB)) as [-> | Hc].
  - change (Py.isspace Py.TAB) with true. cbv iota.
    destruct tabsize as [| t]; [apply IH |].
    rewrite non_space_app, non_space_repeat_SPACE. apply IH.
  - simpl. destruct (Py.isspace c); rewrite IH; reflexivity.
Qed.

Lemma non_space_munge text : non_space (Textwrap.munge_whitespace text) = non_space text.
Proof.
  unfold Textwrap.munge_whitespace, Py.expandtabs.
  rewrite <- (non_space_expandtabs 8 0 text).
  induction (Py.expandtabs_from 8 0 text) as [| c s IH]; simpl; [reflexivity |].
  destruct (Textwrap.whitespace c) eqn:Hc.
  - rewrite isspace_SPACE, (whitespace_isspace _ Hc). assumption.
  - rewrite IH. reflexivity.
Qed.

Lemma non_space_join_NL (ls : list str) :
  non_space (Py.join [Py.NL] ls) = non_space (concat ls).
Proof.
  induction ls as [| l ls IH]; [reflexivity |].
  destruct ls as [| l' ls].
  - simpl. rewrite app_nil_r. reflexivity.
  - change (Py.join [Py.NL] (l :: l' :: ls)) with (l ++ [Py.NL] ++ Py.join [Py.NL] (l' :: ls)).
    change (concat (l :: l' :: ls)) with (l ++ concat (l' :: ls)).
    rewrite !non_space_app, IH. reflexivity.
Qed.

Lemma split_cons sep s : exists l ls, Py.split sep s = l :: ls.
Proof.
  induction s as [| c s [l [ls IH]]]; simpl; [eauto |].
  destruct (decide (c = sep)); [eauto |].
  rewrite IH. eauto.
Qed.

Lemma non_space_split_NL s : non_space (concat (Py.split Py.NL s)) = non_space s.
Proof.
  induction s as [| c s IH]; [reflexivity |].
  simpl. destruct (decide (c = Py.NL)) as [-> | Hc].
  - simpl. change (Py.isspace Py.NL) with true. cbv iota. assumption.
  - destruct (split_cons Py.NL s) as [l [ls Hs]]. rewrite Hs in *.
    simpl in *. destruct (Py.isspace c); congruence.
Qed.

(** ** The chunks of [textwrap] tile the text *)

Lemma emdash_ahead_ge rest k : Textwrap.emdash_ahead rest = Some k -> 2 <= k.
Proof.
  unfold Textwrap.emdash_ahead.
  destruct (2 <=? Py.count_while Textwrap.is_hyphen rest) eqn:Hk; simpl; [| discriminate].
  apply Nat.leb_le in Hk.
  destruct (match drop _ rest with [] => false | c :: _ => Textwrap.is_word c end);
    intros [= <-]; assumption.
Qed.

Lemma chunk_len_pos before c rest : 1 <= Textwrap.chunk_len before (c :: rest).
Proof.
  unfold Textwrap.chunk_len.
  destruct (Textwrap.whitespace c) eqn:Hc.
  - simpl. rewrite Hc. lia.
  - destruct (Textwrap.emdash_ahead (c :: rest)) as [k |] eqn:Hk; [| lia].
    apply emdash_ahead_ge in Hk.
    destruct (Textwrap.behind_word_punct before); lia.
Qed.

Lemma split_from_concat fuel before rest :
  length rest <= fuel -> concat (Textwrap.split_from fuel before rest) = rest.
Proof.
  revert before rest. induction fuel as [| fuel IH]; intros before rest Hlen.
  - destruct rest; [reflexivity | simpl in Hlen; lia].
  - destruct rest as [| c rest]; [reflexivity |].
    cbn [Textwrap.split_from concat].
    pose proof (chunk_len_pos before c rest) as Hn.
    rewrite IH.
    + apply take_drop.
    + rewrite length_drop. simpl in *. lia.
Qed.

Lemma split_concat text : concat (Textwrap.split text) = text.
Proof. apply split_from_concat. reflexivity. Qed.

(** ** The loop of [_wrap_chunks] *)

Lemma take_fitting_app width cur_len chunks :
  (Textwrap.take_fitting width cur_len chunks).1
    ++ (Textwrap.take_fitting width cur_len chunks).2 = chunks.
Proof.
  revert cur_len. induction chunks as [| c cs IH]; intros cur_len; [reflexivity |].
  simpl. destruct (cur_len + length c <=? width); [| reflexivity].
  specialize (IH (cur_len + length c)).
  destruct (Textwrap.take_fitting width (cur_len + length c) cs) as [line rest].
  simpl in *. congruence.
Qed.

(** Nothing fits on an empty line only when the first chunk is too long. *)
Lemma take_fitting_nil width c cs :
  (Textwrap.take_fitting width 0 (c :: cs)).1 = [] -> width < length c.
Proof.
  simpl. destruct (length c <=? width) eqn:Hc.
  - destruct (Textwrap.take_fitting width (length c) cs). discriminate.
  - intros _. apply Nat.leb_gt in Hc. assumption.
Qed.

Lemma rfind_from_lt c i stop s j : Py.rfind_from c i stop s = Some j -> j < stop.
Proof.
  revert i. induction s as [| x s IH]; intros i; simpl; [discriminate |].
  destruct (i <? stop) eqn:Hi; [| discriminate].
  destruct (Py.rfind_from c (S i) stop s) eqn:Hr.
  - intros [= <-]. eapply IH. eassumption.
  - destruct (decide (x = c)); [| discriminate].
    intros [= <-]. apply Nat.ltb_lt. assumption.
Qed.

Lemma long_word_end_bounds chunk space_left :
  1 <= space_left ->
  1 <= Textwrap.long_word_end chunk space_left <= space_left.
Proof.
  intros Hs. unfold Textwrap.long_word_end.
  destruct (space_left <? length chunk); [| lia].
  destruct (Py.rfind Py.HYPHEN space_left chunk) as [h |] eqn:Hh; [| lia].
  apply rfind_from_lt in Hh.
  destruct ((0 <? h) && existsb _ (take h chunk)); lia.
Qed.

Lemma long_word_end_le chunk space_left :
  Textwrap.long_word_end chunk space_left <= space_left.
Proof.
  unfold Textwrap.long_word_end.
  destruct (space_left <? length chunk); [| lia].
  destruct (Py.rfind Py.HYPHEN space_left chunk) as [h |] eqn:Hh; [| lia].
  apply rfind_from_lt in Hh.
  destruct ((0 <? h) && existsb _ (take h chunk)); lia.
Qed.

Lemma drop_trailing_blank_non_space cur_line :
  non_space (concat (Textwrap.drop_trailing_blank cur_line)) = non_space (concat cur_line).
Proof.
  unfold Textwrap.drop_trailing_blank.
  destruct (rev cur_line) as [| c r] eqn:Hrev; [reflexivity |].
  destruct (Textwrap.is_blank c) eqn:Hc; [| reflexivity].
  assert (cur_line = rev r ++ [c]) as ->.
  { rewrite <- (rev_involutive cur_line), Hrev. reflexivity. }
  rewrite non_space_concat_app. simpl.
  rewrite app_nil_r, (is_blank_non_space _ Hc), app_nil_r. reflexivity.
Qed.

Lemma drop_trailing_blank_length cur_line :
  length (concat (Textwrap.drop_trailing_blank cur_line)) <= length (concat cur_line).
Proof.
  unfold Textwrap.drop_trailing_blank.
  destruct (rev cur_line) as [| c r] eqn:Hrev; [lia |].
  destruct (Textwrap.is_blank c); [| lia].
  assert (cur_line = rev r ++ [c]) as ->.
  { rewrite <- (rev_involutive cur_line), Hrev. reflexivity. }
  rewrite concat_app, length_app. lia.
Qed.

Lemma drop_leading_blank_non_space chunks lines :
  non_space (concat (Textwrap.drop_leading_blank chunks lines)) = non_space (concat chunks).
Proof.
  unfold Textwrap.drop_leading_blank.
  destruct chunks as [| c cs]; [reflexivity |].
  destruct lines; [reflexivity |].
  destruct (Textwrap.is_blank c) eqn:Hc; [| reflexivity].
  simpl. rewrite non_space_app, (is_blank_non_space _ Hc). reflexivity.
Qed.

Lemma drop_leading_blank_size chunks lines :
  chunks_size (Textwrap.drop_leading_blank chunks lines) <= chunks_size chunks.
Proof.
  unfold Textwrap.drop_leading_blank, chunks_size.
  destruct chunks as [| c cs]; [lia |].
  destruct lines; [lia |].
  destruct (Textwrap.is_blank c); [| lia].
  simpl. rewrite length_app. lia.
Qed.

Lemma drop_leading_blank_cons c cs lines :
  Textwrap.drop_leading_blank (c :: cs) lines = c :: cs
  \/ chunks_size (Textwrap.drop_leading_blank (c :: cs) lines) < chunks_size (c :: cs).
Proof.
  unfold Textwrap.drop_leading_blank, chunks_size.
  destruct lines; [left; reflexivity |].
  destruct (Textwrap.is_blank c); [| left; reflexivity].
  right. simpl. rewrite length_app. lia.
Qed.

Lemma break_long_word_concat width cur_line chunks :
  concat (Textwrap.break_long_word width cur_line chunks).2
    ++ concat (Textwrap.break_long_word width cur_line chunks).1
  = concat cur_line ++ concat chunks.
Proof.
  unfold Textwrap.break_long_word, Textwrap.handle_long_word.
  destruct chunks as [| c cs]; [reflexivity |].
  destruct (width <? length c); [| reflexivity].
  cbn [fst snd]. rewrite concat_app. simpl.
  rewrite app_nil_r, <- !app_assoc, (app_assoc (take _ c)), take_drop. reflexivity.
Qed.

Lemma add_line_concat lines cur_line :
  concat (Textwrap.add_line lines cur_line) = concat lines ++ concat cur_line.
Proof.
  unfold Textwrap.add_line. destruct cur_line as [| c cs].
  - simpl. rewrite app_nil_r. reflexivity.
  - rewrite concat_app. simpl. rewrite app_nil_r. reflexivity.
Qed.

(** A pass of the loop moves characters from the chunks to the lines and
    loses whitespace only. *)
Lemma wrap_line_non_space width chunks lines :
  non_space (concat (Textwrap.wrap_line width chunks lines).2)
    ++ non_space (concat (Textwrap.wrap_line width chunks lines).1)
  = non_space (concat lines) ++ non_space (concat chunks).
Proof.
  unfold Textwrap.wrap_line.
  rewrite <- (drop_leading_blank_non_space chunks lines).
  pose proof (take_fitting_app width 0 (Textwrap.drop_leading_blank chunks lines)) as Hfit.
  destruct (Textwrap.take_fitting width 0 _) as [cur_line chunks2].
  pose proof (break_long_word_concat width cur_line chunks2) as Hbreak.
  destruct (Textwrap.break_long_word width cur_line chunks2) as [chunks3 cur_line2].
  cbn [fst snd] in *.
  rewrite add_line_concat, non_space_app, drop_trailing_blank_non_space.
  rewrite <- Hfit, concat_app, <- Hbreak, !non_space_app, app_assoc. reflexivity.
Qed.

(** A pass of the loop takes at least a character or a chunk. *)
Lemma wrap_line_size width c cs lines :
  1 <= width ->
  chunks_size (Textwrap.wrap_line width (c :: cs) lines).1 < chunks_size (c :: cs).
Proof.
  intros Hw. unfold Textwrap.wrap_line.
  pose proof (drop_leading_blank_size (c :: cs) lines) as Hle.
  pose proof (drop_leading_blank_cons c cs lines) as Hcons.
  pose proof (take_fitting_app width 0 (Textwrap.drop_leading_blank (c :: cs) lines)) as Hfit.
  destruct (Textwrap.take_fitting width 0 (Textwrap.drop_leading_blank (c :: cs) lines))
    as [cur_line chunks2] eqn:Htake.
  cbn [fst snd] in Hfit.
  assert (chunks_size chunks2 + chunks_size cur_line
          = chunks_size (Textwrap.drop_leading_blank (c :: cs) lines)) as Hsum.
  { rewrite <- Hfit. unfold chunks_size. rewrite concat_app, !length_app. lia. }
  assert (chunks_size (Textwrap.break_long_word width cur_line chunks2).1 <= chunks_size chunks2
          /\ (cur_line = [] -> chunks2 <> [] ->
              chunks_size (Textwrap.break_long_word width cur_line chunks2).1 < chunks_size chunks2))
    as [Hb1 Hb2].
  { unfold Textwrap.break_long_word, Textwrap.handle_long_word.
    destruct chunks2 as [| c2 cs2]; [simpl; split; [lia | congruence] |].
    destruct (width <? length c2) eqn:Hlong.
    - apply Nat.ltb_lt in Hlong. cbn [fst]. unfold chunks_size. simpl.
      rewrite !length_app, length_drop. split.
      + generalize (Textwrap.long_word_end c2
                      (if width <? 1 then 1 else width - length (concat cur_line))).
        intros e. lia.
      + intros -> _. simpl.
        destruct (width <? 1) eqn:Hw1; [apply Nat.ltb_lt in Hw1; lia |].
        rewrite Nat.sub_0_r.
        pose proof (long_word_end_bounds c2 width Hw). lia.
    - apply Nat.ltb_ge in Hlong. cbn [fst]. split; [lia |].
      intros -> _. exfalso.
      destruct Hcons as [Heq | Hlt].
      + rewrite Heq in Htake, Hfit.
        assert ((Textwrap.take_fitting width 0 (c :: cs)).1 = []) as Hnil
          by (rewrite Htake; reflexivity).
        apply take_fitting_nil in Hnil.
        simpl in Hfit. injection Hfit as <- _. lia.
      + destruct (Textwrap.drop_leading_blank (c :: cs) lines) as [| d ds] eqn:Hd;
          [discriminate |].
        assert ((Textwrap.take_fitting width 0 (d :: ds)).1 = []) as Hnil
          by (rewrite Htake; reflexivity).
        apply take_fitting_nil in Hnil.
        simpl in Hfit. injection Hfit as <- _. lia. }
  destruct (Textwrap.break_long_word width cur_line chunks2) as [chunks3 cur_line2].
  cbn [fst snd] in *.
  destruct cur_line as [| l ls].
  - destruct chunks2 as [| c2 cs2].
    + destruct Hcons as [Heq | Hlt]; [rewrite Heq in Hfit; discriminate |].
      rewrite <- Hsum in Hlt. unfold chunks_size in *. simpl in *. lia.
    + specialize (Hb2 eq_refl ltac:(discriminate)).
      rewrite <- Hsum in Hle. unfold chunks_size in *. simpl in *. lia.
  - rewrite <- Hsum in Hle. unfold chunks_size in *. simpl in *. lia.
Qed.

Lemma wrap_loop_non_space width fuel chunks lines :
  1 <= width ->
  chunks_size chunks <= fuel ->
  exists ls, Textwrap.wrap_loop fuel width chunks lines = Ret ls
             /\ non_space (concat ls) = non_space (concat lines) ++ non_space (concat chunks).
Proof.
  intros Hw. revert chunks lines.
  induction fuel as [| fuel IH]; intros chunks lines Hsize.
  - destruct chunks as [| c cs].
    + exists lines. simpl. rewrite app_nil_r. auto.
    + unfold chunks_size in Hsize. simpl in Hsize. lia.
  - destruct chunks as [| c cs].
    + exists lines. simpl. rewrite app_nil_r. auto.
    + cbn [Textwrap.wrap_loop].
      pose proof (wrap_line_size width c cs lines Hw) as Hlt.
      pose proof (wrap_line_non_space width (c :: cs) lines) as Hns.
      destruct (Textwrap.wrap_line width (c :: cs) lines) as [chunks' lines'].
      cbn [fst snd] in *.
      destruct (IH chunks' lines') as [ls [Hrun Hls]]; [lia |].
      exists ls. split; [assumption |]. congruence.
Qed.

(** [textwrap.wrap] returns for every positive width, and its lines hold
    the characters of the text that are not whitespace. *)
Lemma wrap_non_space line width :
  1 <= width ->
  exists ls, Textwrap.wrap line width = Ret ls /\ non_space (concat ls) = non_space line.
Proof.
  intros Hw. unfold Textwrap.wrap, Textwrap.wrap_chunks.
  destruct (width <=? 0) eqn:H0; [apply Nat.leb_le in H0; lia |].
  destruct (wrap_loop_non_space width
              (length (concat (Textwrap.split (Textwrap.munge_whitespace line)))
               + length (Textwrap.split (Textwrap.munge_whitespace line)))
              (Textwrap.split (Textwrap.munge_whitespace line)) [] Hw)
    as [ls [Hrun Hls]]; [reflexivity |].
  exists ls. split; [assumption |].
  rewrite Hls, split_concat. apply non_space_munge.
Qed.

(** ** The loop of [wrap_text] *)

Lemma wrap_step_non_space width st line :
  1 <= width ->
  exists st', wrap_step width st line = Ret st'
              /\ non_space (concat st'.2) = non_space (concat st.2) ++ non_space line.
Proof.
  intros Hw. destruct st as [flag acc]. unfold wrap_step.
  destruct (Py.startswith _ _).
  - eexists. split; [reflexivity |]. simpl.
    rewrite non_space_concat_app. simpl. rewrite app_nil_r. reflexivity.
  - destruct flag.
    + eexists. split; [reflexivity |]. simpl.
      rewrite non_space_concat_app. simpl. rewrite app_nil_r. reflexivity.
    + destruct (wrap_non_space line width Hw) as [ls [-> Hls]].
      eexists. split; [reflexivity |]. simpl.
      rewrite non_space_concat_app. congruence.
Qed.

Lemma wrap_lines_non_space width lines st :
  1 <= width ->
  exists st', wrap_lines width st lines = Ret st'
              /\ non_space (concat st'.2) = non_space (concat st.2) ++ non_space (concat lines).
Proof.
  intros Hw. revert st. induction lines as [| line lines IH]; intros st.
  - exists st. simpl. rewrite app_nil_r. auto.
  - cbn [wrap_lines].
    destruct (wrap_step_non_space width st line Hw) as [st1 [-> H1]].
    destruct (IH st1) as [st2 [H2 H3]].
    exists st2. split; [assumption |].
    rewrite H3, H1. simpl. rewrite non_space_app, app_assoc. reflexivity.
Qed.

Lemma wrap_text_non_space text width :
  1 <= width ->
  exists wrapped, wrap_text text width = Ret wrapped /\ non_space wrapped = non_space text.
Proof.
  intros Hw. unfold wrap_text.
  destruct (wrap_lines_non_space width (Py.split Py.NL text) (false, []) Hw)
    as [[flag out] [-> Hout]].
  eexists. split; [reflexivity |].
  rewrite non_space_join_NL. simpl in Hout. rewrite Hout.
  apply non_space_split_NL.
Qed.

Lemma wrap_lines_app width a b st :
  wrap_lines width st (a ++ b)
  = match wrap_lines width st a with
    | Ret st' => wrap_lines width st' b
    | Exc e => Exc e
    | OutOfFuel => OutOfFuel
    end.
Proof.
  revert st. induction a as [| line a IH]; intros st; [reflexivity |].
  simpl. destruct (wrap_step width st line); auto.
Qed.

(** Inside a code block the lines are kept as they are. *)
Lemma wrap_lines_block width body acc :
  Forall (fun l => is_fence l = false) body ->
  wrap_lines width (true, acc) body = Ret (true, acc ++ body).
Proof.
  intros Hbody. revert acc. induction Hbody as [| l body Hl _ IH]; intros acc.
  - simpl. rewrite app_nil_r. reflexivity.
  - cbn [wrap_lines]. unfold wrap_step. unfold is_fence in Hl. rewrite Hl.
    rewrite IH, <- app_assoc. reflexivity.
Qed.

Lemma wrap_step_fence width flag acc line :
  is_fence line = true -> wrap_step width (flag, acc) line = Ret (negb flag, acc ++ [line]).
Proof. unfold wrap_step, is_fence. intros ->. reflexivity. Qed.

(** A fenced block goes through the loop unchanged, with its fences. *)
Lemma wrap_lines_fenced width acc open body close :
  is_fence open = true -> is_fence close = true ->
  Forall (fun l => is_fence l = false) body ->
  wrap_lines width (false, acc) ([open] ++ body ++ [close])
  = Ret (false, acc ++ [open] ++ body ++ [close]).
Proof.
  intros Hopen Hclose Hbody.
  rewrite wrap_lines_app. cbn [wrap_lines]. rewrite (wrap_step_fence _ _ _ _ Hopen).
  cbn [negb]. rewrite wrap_lines_app, (wrap_lines_block _ _ _ Hbody).
  cbn [wrap_lines]. rewrite (wrap_step_fence _ _ _ _ Hclose).
  cbn [negb]. rewrite <- !app_assoc. reflexivity.
Qed.

(** The lines already wrapped are a prefix of the result. *)
Lemma wrap_lines_acc width lines flag acc :
  wrap_lines width (flag, acc) lines
  = match wrap_lines width (flag, []) lines with
    | Ret (flag', out) => Ret (flag', acc ++ out)
    | Exc e => Exc e
    | OutOfFuel => OutOfFuel
    end.
Proof.
  revert flag acc. induction lines as [| line lines IH]; intros flag acc.
  - simpl. rewrite app_nil_r. reflexivity.
  - cbn [wrap_lines].
    assert (wrap_step width (flag, acc) line
            = match wrap_step width (flag, []) line with
              | Ret (flag', out) => Ret (flag', acc ++ out)
              | Exc e => Exc e
              | OutOfFuel => OutOfFuel
              end) as ->.
    { unfold wrap_step. destruct (Py.startswith _ _); [reflexivity |].
      destruct flag; [reflexivity |].
      destruct (Textwrap.wrap line width); reflexivity. }
    destruct (wrap_step width (flag, []) line) as [[flag1 out1] | e |]; try reflexivity.
    rewrite (IH flag1 (acc ++ out1)), (IH flag1 out1).
    destruct (wrap_lines width (flag1, []) lines) as [[flag2 out2] | e |]; try reflexivity.
    rewrite app_assoc. reflexivity.
Qed.

(** ** Lines and line breaks *)

Lemma split_NL_free l : Py.NL ∉ l -> Py.split Py.NL l = [l].
Proof.
  induction l as [| c l IH]; intros Hfree; [reflexivity |].
  simpl. destruct (decide (c = Py.NL)) as [-> | Hc].
  - exfalso. apply Hfree. left.
  - rewrite IH; [reflexivity |]. intros Hin. apply Hfree. right. assumption.
Qed.

Lemma split_NL_app l s :
  Py.NL ∉ l ->
  Py.split Py.NL (l ++ Py.NL :: s) = l :: Py.split Py.NL s.
Proof.
  induction l as [| c l IH]; intros Hfree.
  - simpl. destruct (decide (Py.NL = Py.NL)); [reflexivity | congruence].
  - simpl. destruct (decide (c = Py.NL)) as [-> | Hc].
    + exfalso. apply Hfree. left.
    + rewrite IH; [reflexivity |]. intros Hin. apply Hfree. right. assumption.
Qed.

Lemma split_join_NL (ls : list str) :
  ls <> [] -> Forall (fun l => Py.NL ∉ l) ls ->
  Py.split Py.NL (Py.join [Py.NL] ls) = ls.
Proof.
  intros Hne Hfree. induction Hfree as [| l ls Hl Hls IH]; [congruence |].
  destruct ls as [| l' ls].
  - simpl. apply split_NL_free. assumption.
  - change (Py.join [Py.NL] (l :: l' :: ls)) with (l ++ Py.NL :: Py.join [Py.NL] (l' :: ls)).
    rewrite split_NL_app by assumption.
    rewrite IH; [reflexivity | discriminate].
Qed.

(** ** Lines of whitespace *)

Lemma lstrip_spaces s : Forall (fun c => Py.isspace c = true) s -> Py.lstrip s = [].
Proof. induction 1 as [| c s Hc _ IH]; simpl; [reflexivity |]. rewrite Hc. assumption. Qed.

Lemma strip_spaces s : Forall (fun c => Py.isspace c = true) s -> Py.strip s = [].
Proof. intros H. unfold Py.strip, Py.rstrip. rewrite (lstrip_spaces s H). reflexivity. Qed.

Lemma whitespace_only_Forall line :
  whitespace_only line = true -> Forall (fun c => Textwrap.whitespace c = true) line.
Proof.
  unfold whitespace_only. induction line as [| c line IH]; simpl; intros H; [constructor |].
  apply andb_true_iff in H as [Hc Hl]. constructor; auto.
Qed.

Lemma whitespace_only_not_fence line : whitespace_only line = true -> is_fence line = false.
Proof.
  intros H. unfold is_fence. rewrite strip_spaces; [reflexivity |].
  eapply Forall_impl; [apply whitespace_only_Forall; eassumption |].
  apply whitespace_isspace.
Qed.

Lemma expandtabs_whitespace tabsize col s :
  Forall (fun c => Textwrap.whitespace c = true) s ->
  Forall (fun c => Textwrap.whitespace c = true) (Py.expandtabs_from tabsize col s).
Proof.
  intros H. revert col. induction H as [| c s Hc _ IH]; intros col; simpl; [constructor |].
  destruct (decide (c = Py.TAB)).
  - destruct tabsize; [apply IH |].
    apply Forall_app. split; [| apply IH].
    apply Forall_forall. intros x Hx. apply list_elem_of_In, repeat_spec in Hx.
    subst x. reflexivity.
  - constructor; [assumption | apply IH].
Qed.

Lemma munge_whitespace_only line :
  whitespace_only line = true -> all_SPACE (Textwrap.munge_whitespace line).
Proof.
  intros H. apply whitespace_only_Forall in H.
  unfold Textwrap.munge_whitespace, Py.expandtabs, all_SPACE.
  apply (expandtabs_whitespace 8 0) in H.
  induction H as [| c s Hc _ IH]; simpl; constructor; [| assumption].
  rewrite Hc. reflexivity.
Qed.

Lemma count_while_all_SPACE s : all_SPACE s -> Py.count_while Textwrap.whitespace s = length s.
Proof. induction 1 as [| c s -> _ IH]; simpl; [reflexivity |]. rewrite IH. reflexivity. Qed.

Lemma split_from_nil fuel before : Textwrap.split_from fuel before [] = [].
Proof. destruct fuel; reflexivity. Qed.

(** A text of spaces is one chunk, or none when it is empty. *)
Lemma split_all_SPACE s :
  all_SPACE s -> Textwrap.split s = match s with [] => [] | _ => [s] end.
Proof.
  intros H. destruct s as [| c s]; [reflexivity |].
  unfold Textwrap.split. cbn [length Textwrap.split_from].
  assert (Textwrap.chunk_len [] (c :: s) = length (c :: s)) as ->.
  { unfold Textwrap.chunk_len. inversion H as [| ? ? Hc Hs]; subst.
    change (Textwrap.whitespace Py.SPACE) with true. cbv iota.
    apply count_while_all_SPACE. assumption. }
  rewrite take_ge, drop_ge by reflexivity.
  rewrite split_from_nil. reflexivity.
Qed.

Lemma is_blank_all_SPACE s : all_SPACE s -> Textwrap.is_blank s = true.
Proof.
  intros H. unfold Textwrap.is_blank. rewrite strip_spaces; [reflexivity |].
  eapply Forall_impl; [eassumption |]. intros c ->. reflexivity.
Qed.

Lemma rfind_all_SPACE s i stop : all_SPACE s -> Py.rfind_from Py.HYPHEN i stop s = None.
Proof.
  intros H. revert i. induction H as [| c s -> _ IH]; intros i; simpl; [reflexivity |].
  destruct (i <? stop); [| reflexivity]. rewrite IH.
  destruct (decide (Py.SPACE = Py.HYPHEN)); [discriminate | reflexivity].
Qed.

(** A chunk of spaces leaves no line, however long it is. *)
Lemma wrap_loop_all_SPACE width fuel chunk :
  1 <= width -> all_SPACE chunk -> length chunk < fuel ->
  Textwrap.wrap_loop fuel width [chunk] [] = Ret [].
Proof.
  intros Hw. revert chunk. induction fuel as [| fuel IH]; intros chunk Hsp Hlen; [lia |].
  cbn [Textwrap.wrap_loop]. unfold Textwrap.wrap_line.
  cbn [Textwrap.drop_leading_blank Textwrap.take_fitting Nat.add].
  destruct (length chunk <=? width) eqn:Hfit.
  - cbn [Textwrap.take_fitting Textwrap.break_long_word].
    unfold Textwrap.drop_trailing_blank. cbn [rev app].
    rewrite (is_blank_all_SPACE _ Hsp). destruct fuel; reflexivity.
  - apply Nat.leb_gt in Hfit.
    unfold Textwrap.break_long_word, Textwrap.handle_long_word, Textwrap.long_word_end.
    assert ((width <? length chunk) = true) as -> by (apply Nat.ltb_lt; assumption).
    cbn [concat length].
    assert ((width <? 1) = false) as -> by (apply Nat.ltb_ge; assumption).
    rewrite Nat.sub_0_r.
    assert ((width <? length chunk) = true) as -> by (apply Nat.ltb_lt; assumption).
    unfold Py.rfind. rewrite (rfind_all_SPACE _ _ _ Hsp).
    cbn [app]. unfold Textwrap.drop_trailing_blank. cbn [rev app].
    rewrite is_blank_all_SPACE by (apply Forall_take; assumption).
    cbn [rev Textwrap.add_line].
    apply IH; [apply Forall_drop; assumption |].
    rewrite length_drop. lia.
Qed.

Lemma wrap_whitespace_only line width :
  1 <= width -> whitespace_only line = true -> Textwrap.wrap line width = Ret [].
Proof.
  intros Hw Hline. unfold Textwrap.wrap, Textwrap.wrap_chunks.
  destruct (width <=? 0) eqn:H0; [apply Nat.leb_le in H0; lia |].
  pose proof (munge_whitespace_only line Hline) as Hsp.
  rewrite (split_all_SPACE _ Hsp).
  destruct (Textwrap.munge_whitespace line) as [| c s] eqn:Hm; [reflexivity |].
  apply wrap_loop_all_SPACE; [assumption | assumption |].
  simpl. rewrite app_nil_r. lia.
Qed.

(** Outside a code block a line of whitespace changes neither the flag nor
    the lines wrapped so far. *)
Lemma wrap_step_whitespace_only width acc line :
  1 <= width -> whitespace_only line = true ->
  wrap_step width (false, acc) line = Ret (false, acc).
Proof.
  intros Hw Hline. unfold wrap_step.
  pose proof (whitespace_only_not_fence line Hline) as Hfence.
  unfold is_fence in Hfence. rewrite Hfence.
  rewrite (wrap_whitespace_only line width Hw Hline), app_nil_r. reflexivity.
Qed.

(** ** Words *)

Lemma words_from_space cur a c b :
  Py.isspace c = true ->
  words_from cur (a ++ c :: b) = words_from cur a ++ words_from [] b.
Proof.
  intros Hc. revert cur. induction a as [| x a IH]; intros cur.
  - simpl. rewrite Hc. destruct cur; reflexivity.
  - simpl. destruct (Py.isspace x).
    + destruct cur; rewrite IH; reflexivity.
    + apply IH.
Qed.

Lemma words_from_spaces d y :
  Forall (fun c => Py.isspace c = true) d -> words_from [] (d ++ y) = words_from [] y.
Proof. induction 1 as [| c d Hc _ IH]; simpl; [reflexivity |]. rewrite Hc. assumption. Qed.

(** A gap parts the words before it from the words after it. *)
Lemma words_from_gap x d y :
  gap d -> words_from [] (x ++ d ++ y) = words_from [] x ++ words_from [] y.
Proof.
  intros [Hne Hd]. destruct d as [| c d]; [congruence |].
  inversion Hd as [| ? ? Hc Hd']; subst.
  change (x ++ (c :: d) ++ y) with (x ++ c :: (d ++ y)).
  rewrite (words_from_space _ _ _ _ Hc), (words_from_spaces _ _ Hd'). reflexivity.
Qed.

Lemma words_from_gap_r x d y :
  gap d -> words_from [] (x ++ d ++ y) = words_from [] x ++ words_from [] (d ++ y).
Proof.
  intros Hd. rewrite (words_from_gap _ _ _ Hd).
  destruct Hd as [_ Hd]. rewrite (words_from_spaces _ _ Hd). reflexivity.
Qed.

Lemma words_from_join_NL (ls : list str) :
  words_from [] (Py.join [Py.NL] ls) = concat (map (words_from []) ls).
Proof.
  induction ls as [| l ls IH]; [reflexivity |].
  destruct ls as [| l' ls].
  - simpl. rewrite app_nil_r. reflexivity.
  - change (Py.join [Py.NL] (l :: l' :: ls)) with (l ++ Py.NL :: Py.join [Py.NL] (l' :: ls)).
    rewrite words_from_space by reflexivity. rewrite IH. reflexivity.
Qed.

Lemma join_split_NL s : Py.join [Py.NL] (Py.split Py.NL s) = s.
Proof.
  induction s as [| c s IH]; [reflexivity |].
  simpl. destruct (split_cons Py.NL s) as [l [ls Hs]]. rewrite Hs in *.
  destruct (decide (c = Py.NL)) as [-> | Hc].
  - change (Py.join [Py.NL] ([] :: l :: ls)) with (Py.NL :: Py.join [Py.NL] (l :: ls)).
    congruence.
  - destruct ls; simpl in *; congruence.
Qed.

Lemma words_from_unbreak cur s : words_from cur (unbreak s) = words_from cur s.
Proof.
  revert cur. induction s as [| c s IH]; intros cur; [reflexivity |].
  simpl. destruct (bool_decide (c = Py.NL)) eqn:Hc.
  - apply bool_decide_eq_true_1 in Hc. subst c.
    change (Py.isspace Py.SPACE) with true. change (Py.isspace Py.NL) with true.
    cbv iota. destruct cur; rewrite IH; reflexivity.
  - destruct (Py.isspace c); [destruct cur |]; rewrite IH; reflexivity.
Qed.

Lemma collapse_unbreak s : collapse (unbreak s) = collapse s.
Proof. unfold collapse. rewrite words_from_unbreak. reflexivity. Qed.

Lemma words_from_munge cur col s :
  words_from cur (map (fun c => if Textwrap.whitespace c then Py.SPACE else c)
                      (Py.expandtabs_from 8 col s))
  = words_from cur s.
Proof.
  revert cur col. induction s as [| c s IH]; intros cur col; [reflexivity |].
  cbn [Py.expandtabs_from]. destruct (decide (c = Py.TAB)) as [-> | Hc].
  - assert (exists k, 8 - col mod 8 = S k) as [k ->].
    { pose proof (Nat.mod_upper_bound col 8 ltac:(lia)). exists (7 - col mod 8). lia. }
    cbn [repeat app map]. change (Textwrap.whitespace Py.SPACE) with true. cbv iota.
    rewrite map_app.
    assert (map (fun c => if Textwrap.whitespace c then Py.SPACE else c) (repeat Py.SPACE k)
            = repeat Py.SPACE k) as ->.
    { induction k; simpl; congruence. }
    cbn [words_from]. change (Py.isspace Py.SPACE) with true.
    change (Py.isspace Py.TAB) with true. cbv iota.
    assert (words_from [] (repeat Py.SPACE k ++ map (fun c => if Textwrap.whitespace c then Py.SPACE else c)
                                 (Py.expandtabs_from 8 (col + S k) s))
            = words_from [] s) as ->.
    { rewrite words_from_spaces; [apply IH |].
      apply Forall_forall. intros x Hx. apply list_elem_of_In, repeat_spec in Hx.
      subst x. reflexivity. }
    reflexivity.
  - cbn [map words_from]. destruct (Textwrap.whitespace c) eqn:Hw.
    + rewrite (whitespace_isspace _ Hw). change (Py.isspace Py.SPACE) with true. cbv iota.
      destruct cur; rewrite IH; reflexivity.
    + destruct (Py.isspace c); [destruct cur |]; rewrite IH; reflexivity.
Qed.

Lemma words_munge line :
  words_from [] (Textwrap.munge_whitespace line) = words_from [] line.
Proof. apply words_from_munge. Qed.

(** ** Blank chunks *)

Lemma lstrip_nil_Forall s : Py.lstrip s = [] -> Forall (fun c => Py.isspace c = true) s.
Proof.
  induction s as [| c s IH]; simpl; [constructor |].
  destruct (Py.isspace c) eqn:Hc; [| discriminate].
  intros H. constructor; auto.
Qed.

Lemma lstrip_Forall s :
  Forall (fun c => Py.isspace c = true) (Py.lstrip s) -> Forall (fun c => Py.isspace c = true) s.
Proof.
  induction s as [| c s IH]; simpl; [constructor |].
  destruct (Py.isspace c) eqn:Hc; [| auto].
  intros H. constructor; auto.
Qed.

Lemma is_blank_Forall chunk :
  Textwrap.is_blank chunk = true -> Forall (fun c => Py.isspace c = true) chunk.
Proof.
  unfold Textwrap.is_blank, Py.strip, Py.rstrip. intros H.
  destruct (rev (Py.lstrip (rev (Py.lstrip chunk)))) eqn:Hr; [| discriminate].
  apply (f_equal (@rev ascii)) in Hr. rewrite rev_involutive in Hr. simpl in Hr.
  apply lstrip_nil_Forall in Hr.
  apply lstrip_Forall. apply Forall_rev in Hr. rewrite rev_involutive in Hr. assumption.
Qed.

Lemma Forall_is_blank chunk :
  Forall (fun c => Py.isspace c = true) chunk -> Textwrap.is_blank chunk = true.
Proof. intros H. unfold Textwrap.is_blank. rewrite (strip_spaces _ H). reflexivity. Qed.

(** ** Chunks that line breaks part without harm *)

Lemma parted_nonempty width chunks : parted width chunks -> Forall (fun c => c <> []) chunks.
Proof.
  induction chunks as [| c rest IH]; [constructor |].
  intros [[[Hne _] | [Hne _]] Hrest]; constructor; auto.
Qed.

Lemma parted_app_r width a b : parted width (a ++ b) -> parted width b.
Proof. induction a as [| c a IH]; [auto |]. intros [_ H]. auto. Qed.

Lemma parted_boundary width r d c cs : parted width (r ++ d :: c :: cs) -> gap d \/ gap c.
Proof.
  intros H. apply parted_app_r in H. destruct H as [[Hd | [_ [_ Hc]]] _]; auto.
Qed.

Lemma parted_long width c cs : parted width (c :: cs) -> width < length c -> gap c.
Proof. intros [[Hc | [_ [Hlen _]]] _] Hlong; [assumption | lia]. Qed.

Lemma drop_trailing_blank_snoc cur_line chunk :
  Textwrap.is_blank chunk = true ->
  Textwrap.drop_trailing_blank (cur_line ++ [chunk]) = cur_line.
Proof.
  intros H. unfold Textwrap.drop_trailing_blank.
  rewrite rev_app_distr. simpl. rewrite H. apply rev_involutive.
Qed.

(** The chunks kept on a line, then the chunks left: their words are the
    words of the chunks before the line was made. *)
Lemma drop_trailing_blank_words width cur_line rest :
  parted width (cur_line ++ rest) ->
  words_from [] (concat (Textwrap.drop_trailing_blank cur_line)) ++ words_from [] (concat rest)
  = words_from [] (concat (cur_line ++ rest)).
Proof.
  intros Hp. unfold Textwrap.drop_trailing_blank.
  destruct (rev cur_line) as [| d r] eqn:Hrev.
  - apply (f_equal (@rev str)) in Hrev. rewrite rev_involutive in Hrev. subst. reflexivity.
  - assert (cur_line = rev r ++ [d]) as Hcur.
    { rewrite <- (rev_involutive cur_line), Hrev. reflexivity. }
    destruct (Textwrap.is_blank d) eqn:Hd.
    + subst cur_line. rewrite <- app_assoc, !concat_app. simpl. rewrite app_nil_r.
      rewrite words_from_gap; [reflexivity |]. split.
      * pose proof (parted_nonempty _ _ Hp) as Hne.
        rewrite <- app_assoc in Hne. apply Forall_app in Hne as [_ Hne].
        inversion Hne; assumption.
      * apply is_blank_Forall. assumption.
    + destruct rest as [| c cs].
      * rewrite app_nil_r. simpl. rewrite app_nil_r. reflexivity.
      * rewrite concat_app. cbn [concat].
        rewrite words_from_gap_r; [reflexivity |].
        subst cur_line. rewrite <- app_assoc in Hp. simpl in Hp.
        destruct (parted_boundary _ _ _ _ _ Hp) as [Hg | Hg]; [| assumption].
        destruct Hg as [_ Hg]. apply Forall_is_blank in Hg. congruence.
Qed.

Lemma add_line_words lines cur_line :
  concat (map (words_from []) (Textwrap.add_line lines cur_line))
  = concat (map (words_from []) lines) ++ words_from [] (concat cur_line).
Proof.
  unfold Textwrap.add_line. destruct cur_line as [| c cs].
  - simpl. rewrite app_nil_r. reflexivity.
  - rewrite map_app, concat_app. simpl. rewrite app_nil_r. reflexivity.
Qed.

Lemma drop_leading_blank_words chunks lines :
  words_from [] (concat (Textwrap.drop_leading_blank chunks lines))
  = words_from [] (concat chunks).
Proof.
  unfold Textwrap.drop_leading_blank.
  destruct chunks as [| c cs]; [reflexivity |].
  destruct lines; [reflexivity |].
  destruct (Textwrap.is_blank c) eqn:Hc; [| reflexivity].
  simpl. rewrite words_from_spaces; [reflexivity | apply is_blank_Forall; assumption].
Qed.

Lemma drop_leading_blank_parted width chunks lines :
  parted width chunks -> parted width (Textwrap.drop_leading_blank chunks lines).
Proof.
  unfold Textwrap.drop_leading_blank. intros Hp.
  destruct chunks as [| c cs]; [assumption |].
  destruct lines; [assumption |].
  destruct (Textwrap.is_blank c); [apply Hp | assumption].
Qed.

(** A pass of the loop over parted chunks keeps the words. *)
Lemma wrap_line_words width chunks lines :
  1 <= width ->
  parted width chunks ->
  parted width (Textwrap.wrap_line width chunks lines).1
  /\ concat (map (words_from []) (Textwrap.wrap_line width chunks lines).2)
       ++ words_from [] (concat (Textwrap.wrap_line width chunks lines).1)
     = concat (map (words_from []) lines) ++ words_from [] (concat chunks).
Proof.
  intros Hw Hp. unfold Textwrap.wrap_line.
  rewrite <- (drop_leading_blank_words chunks lines).
  apply (drop_leading_blank_parted width chunks lines) in Hp.
  pose proof (take_fitting_app width 0 (Textwrap.drop_leading_blank chunks lines)) as Hfit.
  destruct (Textwrap.take_fitting width 0 _) as [cur_line chunks2].
  cbn [fst snd] in Hfit. rewrite <- Hfit in *.
  unfold Textwrap.break_long_word.
  destruct chunks2 as [| c cs].
  - cbn [fst snd]. split; [exact I |].
    rewrite add_line_words, <- app_assoc.
    rewrite (drop_trailing_blank_words width cur_line [] Hp). reflexivity.
  - destruct (width <? length c) eqn:Hlong.
    + apply Nat.ltb_lt in Hlong.
      pose proof (parted_app_r _ _ _ Hp) as Hp2.
      pose proof (parted_long _ _ _ Hp2 Hlong) as Hgap.
      unfold Textwrap.handle_long_word.
      set (space_left := if width <? 1 then 1 else width - length (concat cur_line)).
      pose proof (long_word_end_le c space_left) as He.
      assert (space_left <= width) as Hsl.
      { subst space_left. destruct (width <? 1) eqn:H1; [apply Nat.ltb_lt in H1; lia | lia]. }
      set (e := Textwrap.long_word_end c space_left) in *.
      cbn [fst snd].
      destruct Hgap as [Hne Hsp].
      rewrite drop_trailing_blank_snoc
        by (apply Forall_is_blank, Forall_take; assumption).
      split.
      * split; [| apply Hp2].
        left. split; [| apply Forall_drop; assumption].
        intros Hnil. apply (f_equal (@length ascii)) in Hnil.
        rewrite length_drop in Hnil. simpl in Hnil. lia.
      * rewrite add_line_words, <- app_assoc. f_equal.
        cbn [concat]. rewrite (words_from_spaces (drop e c)) by (apply Forall_drop; assumption).
        rewrite concat_app. cbn [concat].
        rewrite words_from_gap by (split; assumption). reflexivity.
    + cbn [fst snd]. split; [apply (parted_app_r _ _ _ Hp) |].
      rewrite add_line_words, <- app_assoc.
      rewrite (drop_trailing_blank_words width cur_line (c :: cs) Hp). reflexivity.
Qed.

Lemma wrap_loop_words width fuel chunks lines :
  1 <= width ->
  parted width chunks ->
  chunks_size chunks <= fuel ->
  exists ls, Textwrap.wrap_loop fuel width chunks lines = Ret ls
             /\ concat (map (words_from []) ls)
                = concat (map (words_from []) lines) ++ words_from [] (concat chunks).
Proof.
  intros Hw. revert chunks lines.
  induction fuel as [| fuel IH]; intros chunks lines Hp Hsize.
  - destruct chunks as [| c cs].
    + exists lines. simpl. rewrite app_nil_r. auto.
    + unfold chunks_size in Hsize. simpl in Hsize. lia.
  - destruct chunks as [| c cs].
    + exists lines. simpl. rewrite app_nil_r. auto.
    + cbn [Textwrap.wrap_loop].
      pose proof (wrap_line_size width c cs lines Hw) as Hlt.
      destruct (wrap_line_words width (c :: cs) lines Hw Hp) as [Hp' Hwords].
      destruct (Textwrap.wrap_line width (c :: cs) lines) as [chunks' lines'].
      cbn [fst snd] in *.
      destruct (IH chunks' lines' Hp') as [ls [Hrun Hls]]; [lia |].
      exists ls. split; [assumption |]. congruence.
Qed.

(** ** The chunks of a line without hyphens and long words *)

Lemma count_while_take p s : Forall (fun c => p c = true) (take (Py.count_while p s) s).
Proof.
  induction s as [| c s IH]; simpl; [constructor |].
  destruct (p c) eqn:Hc; simpl; [constructor; assumption | constructor].
Qed.

Lemma count_while_drop p s :
  match drop (Py.count_while p s) s with
  | c :: _ => p c = false
  | [] => True
  end.
Proof.
  induction s as [| c s IH]; simpl; [exact I |].
  destruct (p c) eqn:Hc; simpl; assumption.
Qed.

Lemma runs_fit_spaces width a b :
  Forall (fun c => Textwrap.whitespace c = true) a ->
  runs_fit width 0 (a ++ b) = runs_fit width 0 b.
Proof. induction 1 as [| c a Hc _ IH]; simpl; [reflexivity |]. rewrite Hc. assumption. Qed.

Lemma runs_fit_reset width cur s :
  match s with c :: _ => Textwrap.whitespace c = true | [] => True end ->
  runs_fit width cur s = runs_fit width 0 s.
Proof. destruct s as [| c s]; [reflexivity |]. simpl. intros ->. reflexivity. Qed.

Lemma runs_fit_run width cur a b :
  Forall (fun c => negb (Textwrap.whitespace c) = true) a ->
  runs_fit width cur (a ++ b) = true ->
  (a = [] \/ cur + length a <= width) /\ runs_fit width (cur + length a) b = true.
Proof.
  intros Ha. revert cur. induction Ha as [| c a Hc _ IH]; intros cur H.
  - simpl. rewrite Nat.add_0_r. auto.
  - cbn [app runs_fit] in H. apply negb_true_iff in Hc. rewrite Hc in H.
    apply andb_true_iff in H as [Hfit H]. apply Nat.leb_le in Hfit.
    destruct (IH (S cur) H) as [Hlen Hb]. simpl.
    replace (cur + S (length a)) with (S cur + length a) by lia.
    split; [| assumption]. right. destruct Hlen as [-> | Hlen]; simpl; lia.
Qed.

Lemma emdash_ahead_plain c rest :
  Textwrap.is_hyphen c = false -> Textwrap.emdash_ahead (c :: rest) = None.
Proof. intros Hc. unfold Textwrap.emdash_ahead. simpl. rewrite Hc. reflexivity. Qed.

(** Without hyphens a word ends where the whitespace begins. *)
Lemma word_end_plain before rest :
  Forall (fun c => Textwrap.is_hyphen c = false) rest ->
  Textwrap.word_end before rest
  = Py.count_while (fun c => negb (Textwrap.whitespace c)) rest.
Proof.
  intros H. revert before. induction H as [| c rest Hc _ IH]; intros before; [reflexivity |].
  cbn [Textwrap.word_end Py.count_while]. rewrite Hc. cbn [andb].
  destruct (Textwrap.whitespace c); [reflexivity |].
  rewrite (emdash_ahead_plain _ _ Hc). cbn [negb].
  rewrite andb_false_r. rewrite IH. reflexivity.
Qed.

Lemma chunk_len_plain before c rest :
  Forall (fun c => Textwrap.is_hyphen c = false) (c :: rest) ->
  Textwrap.chunk_len before (c :: rest)
  = if Textwrap.whitespace c
    then Py.count_while Textwrap.whitespace (c :: rest)
    else Py.count_while (fun c => negb (Textwrap.whitespace c)) (c :: rest).
Proof.
  intros H. inversion H as [| ? ? Hc Hrest]; subst.
  unfold Textwrap.chunk_len.
  destruct (Textwrap.whitespace c) eqn:Hw; [reflexivity |].
  rewrite (emdash_ahead_plain _ _ Hc), (word_end_plain _ _ Hrest).
  simpl. rewrite Hw. reflexivity.
Qed.

Lemma split_from_parted width fuel before rest :
  Forall (fun c => Textwrap.is_hyphen c = false) rest ->
  runs_fit width 0 rest = true ->
  length rest <= fuel ->
  parted width (Textwrap.split_from fuel before rest)
  /\ match rest with
     | c :: _ =>
         Textwrap.whitespace c = true ->
         match Textwrap.split_from fuel before rest with
         | d :: _ => gap d
         | [] => False
         end
     | [] => True
     end.
Proof.
  revert before rest. induction fuel as [| fuel IH]; intros before rest Hh Hfit Hlen.
  - destruct rest; [simpl; auto | simpl in Hlen; lia].
  - destruct rest as [| c rest]; [simpl; auto |].
    cbn [Textwrap.split_from].
    rewrite (chunk_len_plain before c rest Hh).
    pose proof (chunk_len_pos before c rest) as Hpos.
    rewrite (chunk_len_plain before c rest Hh) in Hpos.
    destruct (Textwrap.whitespace c) eqn:Hw.
    + set (n := Py.count_while Textwrap.whitespace (c :: rest)) in *.
      pose proof (count_while_take Textwrap.whitespace (c :: rest)) as Htake.
      fold n in Htake.
      assert (gap (take n (c :: rest))) as Hgap.
      { split.
        - destruct n; [lia | discriminate].
        - eapply Forall_impl; [exact Htake | apply whitespace_isspace]. }
      destruct (IH (rev (take n (c :: rest)) ++ before) (drop n (c :: rest))) as [Hp _].
      * apply Forall_drop. assumption.
      * rewrite <- (take_drop n (c :: rest)), runs_fit_spaces in Hfit; assumption.
      * rewrite length_drop. simpl in *. lia.
      * split; [| auto]. split; [left; assumption | assumption].
    + set (n := Py.count_while (fun c => negb (Textwrap.whitespace c)) (c :: rest)) in *.
      pose proof (count_while_take (fun c => negb (Textwrap.whitespace c)) (c :: rest)) as Htake.
      pose proof (count_while_drop (fun c => negb (Textwrap.whitespace c)) (c :: rest)) as Hdrop.
      fold n in Htake, Hdrop.
      rewrite <- (take_drop n (c :: rest)) in Hfit.
      destruct (runs_fit_run width 0 _ _ Htake Hfit) as [Hshort Hrem].
      assert (take n (c :: rest) <> []) as Hne by (destruct n; [lia | discriminate]).
      assert (match drop n (c :: rest) with
              | x :: _ => Textwrap.whitespace x = true
              | [] => True
              end) as Hhead.
      { destruct (drop n (c :: rest)); [exact I |]. apply negb_false_iff. assumption. }
      rewrite (runs_fit_reset _ _ _ Hhead) in Hrem.
      destruct (IH (rev (take n (c :: rest)) ++ before) (drop n (c :: rest))) as [Hp Hfirst].
      * apply Forall_drop. assumption.
      * assumption.
      * rewrite length_drop. simpl in *. lia.
      * split; [| discriminate]. split; [| assumption].
        right. split; [assumption |]. split; [destruct Hshort; [contradiction | lia] |].
        destruct (drop n (c :: rest)) as [| x rem].
        -- rewrite split_from_nil. exact I.
        -- specialize (Hfirst Hhead).
           destruct (Textwrap.split_from fuel _ (x :: rem)); [contradiction | assumption].
Qed.

Lemma munge_hyphen_free_from col line :
  forallb (fun c => negb (Textwrap.is_hyphen c)) line = true ->
  Forall (fun c => Textwrap.is_hyphen c = false)
         (map (fun c => if Textwrap.whitespace c then Py.SPACE else c)
              (Py.expandtabs_from 8 col line)).
Proof.
  revert col. induction line as [| c line IH]; intros col H; [constructor |].
  simpl in H. apply andb_true_iff in H as [Hc H]. apply negb_true_iff in Hc.
  cbn [Py.expandtabs_from]. destruct (decide (c = Py.TAB)).
  - rewrite map_app. apply Forall_app. split; [| apply IH; assumption].
    apply Forall_forall. intros x Hx. apply list_elem_of_In, in_map_iff in Hx.
    destruct Hx as [y [<- Hy]]. apply repeat_spec in Hy. subst y. reflexivity.
  - cbn [map]. constructor; [| apply IH; assumption].
    destruct (Textwrap.whitespace c); [reflexivity | assumption].
Qed.

Lemma munge_hyphen_free line :
  forallb (fun c => negb (Textwrap.is_hyphen c)) line = true ->
  Forall (fun c => Textwrap.is_hyphen c = false) (Textwrap.munge_whitespace line).
Proof. apply munge_hyphen_free_from. Qed.

Lemma munge_runs_fit_from width cur col line :
  runs_fit width cur line = true ->
  runs_fit width cur (map (fun c => if Textwrap.whitespace c then Py.SPACE else c)
                          (Py.expandtabs_from 8 col line)) = true.
Proof.
  revert cur col. induction line as [| c line IH]; intros cur col H; [reflexivity |].
  cbn [Py.expandtabs_from]. destruct (decide (c = Py.TAB)) as [-> | Hc].
  - assert (exists k, 8 - col mod 8 = S k) as [k ->].
    { pose proof (Nat.mod_upper_bound col 8 ltac:(lia)). exists (7 - col mod 8). lia. }
    cbn [repeat app map runs_fit]. change (Textwrap.whitespace Py.SPACE) with true. cbv iota.
    rewrite map_app, runs_fit_spaces.
    + apply IH. exact H.
    + apply Forall_forall. intros x Hx. apply list_elem_of_In, in_map_iff in Hx.
      destruct Hx as [y [<- Hy]]. apply repeat_spec in Hy. subst y. reflexivity.
  - cbn [map runs_fit] in *. destruct (Textwrap.whitespace c) eqn:Hw.
    + change (Textwrap.whitespace Py.SPACE) with true. cbv iota. apply IH. assumption.
    + rewrite Hw. apply andb_true_iff in H as [H1 H2]. rewrite H1. apply IH. assumption.
Qed.

Lemma munge_runs_fit width line :
  runs_fit width 0 line = true -> runs_fit width 0 (Textwrap.munge_whitespace line) = true.
Proof. apply munge_runs_fit_from. Qed.

(** [textwrap.wrap] on a line without hyphens and long words: the lines
    hold the words of the line. *)
Lemma wrap_plain_line line width :
  1 <= width ->
  plain_line width line = true ->
  exists ls, Textwrap.wrap line width = Ret ls
             /\ concat (map (words_from []) ls) = words_from [] line.
Proof.
  intros Hw Hplain. apply andb_true_iff in Hplain as [Hh Hfit].
  unfold Textwrap.wrap, Textwrap.wrap_chunks.
  destruct (width <=? 0) eqn:H0; [apply Nat.leb_le in H0; lia |].
  destruct (split_from_parted width (length (Textwrap.munge_whitespace line)) []
              (Textwrap.munge_whitespace line)
              (munge_hyphen_free line Hh) (munge_runs_fit width line Hfit) ltac:(lia))
    as [Hp _].
  destruct (wrap_loop_words width
              (length (concat (Textwrap.split (Textwrap.munge_whitespace line)))
               + length (Textwrap.split (Textwrap.munge_whitespace line)))
              (Textwrap.split (Textwrap.munge_whitespace line)) [] Hw Hp)
    as [ls [Hrun Hls]]; [reflexivity |].
  exists ls. split; [assumption |].
  rewrite Hls, split_concat. apply words_munge.
Qed.

Lemma wrap_lines_words width lines st :
  1 <= width ->
  forallb (plain_line width) (prose_lines st.1 lines) = true ->
  exists st', wrap_lines width st lines = Ret st'
              /\ concat (map (words_from []) st'.2)
                 = concat (map (words_from []) st.2) ++ concat (map (words_from []) lines).
Proof.
  intros Hw. revert st. induction lines as [| line lines IH]; intros [flag out] Hplain.
  - exists (flag, out). simpl. rewrite app_nil_r. auto.
  - cbn [wrap_lines prose_lines fst] in *. unfold wrap_step.
    unfold is_fence in Hplain.
    destruct (Py.startswith (lit "```") (Py.strip line)).
    + destruct (IH (negb flag, out ++ [line]) Hplain) as [st' [-> Hst]].
      exists st'. split; [reflexivity |]. rewrite Hst. cbn [snd map concat].
      rewrite map_app, concat_app. simpl. rewrite app_nil_r, <- app_assoc. reflexivity.
    + destruct flag.
      * destruct (IH (true, out ++ [line]) Hplain) as [st' [-> Hst]].
        exists st'. split; [reflexivity |]. rewrite Hst. cbn [snd map concat].
        rewrite map_app, concat_app. simpl. rewrite app_nil_r, <- app_assoc. reflexivity.
      * cbn [forallb] in Hplain. apply andb_true_iff in Hplain as [Hline Hplain].
        destruct (wrap_plain_line line width Hw Hline) as [ls [-> Hls]].
        destruct (IH (false, out ++ ls) Hplain) as [st' [-> Hst]].
        exists st'. split; [reflexivity |]. rewrite Hst. cbn [snd map concat].
        rewrite map_app, concat_app, Hls, <- app_assoc. reflexivity.
Qed.

(** The round trip of a text whose lines outside the code blocks have no
    hyphen and no word longer than the width. *)
Lemma wrap_text_round_trip text width :
  1 <= width ->
  forallb (plain_line width) (prose_lines false (Py.split Py.NL text)) = true ->
  round_trip unbreak text width.
Proof.
  intros Hw Hplain. unfold round_trip, wrap_text.
  destruct (wrap_lines_words width (Py.split Py.NL text) (false, []) Hw Hplain)
    as [[flag out] [-> Hout]].
  eexists. split; [reflexivity |].
  rewrite collapse_unbreak. unfold collapse. f_equal.
  rewrite words_from_join_NL. cbn [snd map concat app] in Hout. rewrite Hout.
  rewrite <- words_from_join_NL, join_split_NL. reflexivity.
Qed.

(** ** The formatter: what wrapping keeps *)

Lemma wrap_text_long_words : wrap_text long_words 72 = Ret long_words_wrapped.
Proof. vm_compute. reflexivity. Qed.

(** C3, as stated, fails: a word of 73 letters is cut after its 72nd
    letter, so the wrapped text of [long_words] does not read as the
    text does, whether its line breaks are turned back into spaces or
    deleted. *)
Lemma wrap_text_round_trip_fails :
  ~ round_trip unbreak long_words 72 /\ ~ round_trip delete_breaks long_words 72.
Proof.
  split; intros [wrapped [Hwrap Heq]];
    rewrite wrap_text_long_words in Hwrap; injection Hwrap as <-;
    refine (bool_decide_eq_false_1 _ _ Heq); vm_compute; reflexivity.
Qed.

(** A hyphenated word is cut after its hyphen when the line is full
    there: the hyphen and the rest of the word come apart. *)
Lemma wrap_text_hyphen_break :
  wrap_text (lit "aaaa bbbb-cccc") 10 = Ret (lit "aaaa bbbb-" ++ [Py.NL] ++ lit "cccc")
  /\ ~ round_trip unbreak (lit "aaaa bbbb-cccc") 10.
Proof.
  split; [vm_compute; reflexivity |].
  intros [wrapped [Hwrap Heq]].
  assert (wrap_text (lit "aaaa bbbb-cccc") 10 = Ret (lit "aaaa bbbb-" ++ [Py.NL] ++ lit "cccc"))
    as Hrun by (vm_compute; reflexivity).
  rewrite Hrun in Hwrap. injection Hwrap as <-.
  refine (bool_decide_eq_false_1 _ _ Heq). vm_compute. reflexivity.
Qed.

(** C3, amended: for every text and every positive width [wrap_text]
    returns, and wrapping changes whitespace only: the characters of
    the wrapped text that are not whitespace are those of the text, in the
    same order.  When no line outside the fenced code blocks holds a hyphen
    or a word longer than the width, the round trip holds: the wrapped
    text, with its line breaks turned back into spaces, and the text are
    the same once their runs of whitespace are collapsed to single spaces.
    A fenced code block that opens outside any block comes out line by
    line as it went in, fences included, between the lines wrapped before
    it and those wrapped after it. *)
Theorem wrap_text_changes_whitespace_only text width :
  0 < width ->
  (exists wrapped, wrap_text text width = Ret wrapped
                   /\ non_space wrapped = non_space text)
  /\ (forallb (plain_line width) (prose_lines false (Py.split Py.NL text)) = true ->
      round_trip unbreak text width)
  /\ (forall before open body close after out_before,
        text = Py.join [Py.NL] (before ++ [open] ++ body ++ [close] ++ after) ->
        Forall (fun l => Py.NL ∉ l) (before ++ [open] ++ body ++ [close] ++ after) ->
        wrap_lines width (false, []) before = Ret (false, out_before) ->
        is_fence open = true -> is_fence close = true ->
        Forall (fun l => is_fence l = false) body ->
        exists out_after,
          wrap_text text width
          = Ret (Py.join [Py.NL] (out_before ++ [open] ++ body ++ [close] ++ out_after))).
Proof.
  intros Hw. split; [apply wrap_text_non_space; lia |].
  split; [apply wrap_text_round_trip; lia |].
  intros before open body close after out_before -> Hfree Hbefore Hopen Hclose Hbody.
  unfold wrap_text. rewrite split_join_NL; [| destruct before; discriminate | assumption].
  rewrite wrap_lines_app, Hbefore.
  rewrite !app_assoc, <- (app_assoc [open]), wrap_lines_app.
  rewrite (wrap_lines_fenced width out_before open body close Hopen Hclose Hbody).
  rewrite wrap_lines_acc.
  destruct (wrap_lines_non_space width after (false, []) ltac:(lia)) as [[flag out] [-> _]].
  exists out. rewrite <- !app_assoc. reflexivity.
Qed.

Lemma wrap_text_changes_whitespace_only_witness :
  (exists wrapped, wrap_text fenced_text 20 = Ret wrapped
                   /\ non_space wrapped = non_space fenced_text)
  /\ round_trip unbreak fenced_text 20
  /\ exists out_after,
       wrap_text fenced_text 20
       = Ret (Py.join [Py.NL]
                ([lit "This change fixes"; lit "the parser."]
                 ++ [lit "```"] ++ [lit "let  x   =   parse  input  in  x"] ++ [lit "```"]
                 ++ out_after)).
Proof.
  destruct (wrap_text_changes_whitespace_only fenced_text 20 ltac:(lia)) as [H1 [H2 H3]].
  split; [exact H1 |]. split; [apply H2; vm_compute; reflexivity |].
  apply (H3 [lit "This change fixes the parser."] (lit "```")
            [lit "let  x   =   parse  input  in  x"] (lit "```")
            [lit "See the  parser   notes."]).
  - vm_compute. reflexivity.
  - refine (bool_decide_unpack _ _). vm_compute. exact I.
  - vm_compute. reflexivity.
  - vm_compute. reflexivity.
  - vm_compute. reflexivity.
  - repeat constructor.
Defined.

(** ** The formatter: blank lines *)

(** C10, amended: a line that is empty or made of the whitespace of
    [string.whitespace] (space, tab, line feed, carriage return, vertical
    tab, form feed), outside a fenced code block, leaves nothing in the
    text that [wrap_text] returns: the result is the one that the other
    lines give without it. *)
Theorem wrap_text_omits_blank_line width before line after out_before :
  0 < width ->
  whitespace_only line = true ->
  Forall (fun l => Py.NL ∉ l) (before ++ line :: after) ->
  wrap_lines width (false, []) before = Ret (false, out_before) ->
  wrap_text (Py.join [Py.NL] (before ++ line :: after)) width
  = match wrap_lines width (false, []) (before ++ after) with
    | Ret (_, wrapped_lines) => Ret (Py.join [Py.NL] wrapped_lines)
    | Exc e => Exc e
    | OutOfFuel => OutOfFuel
    end.
Proof.
  intros Hw Hline Hfree Hbefore.
  unfold wrap_text. rewrite split_join_NL; [| destruct before; discriminate | assumption].
  rewrite !wrap_lines_app, Hbefore. cbn [wrap_lines].
  rewrite wrap_step_whitespace_only by (assumption || lia).
  reflexivity.
Qed.

Lemma wrap_text_omits_blank_line_witness :
  wrap_text (Py.join [Py.NL] ([lit "First paragraph."] ++ lit "  " :: [lit "Second paragraph."])) 72
  = Ret (Py.join [Py.NL] [lit "First paragraph."; lit "Second paragraph."]).
Proof.
  rewrite (wrap_text_omits_blank_line 72 [lit "First paragraph."] (lit "  ")
             [lit "Second paragraph."] [lit "First paragraph."]).
  - vm_compute. reflexivity.
  - lia.
  - reflexivity.
  - refine (bool_decide_unpack _ _). vm_compute. exact I.
  - vm_compute. reflexivity.
Defined.

(** C10, as stated, fails: the whitespace of [textwrap] is that of
    [string.whitespace], and a line that holds a space and the separator
    U+001C is a line of whitespace for [str.isspace] and [str.strip], is
    no fence and lies outside any code block; yet it is not omitted: the
    space stays as a line of its own between the two paragraphs.  A line of
    a no-break space and a space stays as well. *)
Lemma wrap_text_keeps_blank_line :
  Forall (fun c => Py.isspace c = true) [Py.SPACE; ascii_of_N 28]
  /\ Py.strip [Py.SPACE; ascii_of_N 28] = []
  /\ wrap_text (Py.join [Py.NL] [lit "First paragraph."; [Py.SPACE; ascii_of_N 28];
                                 lit "Second paragraph."]) 72
     = Ret (Py.join [Py.NL] [lit "First paragraph."; [Py.SPACE]; lit "Second paragraph."])
  /\ wrap_text (Py.join [Py.NL] [lit "First paragraph."; [Py.SPACE; ascii_of_N 28];
                                 lit "Second paragraph."]) 72
     <> wrap_text (Py.join [Py.NL] [lit "First paragraph."; lit "Second paragraph."]) 72
  /\ Py.strip [ascii_of_N 160; Py.SPACE] = []
  /\ wrap_text [ascii_of_N 160; Py.SPACE] 72 = Ret [ascii_of_N 160].
Proof.
  split; [repeat constructor |].
  split; [vm_compute; reflexivity |].
  split; [vm_compute; reflexivity |].
  split; [vm_compute; discriminate |].
  split; vm_compute; reflexivity.
Qed.

(** ** Worlds and events *)

Lemma add_events_nil w : add_events w [] = w.
Proof. destruct w. unfold add_events. simpl. rewrite app_nil_r. reflexivity. Qed.

Lemma add_events_app w a b : add_events (add_events w a) b = add_events w (a ++ b).
Proof. unfold add_events. simpl. rewrite app_assoc. reflexivity. Qed.

Lemma request_Ok {A} e (a : A) w : request e (Ok a) w = (add_events w [e], Ret a).
Proof. reflexivity. Qed.

Lemma request_Failed {A} e msg w :
  request (A := A) e (Failed msg) w = (add_events w [e], Exc (GithubException msg)).
Proof. reflexivity. Qed.

(** ** The identity resolver *)

(** C6: for a username that is a key of the user mapping, with an entry
    that holds a name and an e-mail address, [get_user_email] returns them
    as [name <email>] (a string as it is, any other value as [str] shows
    it) and leaves the world as it was: it sends no request to the platform
    (and prints nothing). *)
Theorem get_user_email_mapped E username items fields mapped_name mapped_email w :
  user_mapping E = JDict items ->
  assoc username items = Some (JDict fields) ->
  assoc (lit "name") fields = Some mapped_name ->
  assoc (lit "email") fields = Some mapped_email ->
  get_user_email E username w
  = (w, Ret (json_str mapped_name ++ lit " <" ++ json_str mapped_email ++ lit ">")).
Proof.
  intros Hmap Hentry Hname Hemail.
  unfold get_user_email, contains, getitem, bind, ret.
  rewrite Hmap, Hentry. rewrite bool_decide_eq_true_2 by eauto.
  rewrite Hname, Hemail. reflexivity.
Qed.

Lemma get_user_email_mapped_witness :
  get_user_email env_42 (lit "bob") initial_world
  = (initial_world, Ret (lit "Bob B <bob@x.com>")).
Proof.
  apply (get_user_email_mapped env_42 (lit "bob")
           [ (lit "bob", JDict [ (lit "name", JStr (lit "Bob B"));
                                 (lit "email", JStr (lit "bob@x.com")) ]) ]
           [ (lit "name", JStr (lit "Bob B")); (lit "email", JStr (lit "bob@x.com")) ]
           (JStr (lit "Bob B")) (JStr (lit "bob@x.com")) initial_world);
    vm_compute; reflexivity.
Defined.

(** A search or a lookup in a value of the mapping leaves the world as it
    is, and returns or raises an exception. *)
Lemma contains_run obj key w :
  exists r, contains obj key w = (w, r)
            /\ match r with
               | Ret _ => True
               | Exc e => is_Exception e = true
               | OutOfFuel => False
               end.
Proof. destruct obj; eexists; (split; [reflexivity |]); exact I || reflexivity. Qed.

Lemma getitem_run obj key w :
  exists r, getitem obj key w = (w, r)
            /\ match r with
               | Ret _ => True
               | Exc e => is_Exception e = true
               | OutOfFuel => False
               end.
Proof.
  destruct obj; try (eexists; (split; [reflexivity |]); exact I || reflexivity).
  unfold getitem. destruct (assoc key items);
    eexists; (split; [reflexivity |]); exact I || reflexivity.
Qed.

(** The request for the profile, for a username that the mapping does not
    hold. *)
Lemma get_user_email_unmapped E username w :
  contains (user_mapping E) username w = (w, Ret false) ->
  exists s w',
    get_user_email E username w = (w', Ret s)
    /\ match get_user E username with
       | Failed msg =>
           w' = add_events w
                  [GetUser username;
                   Print (lit "Error fetching email for user " ++ username ++ lit ": " ++ msg)]
           /\ s = username ++ lit " <" ++ username ++ lit "@users.noreply.github.com>"
       | Ok user =>
           let shown := match name user with
                        | Some (c :: n) => c :: n
                        | _ => username
                        end in
           w' = add_events w [GetUser username]
           /\ s = match email user with
                  | Some (c :: m) => shown ++ lit " <" ++ (c :: m) ++ lit ">"
                  | _ => shown ++ lit " (@" ++ username ++ lit ")"
                  end
       end.
Proof.
  intros Hnot. unfold get_user_email. unfold bind at 1. rewrite Hnot.
  unfold bind, try_except.
  destruct (get_user E username) as [user | msg].
  - rewrite request_Ok.
    destruct (email user) as [[| c m] |]; eexists; eexists; (split; [reflexivity |]);
      split; reflexivity.
  - rewrite request_Failed. cbn [is_Exception].
    eexists; eexists. split; [reflexivity |].
    split; [| reflexivity]. unfold print, emit. rewrite add_events_app. reflexivity.
Qed.

(** What [get_user_email] does, case by case, when the user mapping is
    as the script expects it. *)
Lemma get_user_email_cases E username w :
  well_mapped E username = true ->
  exists s w',
    get_user_email E username w = (w', Ret s)
    /\ match mapping_entry E username, get_user E username with
       | Some entry, _ =>
           w' = w
           /\ exists mapped_name mapped_email,
                entry_fields entry = Some (mapped_name, mapped_email)
                /\ s = json_str mapped_name ++ lit " <" ++ json_str mapped_email ++ lit ">"
       | None, Failed msg =>
           w' = add_events w
                  [GetUser username;
                   Print (lit "Error fetching email for user " ++ username ++ lit ": " ++ msg)]
           /\ s = username ++ lit " <" ++ username ++ lit "@users.noreply.github.com>"
       | None, Ok user =>
           let shown := match name user with
                        | Some (c :: n) => c :: n
                        | _ => username
                        end in
           w' = add_events w [GetUser username]
           /\ s = match email user with
                  | Some (c :: m) => shown ++ lit " <" ++ (c :: m) ++ lit ">"
                  | _ => shown ++ lit " (@" ++ username ++ lit ")"
                  end
       end.
Proof.
  unfold well_mapped, mapping_entry. intros Hwell.
  destruct (user_mapping E) as [| | | | | | items] eqn:Hmap; try discriminate.
  destruct (assoc username items) as [entry |] eqn:Hentry.
  - apply bool_decide_eq_true_1 in Hwell. destruct Hwell as [[mapped_name mapped_email] Hfields].
    pose proof Hfields as Hfields'. unfold entry_fields in Hfields.
    destruct entry as [| | | | | | fields]; try discriminate.
    destruct (assoc (lit "name") fields) as [n0 |] eqn:Hname; [| discriminate].
    destruct (assoc (lit "email") fields) as [e0 |] eqn:Hemail; [| discriminate].
    injection Hfields as <- <-.
    rewrite (get_user_email_mapped E username items fields n0 e0 w Hmap Hentry Hname Hemail).
    eexists; eexists. split; [reflexivity |]. split; [reflexivity |].
    exists n0, e0. split; [assumption | reflexivity].
  - apply get_user_email_unmapped. rewrite Hmap. unfold contains, ret.
    rewrite Hentry. rewrite bool_decide_eq_false_2; [reflexivity |].
    intros [x Hx]. discriminate.
Qed.

(** Whatever the user mapping holds, [get_user_email] sends at most the
    profile request, and returns or raises an exception. *)
Lemma get_user_email_any E username w :
  exists evs r,
    get_user_email E username w = (add_events w evs, r)
    /\ Forall (fun e => quiet e = true) evs
    /\ match r with
       | Ret _ => True
       | Exc e => is_Exception e = true
       | OutOfFuel => False
       end.
Proof.
  destruct (contains_run (user_mapping E) username w) as [r [Hrun Hr]].
  destruct r as [[|] | e |]; [| | | contradiction].
  - unfold get_user_email. unfold bind at 1. rewrite Hrun.
    repeat match goal with
           | |- context [bind (getitem ?obj ?key) _ ?w0] =>
               unfold bind at 1;
               let r := fresh "r" in
               let H := fresh "H" in
               let Hr := fresh "Hr" in
               destruct (getitem_run obj key w0) as [r [H Hr]]; rewrite H;
               let e := fresh "e" in
               destruct r as [? | e |];
               [| exists [], (Exc e); rewrite add_events_nil;
                  split; [reflexivity | split; [constructor | assumption]]
                | contradiction]
           end.
    eexists [], _. rewrite add_events_nil.
    split; [reflexivity |]. split; [constructor | exact I].
  - destruct (get_user_email_unmapped E username w Hrun) as [s [w' [-> Hcases]]].
    destruct (get_user E username) as [user | msg]; destruct Hcases as [-> _];
      eexists; eexists; (split; [reflexivity |]); split; try exact I; repeat constructor.
  - unfold get_user_email. unfold bind at 1. rewrite Hrun.
    exists [], (Exc e). rewrite add_events_nil. split; [reflexivity |].
    split; [constructor | assumption].
Qed.

Lemma get_user_email_run E username w :
  well_mapped E username = true ->
  exists evs, get_user_email E username w = (add_events w evs, Ret (identity_of E username))
              /\ Forall (fun e => quiet e = true) evs.
Proof.
  intros Hwell. unfold identity_of.
  destruct (get_user_email_cases E username initial_world Hwell) as [s0 [w0 [H0 Hs0]]].
  destruct (get_user_email_cases E username w Hwell) as [s [w' [H Hs]]].
  rewrite H0, H. cbn [snd].
  destruct (mapping_entry E username) as [entry |].
  - destruct Hs0 as [_ [n0 [e0 [Hf0 ->]]]], Hs as [-> [n1 [e1 [Hf1 ->]]]].
    rewrite Hf0 in Hf1. injection Hf1 as <- <-.
    exists []. rewrite add_events_nil. split; [reflexivity | constructor].
  - destruct (get_user E username) as [user | msg].
    + destruct Hs0 as [_ ->], Hs as [-> ->].
      eexists. split; [reflexivity |]. repeat constructor.
    + destruct Hs0 as [_ ->], Hs as [-> ->].
      eexists. split; [reflexivity |]. repeat constructor.
Qed.

(** C7, as stated, fails: the entry of bob in the user mapping holds no
    e-mail address, and the lookup of the address, which is made outside
    the [try] block, raises [KeyError] out of [get_user_email]: no string
    is returned. *)
Lemma get_user_email_raises :
  mapped env_no_email (lit "bob") = true
  /\ get_user_email env_no_email (lit "bob") initial_world
     = (initial_world, Exc (KeyError (lit "email")))
  /\ ~ (exists s w', get_user_email env_no_email (lit "bob") initial_world = (w', Ret s)).
Proof.
  split; [reflexivity |]. split; [vm_compute; reflexivity |].
  intros [s [w' H]]. vm_compute in H. discriminate.
Qed.

(** C7, amended: when the user mapping is as the script expects it (an
    object in which the entry of the username, if there is one, holds a
    name and an e-mail address), [get_user_email] returns a string for
    every answer of the platform, and never raises.  For a username of the
    mapping the string is [name <email>] of its entry, with no request.
    For a username outside the mapping: when the request fails, the
    failure is printed and the string is the no-reply address made from
    the username; when it answers with an e-mail address, the string is
    [name <email>]; when it answers without one, [name (@username)]; the
    name is the username when the profile shows no name. *)
Theorem get_user_email_returns E username w :
  well_mapped E username = true ->
  exists s w',
    get_user_email E username w = (w', Ret s)
    /\ match mapping_entry E username, get_user E username with
       | Some entry, _ =>
           w' = w
           /\ exists mapped_name mapped_email,
                entry_fields entry = Some (mapped_name, mapped_email)
                /\ s = json_str mapped_name ++ lit " <" ++ json_str mapped_email ++ lit ">"
       | None, Failed msg =>
           w' = add_events w
                  [GetUser username;
                   Print (lit "Error fetching email for user " ++ username ++ lit ": " ++ msg)]
           /\ s = username ++ lit " <" ++ username ++ lit "@users.noreply.github.com>"
       | None, Ok user =>
           let shown := match name user with
                        | Some (c :: n) => c :: n
                        | _ => username
                        end in
           w' = add_events w [GetUser username]
           /\ s = match email user with
                  | Some (c :: m) => shown ++ lit " <" ++ (c :: m) ++ lit ">"
                  | _ => shown ++ lit " (@" ++ username ++ lit ")"
                  end
       end.
Proof. apply get_user_email_cases. Qed.

Lemma get_user_email_returns_witness :
  get_user_email env_42 (lit "carol") initial_world
  = (add_events initial_world
       [GetUser (lit "carol");
        Print (lit "Error fetching email for user carol: 404 Not Found")],
     Ret (lit "carol <carol@users.noreply.github.com>")).
Proof.
  destruct (get_user_email_returns env_42 (lit "carol") initial_world eq_refl)
    as [s [w' [Hrun Hcases]]].
  rewrite Hrun. destruct Hcases as [-> ->]. reflexivity.
Defined.

(** X17: for a username that is a key of the user mapping with an entry
    that lacks the name or the e-mail address, or that is no object,
    [get_user_email] raises out of the function: [KeyError] for the first
    key that is missing, [TypeError] for an entry that is no object.  The
    world stays as it was: no request is sent and nothing is printed. *)
Theorem get_user_email_malformed_entry E username items entry w :
  user_mapping E = JDict items ->
  assoc username items = Some entry ->
  entry_fields entry = None ->
  exists e,
    get_user_email E username w = (w, Exc e)
    /\ is_Exception e = true
    /\ match entry with
       | JDict fields =>
           e = KeyError (match assoc (lit "name") fields with
                         | None => lit "name"
                         | Some _ => lit "email"
                         end)
       | _ => exists msg, e = TypeError msg
       end.
Proof.
  intros Hmap Hentry Hfields.
  unfold get_user_email, contains, getitem, bind, ret, raise.
  rewrite Hmap, Hentry. rewrite bool_decide_eq_true_2 by eauto.
  destruct entry as [| b | z | text | s0 | l | fields];
    try (eexists; split; [reflexivity |]; split; [reflexivity |]; eexists; reflexivity).
  unfold entry_fields in Hfields.
  destruct (assoc (lit "name") fields) as [n0 |].
  - destruct (assoc (lit "email") fields) as [e0 |]; [discriminate |].
    eexists. split; [reflexivity |]. split; reflexivity.
  - eexists. split; [reflexivity |]. split; reflexivity.
Qed.

Lemma get_user_email_malformed_entry_witness :
  exists e,
    get_user_email env_no_email (lit "bob") initial_world = (initial_world, Exc e)
    /\ is_Exception e = true
    /\ e = KeyError (lit "email").
Proof.
  apply (get_user_email_malformed_entry env_no_email (lit "bob")
           [ (lit "bob", JDict [ (lit "name", JStr (lit "Bob B")) ]) ]
           (JDict [ (lit "name", JStr (lit "Bob B")) ]) initial_world);
    reflexivity.
Defined.

(** ** The dictionary of the metadata *)

(** The lookups in the dictionary that [get_pr_info] returns. *)
Lemma pr_info_number number title author head head_sha body reviewed_by :
  pr_info_of number title author head head_sha body reviewed_by !! lit "number"
  = Some (VInt number).
Proof. vm_compute. reflexivity. Qed.

Lemma pr_info_title number title author head head_sha body reviewed_by :
  pr_info_of number title author head head_sha body reviewed_by !! lit "title"
  = Some (VStr title).
Proof. vm_compute. reflexivity. Qed.

Lemma pr_info_author number title author head head_sha body reviewed_by :
  pr_info_of number title author head head_sha body reviewed_by !! lit "author"
  = Some (VStr author).
Proof. vm_compute. reflexivity. Qed.

Lemma pr_info_head_sha number title author head head_sha body reviewed_by :
  pr_info_of number title author head head_sha body reviewed_by !! lit "head_sha"
  = Some (VStr head_sha).
Proof. vm_compute. reflexivity. Qed.

Lemma pr_info_body number title author head head_sha body reviewed_by :
  pr_info_of number title author head head_sha body reviewed_by !! lit "body"
  = Some (VStr body).
Proof. vm_compute. reflexivity. Qed.

Lemma pr_info_reviewed_by number title author head head_sha body reviewed_by :
  pr_info_of number title author head head_sha body reviewed_by !! lit "reviewed_by"
  = Some (VList reviewed_by).
Proof. vm_compute. reflexivity. Qed.

(** The dictionary has no key [pr_object]. *)
Lemma pr_info_pr_object number title author head head_sha body reviewed_by :
  pr_info_of number title author head head_sha body reviewed_by !! lit "pr_object" = None.
Proof. vm_compute. reflexivity. Qed.

(** ** The metadata fetcher *)

Lemma for_each_reviewers E reviews acc w :
  Forall (fun username => well_mapped E username = true) (approvers reviews) ->
  exists evs,
    for_each (add_reviewer E) acc reviews w
    = (add_events w evs,
       Ret (acc ++ map (fun r => identity_of E (login (review_user r)))
                       (List.filter approved reviews)))
    /\ Forall (fun e => quiet e = true) evs.
Proof.
  revert acc w. induction reviews as [| r reviews IH]; intros acc w Hwell.
  - exists []. simpl. unfold ret. rewrite add_events_nil, app_nil_r.
    split; [reflexivity | constructor].
  - unfold approvers in Hwell, IH. cbn [for_each List.filter] in *.
    unfold bind at 1. unfold add_reviewer at 1.
    change (bool_decide (review_state r = lit "APPROVED")) with (approved r) in *.
    destruct (approved r).
    + cbn [map] in Hwell. apply Forall_cons in Hwell as [Hr Hwell].
      unfold bind at 1.
      destruct (get_user_email_run E (login (review_user r)) w Hr) as [evs1 [-> Hq1]].
      unfold ret at 1.
      destruct (IH (acc ++ [identity_of E (login (review_user r))]) (add_events w evs1) Hwell)
        as [evs2 [-> Hq2]].
      exists (evs1 ++ evs2). rewrite add_events_app, <- app_assoc.
      split; [reflexivity |]. apply Forall_app. split; assumption.
    + unfold ret at 1. apply IH. assumption.
Qed.

(** Whatever the user mapping holds, the loop over the reviews sends
    profile requests only, and returns a list or raises an exception. *)
Lemma for_each_reviewers_any E reviews acc w :
  exists evs r,
    for_each (add_reviewer E) acc reviews w = (add_events w evs, r)
    /\ Forall (fun e => quiet e = true) evs
    /\ match r with
       | Ret _ => True
       | Exc e => is_Exception e = true
       | OutOfFuel => False
       end.
Proof.
  revert acc w. induction reviews as [| r reviews IH]; intros acc w.
  - exists [], (Ret acc). simpl. unfold ret. rewrite add_events_nil.
    split; [reflexivity |]. split; [constructor | exact I].
  - cbn [for_each]. unfold bind at 1. unfold add_reviewer at 1.
    destruct (bool_decide (review_state r = lit "APPROVED")).
    + unfold bind at 1.
      destruct (get_user_email_any E (login (review_user r)) w) as [evs1 [r1 [-> [Hq1 Hr1]]]].
      destruct r1 as [reviewer | e |]; [| | contradiction].
      * unfold ret at 1.
        destruct (IH (acc ++ [reviewer]) (add_events w evs1)) as [evs2 [r2 [-> [Hq2 Hr2]]]].
        exists (evs1 ++ evs2), r2. rewrite add_events_app.
        split; [reflexivity |]. split; [apply Forall_app; split; assumption | assumption].
      * exists evs1, (Exc e). split; [reflexivity |]. split; assumption.
    + unfold ret at 1. apply IH.
Qed.

(** What [get_pr_info] does to the world and what it returns. *)
Lemma get_pr_info_run E repo pr_number w :
  exists evs r,
    get_pr_info E repo pr_number w = (add_events w evs, r)
    /\ Forall (fun e => quiet e = true) evs
    /\ match r with
       | Ret pr_info =>
           exists number title author head head_sha body reviewed_by,
             pr_info = pr_info_of number title author head head_sha body reviewed_by
       | Exc e => is_Exception e = true
       | OutOfFuel => False
       end.
Proof.
  unfold get_pr_info, py_int.
  destruct (Py.int pr_number) as [n |].
  - unfold bind at 1, ret at 1. unfold bind at 1.
    destruct (get_pull repo n) as [pr | msg].
    + rewrite request_Ok. unfold bind at 1.
      destruct (pr_get_reviews pr) as [reviews | msg].
      * rewrite request_Ok. unfold bind at 1.
        destruct (for_each_reviewers_any E reviews [] (add_events (add_events w [GetPull n])
                                                         [GetReviews (pr_num pr)]))
          as [evs [r [-> [Hq Hr]]]].
        rewrite !add_events_app.
        destruct r as [reviewed_by | e |]; [| | contradiction].
        -- unfold ret. eexists; eexists. split; [reflexivity |]. split.
           { repeat (constructor; [reflexivity |]). assumption. }
           eauto 10.
        -- eexists; eexists. split; [reflexivity |]. split; [| assumption].
           repeat (constructor; [reflexivity |]). assumption.
      * rewrite request_Failed, add_events_app.
        eexists; eexists. split; [reflexivity |].
        split; [repeat constructor | reflexivity].
    + rewrite request_Failed.
      eexists; eexists. split; [reflexivity |].
      split; [repeat constructor | reflexivity].
  - unfold bind, raise.
    exists [], (Exc (ValueError (Py.int_error pr_number))).
    rewrite add_events_nil. split; [reflexivity |]. split; [constructor | reflexivity].
Qed.

(** C5: when the pull request and its reviews are fetched (and the user
    mapping is as the script expects it for the approvers),
    the [reviewed_by] list that [get_pr_info] returns holds, for each review
    whose state is [APPROVED] and in the order of the reviews, the string
    that [get_user_email] returns for the login of the reviewer: one entry
    for each approval, none for a review in another state, and two entries
    for a user who approved twice. *)
Theorem get_pr_info_reviewed_by E repo pr_number n pr reviews w :
  Py.int pr_number = Some n ->
  get_pull repo n = Ok pr ->
  pr_get_reviews pr = Ok reviews ->
  Forall (fun username => well_mapped E username = true) (approvers reviews) ->
  exists w' pr_info,
    get_pr_info E repo pr_number w = (w', Ret pr_info)
    /\ pr_info !! lit "reviewed_by"
       = Some (VList (map (fun r => identity_of E (login (review_user r)))
                          (List.filter approved reviews)))
    /\ forall username w0,
         well_mapped E username = true ->
         (get_user_email E username w0).2 = Ret (identity_of E username).
Proof.
  intros Hint Hpull Hreviews Hwell.
  unfold get_pr_info, py_int. rewrite Hint.
  unfold bind at 1, ret at 1. unfold bind at 1. rewrite Hpull, request_Ok.
  unfold bind at 1. rewrite Hreviews, request_Ok. unfold bind at 1.
  destruct (for_each_reviewers E reviews [] (add_events (add_events w [GetPull n])
                                               [GetReviews (pr_num pr)]) Hwell)
    as [evs [-> _]].
  unfold ret. eexists; eexists. split; [reflexivity |]. split.
  - apply pr_info_reviewed_by.
  - intros username w0 Hu.
    destruct (get_user_email_run E username w0 Hu) as [evs' [-> _]]. reflexivity.
Qed.

Lemma get_pr_info_reviewed_by_witness :
  exists w' pr_info,
    get_pr_info env_ABA repo_ABA (lit "7") initial_world = (w', Ret pr_info)
    /\ pr_info !! lit "reviewed_by"
       = Some (VList (map (fun r => identity_of env_ABA (login (review_user r)))
                          (List.filter approved reviews_ABA)))
    /\ forall username w0,
         well_mapped env_ABA username = true ->
         (get_user_email env_ABA username w0).2 = Ret (identity_of env_ABA username).
Proof.
  apply (get_pr_info_reviewed_by env_ABA repo_ABA (lit "7") 7%Z pr_ABA reviews_ABA);
    try reflexivity.
  repeat constructor.
Defined.

(** The reviews by A (approved), B (changes requested) and A (approved)
    give two entries, both for A. *)
Lemma reviewed_by_ABA :
  match (get_pr_info env_ABA repo_ABA (lit "7") initial_world).2 with
  | Ret pr_info =>
      pr_info !! lit "reviewed_by"
      = Some (VList [lit "Ann <ann@x.com>"; lit "Ann <ann@x.com>"])
  | _ => False
  end.
Proof. vm_compute. reflexivity. Qed.

(** ** The commit message *)

Lemma fold_left_reviewed_by approvers (msg : str) :
  fold_left (fun msg approver => msg ++ [Py.NL] ++ lit "Reviewed-by: " ++ approver)
            approvers msg
  = msg ++ concat (map (fun approver => [Py.NL] ++ lit "Reviewed-by: " ++ approver) approvers).
Proof.
  revert msg. induction approvers as [| a approvers IH]; intros msg.
  - simpl. rewrite app_nil_r. reflexivity.
  - cbn [fold_left map concat]. rewrite IH, <- !app_assoc. reflexivity.
Qed.

(** The template of the commit message: the title, an empty line, the
    wrapped body, an empty line, a [Reviewed-by] line for each approver, an
    empty line, the [Closes] reference.  Composing it changes nothing in
    the world and does not fail. *)
Lemma compose_message_run number title author head head_sha body reviewed_by w :
  exists commit_body,
    wrap_text body 72 = Ret commit_body
    /\ compose_message (pr_info_of number title author head head_sha body reviewed_by) w
       = (w, Ret (lit "Merge '" ++ title ++ lit "' from " ++ author,
                  (lit "Merge '" ++ title ++ lit "' from " ++ author)
                  ++ [Py.NL; Py.NL] ++ commit_body ++ [Py.NL]
                  ++ concat (map (fun approver => [Py.NL] ++ lit "Reviewed-by: " ++ approver)
                                 reviewed_by)
                  ++ [Py.NL; Py.NL] ++ lit "Closes #" ++ Py.str_of_int number)).
Proof.
  destruct (wrap_text_non_space body 72 ltac:(lia)) as [commit_body [Hwrap _]].
  exists commit_body. split; [assumption |].
  unfold compose_message, dict_get.
  rewrite pr_info_title, pr_info_author, pr_info_body, pr_info_reviewed_by, pr_info_number.
  cbv beta iota delta [bind ret as_str lift iterate]. rewrite Hwrap.
  cbv beta iota delta [format_value]. rewrite fold_left_reviewed_by, <- !app_assoc. reflexivity.
Qed.

(** C4: for pull request 42 titled [Fix bug], written by alice, with the
    body [Short fix.] and one approval by bob, whom the user mapping shows
    as Bob B with the address bob@x.com, the commit message is the title
    line, an empty line, the body, an empty line, the [Reviewed-by] line,
    an empty line and [Closes #42]; it follows the template of title,
    wrapped body, one line for each approver and the closing reference; and
    it is the text that the local strategy writes to the temporary file. *)
Theorem commit_message_of_pr_42 :
  (pr_info <- get_pr_info env_42 repo_42 (lit "42") ;; compose_message pr_info)
    initial_world
  = (add_events initial_world [GetPull 42; GetReviews 42],
     Ret (lit "Merge 'Fix bug' from alice", message_42))
  /\ message_42
     = lit "Merge 'Fix bug' from alice" ++ [Py.NL; Py.NL] ++ lit "Short fix." ++ [Py.NL]
       ++ concat (map (fun approver => [Py.NL] ++ lit "Reviewed-by: " ++ approver)
                      [lit "Bob B <bob@x.com>"])
       ++ [Py.NL; Py.NL] ++ lit "Closes #" ++ Py.str_of_int 42
  /\ wrap_text (lit "Short fix.") 72 = Ret (lit "Short fix.")
  /\ In (WriteTemp (temp_name env_42) message_42)
        (log (merge_pr env_42 (lit "42") false initial_world).1).
Proof.
  split; [vm_compute; reflexivity |].
  split; [vm_compute; reflexivity |].
  split; [vm_compute; reflexivity |].
  vm_compute. do 4 right. left. reflexivity.
Qed.

(** ** The merge executor *)

Lemma exit_status_Exception {A} e :
  is_Exception e = true -> exit_status (A := A) (Exc e) = Some 1%Z.
Proof. destruct e; (discriminate || reflexivity). Qed.

(** The API strategy looks up a key that the dictionary of [get_pr_info]
    does not hold: the [KeyError] is caught, printed, and the run exits
    with code 1 before the pull request is asked whether it is mergeable. *)
Lemma merge_via_api_run pr_number number title author head head_sha body reviewed_by
    commit_title commit_message w :
  merge_via_api pr_number (pr_info_of number title author head head_sha body reviewed_by)
                commit_title commit_message w
  = (add_events w [Print (lit "Error merging PR via API: 'pr_object'")], Exc (SystemExit 1)).
Proof.
  unfold merge_via_api, try_except, dict_get. rewrite pr_info_pr_object.
  reflexivity.
Qed.



(** The [try] block of the local strategy: the commands run in their
    order until one fails; the block ends normally when the three of them
    returned 0 and only then, and otherwise with exit status 1. *)
Lemma git_commands_trace E pr_number number title author head head_sha body reviewed_by
    commit_message temp_file_path w :
  exists evs r,
    git_commands E pr_number (pr_info_of number title author head head_sha body reviewed_by)
                 commit_message temp_file_path w
    = (add_events w evs, r)
    /\ Forall (fun e => is_command_or_print e = true) evs
    /\ commands_run E pr_number head_sha temp_file_path (commands_of evs)
    /\ (r = Ret tt <->
        succeeded E (git_fetch pr_number) /\ succeeded E git_checkout
        /\ succeeded E (git_merge head_sha temp_file_path))
    /\ (r <> Ret tt -> exit_status r = Some 1%Z)
    /\ r <> OutOfFuel.
Proof.
  unfold git_commands, run_command, dict_get. rewrite pr_info_head_sha.
  cbv beta iota delta [bind ret raise emit print sys_exit format_value].
  fold (git_fetch pr_number). fold git_checkout. fold (git_merge head_sha temp_file_path).
  unfold commands_run, succeeded.
  destruct (popen E (git_fetch pr_number)) as [[[o1 e1] rc1] | m1] eqn:H1; cbv beta iota.
  2: { eexists; eexists. split; [reflexivity |]. split; [repeat constructor |].
       split; [| split; [| split; [reflexivity | discriminate]]].
       - split; [reflexivity |]. split; intros [? [? ?]]; discriminate.
       - split; [discriminate |]. intros [[? [? ?]] _]. discriminate. }
  destruct (bool_decide (rc1 <> 0%Z)) eqn:Hrc1; cbv beta iota.
  { apply bool_decide_eq_true_1 in Hrc1. rewrite ?add_events_app.
    eexists; eexists. split; [reflexivity |]. split; [repeat constructor |].
    split; [| split; [| split; [reflexivity | discriminate]]].
    - split; [reflexivity |]. split; intros [? [? [= _ _ ?]]]; congruence.
    - split; [discriminate |]. intros [[? [? [= _ _ ?]]] _]. congruence. }
  apply bool_decide_eq_false_1 in Hrc1. apply dec_stable in Hrc1. subst rc1.
  destruct (popen E git_checkout) as [[[o2 e2] rc2] | m2] eqn:H2; cbv beta iota.
  2: { rewrite ?add_events_app. eexists; eexists. split; [reflexivity |].
       split; [repeat constructor |].
       split; [| split; [| split; [reflexivity | discriminate]]].
       - split; [intros Hn; contradiction Hn; eauto |].
         split; [reflexivity |]. intros _ [? [? ?]]. discriminate.
       - split; [discriminate |]. intros [_ [[? [? ?]] _]]. discriminate. }
  destruct (bool_decide (rc2 <> 0%Z)) eqn:Hrc2; cbv beta iota.
  { apply bool_decide_eq_true_1 in Hrc2. rewrite ?add_events_app.
    eexists; eexists. split; [reflexivity |]. split; [repeat constructor |].
    split; [| split; [| split; [reflexivity | discriminate]]].
    - split; [intros Hn; contradiction Hn; eauto |].
      split; [reflexivity |]. intros _ [? [? [= _ _ ?]]]. congruence.
    - split; [discriminate |]. intros [_ [[? [? [= _ _ ?]]] _]]. congruence. }
  apply bool_decide_eq_false_1 in Hrc2. apply dec_stable in Hrc2. subst rc2.
  assert (commands_run_all :
    (~ (exists output error : str, Ok (o1, e1, 0%Z) = Ok (output, error, 0%Z)) ->
     [git_fetch pr_number; git_checkout; git_merge head_sha temp_file_path]
     = [git_fetch pr_number])
    /\ ((exists output error : str, Ok (o1, e1, 0%Z) = Ok (output, error, 0%Z)) ->
        ~ (exists output error : str, Ok (o2, e2, 0%Z) = Ok (output, error, 0%Z)) ->
        [git_fetch pr_number; git_checkout; git_merge head_sha temp_file_path]
        = [git_fetch pr_number; git_checkout])
    /\ ((exists output error : str, Ok (o1, e1, 0%Z) = Ok (output, error, 0%Z)) ->
        (exists output error : str, Ok (o2, e2, 0%Z) = Ok (output, error, 0%Z)) ->
        [git_fetch pr_number; git_checkout; git_merge head_sha temp_file_path]
        = [git_fetch pr_number; git_checkout; git_merge head_sha temp_file_path])).
  { split; [intros Hn; contradiction Hn; eauto |].
    split; [intros _ Hn; contradiction Hn; eauto | reflexivity]. }
  destruct (popen E (git_merge head_sha temp_file_path)) as [[[o3 e3] rc3] | m3] eqn:H3;
    cbv beta iota.
  2: { rewrite ?add_events_app. eexists; eexists. split; [reflexivity |].
       split; [repeat constructor |].
       split; [exact commands_run_all |]. split; [| split; [reflexivity | discriminate]].
       split; [discriminate |]. intros [_ [_ [? [? ?]]]]. discriminate. }
  destruct (bool_decide (rc3 <> 0%Z)) eqn:Hrc3; cbv beta iota.
  { apply bool_decide_eq_true_1 in Hrc3. rewrite ?add_events_app.
    eexists; eexists. split; [reflexivity |]. split; [repeat constructor |].
    split; [exact commands_run_all |]. split; [| split; [reflexivity | discriminate]].
    split; [discriminate |]. intros [_ [_ [? [? [= _ _ ?]]]]]. congruence. }
  apply bool_decide_eq_false_1 in Hrc3. apply dec_stable in Hrc3. subst rc3.
  rewrite ?add_events_app. eexists; eexists. split; [reflexivity |].
  split; [repeat constructor |].
  split; [exact commands_run_all |].
  split; [| split; [intros H; contradiction H; reflexivity | discriminate]].
  split; [intros _ | reflexivity]. eauto 10.
Qed.

(** The local strategy: when the temporary file cannot be created, or is
    created and cannot be written, the run ends there, and in the second
    case the file stays; when the file is written, the commands run and
    the file is removed, however the commands end. *)
Lemma merge_locally_run E pr_number number title author head head_sha body reviewed_by
    commit_message w :
  match temp_failure E, temp_write E commit_message with
  | Some msg, _ =>
      merge_locally E pr_number
        (pr_info_of number title author head head_sha body reviewed_by) commit_message w
      = (w, Exc (OSError msg))
  | None, Written =>
      exists commands fs r,
        merge_locally E pr_number
          (pr_info_of number title author head head_sha body reviewed_by) commit_message w
        = (mkWorld (log w ++ [CreateTemp (temp_name E); WriteTemp (temp_name E) commit_message]
                      ++ commands ++ [Unlink (temp_name E)]) fs, r)
        /\ (temp_name E ∉ fs)
        /\ Forall (fun e => is_command_or_print e = true) commands
        /\ commands_run E pr_number head_sha (temp_name E) (commands_of commands)
        /\ (r = Ret tt <->
            succeeded E (git_fetch pr_number) /\ succeeded E git_checkout
            /\ succeeded E (git_merge head_sha (temp_name E)))
        /\ (r <> Ret tt -> exit_status r = Some 1%Z)
        /\ r <> OutOfFuel
  | None, NotEncodable msg =>
      merge_locally E pr_number
        (pr_info_of number title author head head_sha body reviewed_by) commit_message w
      = (mkWorld (log w ++ [CreateTemp (temp_name E)]) ({[temp_name E]} ∪ files w),
         Exc (UnicodeEncodeError msg))
  | None, NotWritten msg =>
      merge_locally E pr_number
        (pr_info_of number title author head head_sha body reviewed_by) commit_message w
      = (mkWorld (log w ++ [CreateTemp (temp_name E)]) ({[temp_name E]} ∪ files w),
         Exc (OSError msg))
  end.
Proof.
  unfold merge_locally, named_temporary_file, write_and_close.
  destruct (temp_failure E) as [msg |]; [reflexivity |].
  unfold bind at 1. unfold bind at 1.
  destruct (temp_write E commit_message) as [| msg | msg]; try reflexivity.
  unfold emit, try_finally.
  destruct (git_commands_trace E pr_number number title author head head_sha body reviewed_by
              commit_message (temp_name E)
              (add_events (mkWorld (log w ++ [CreateTemp (temp_name E)])
                                   ({[temp_name E]} ∪ files w))
                          [WriteTemp (temp_name E) commit_message]))
    as [commands [r [-> [Hcommands [Hrun [Hiff [Hfail Hr]]]]]]].
  unfold os_unlink. cbn [files add_events log].
  rewrite bool_decide_eq_true_2
    by (apply elem_of_union_l, elem_of_singleton; reflexivity).
  exists commands. eexists. exists r.
  split; [destruct r; rewrite <- !app_assoc; reflexivity |].
  split; [rewrite elem_of_difference, elem_of_singleton; intros [_ Hne]; apply Hne; reflexivity |].
  auto 10.
Qed.

(** However the local strategy ends, it ends, and it adds to the log. *)
Lemma merge_locally_any E pr_number number title author head head_sha body reviewed_by
    commit_message w :
  exists evs,
    log (fst (merge_locally E pr_number
           (pr_info_of number title author head head_sha body reviewed_by) commit_message w))
    = log w ++ evs
    /\ snd (merge_locally E pr_number
              (pr_info_of number title author head head_sha body reviewed_by) commit_message w)
       <> OutOfFuel.
Proof.
  pose proof (merge_locally_run E pr_number number title author head head_sha body reviewed_by
                commit_message w) as Hrun.
  destruct (temp_failure E) as [msg |].
  - rewrite Hrun. exists []. rewrite app_nil_r. split; [reflexivity | discriminate].
  - destruct (temp_write E commit_message) as [| msg | msg].
    + destruct Hrun as [commands [fs [r [-> [_ [_ [_ [_ [_ Hr]]]]]]]]].
      eexists. split; [reflexivity | assumption].
    + rewrite Hrun. eexists. split; [reflexivity | discriminate].
    + rewrite Hrun. eexists. split; [reflexivity | discriminate].
Qed.

(** Up to the choice of the strategy: the run ends with an exception or
    with [sys.exit(1)], or reaches the strategy with the dictionary of
    [get_pr_info] and the composed message. *)
Lemma merge_pr_prefix E pr_number use_api w :
  (exists evs e,
     merge_pr E pr_number use_api w = (add_events w evs, Exc e)
     /\ Forall (fun e => quiet e = true) evs
     /\ exit_status (A := unit) (Exc e) = Some 1%Z)
  \/ (exists evs number title author head head_sha body reviewed_by commit_title commit_message,
        Forall (fun e => quiet e = true) evs
        /\ merge_pr E pr_number use_api w
           = (if use_api
              then merge_via_api pr_number
                     (pr_info_of number title author head head_sha body reviewed_by)
                     commit_title commit_message
              else merge_locally E pr_number
                     (pr_info_of number title author head head_sha body reviewed_by)
                     commit_message)
               (add_events w evs)).
Proof.
  unfold merge_pr.
  destruct (environ E !! lit "GITHUB_REPOSITORY") as [[| c s] |];
    try (left; eexists; eexists; split; [reflexivity |];
         split; [repeat constructor | reflexivity]).
  unfold bind.
  destruct (get_repo E (c :: s)) as [repo | msg].
  - rewrite request_Ok.
    destruct (get_pr_info_run E repo pr_number (add_events w [GetRepo (c :: s)]))
      as [evs [r [-> [Hq Hr]]]].
    rewrite add_events_app.
    destruct r as [pr_info | e |]; [| | contradiction].
    + destruct Hr as [number [title [author [head [head_sha [body [reviewed_by ->]]]]]]].
      right.
      destruct (compose_message_run number title author head head_sha body reviewed_by
                  (add_events w ([GetRepo (c :: s)] ++ evs)))
        as [commit_body [_ ->]].
      eexists; eexists; eexists; eexists; eexists; eexists; eexists; eexists; eexists; eexists.
      split; [| reflexivity].
      constructor; [reflexivity | assumption].
    + left. eexists; eexists. split; [reflexivity |].
      split; [constructor; [reflexivity | assumption] |].
      apply exit_status_Exception. assumption.
  - rewrite request_Failed.
    left. eexists; eexists. split; [reflexivity |].
    split; [repeat constructor | reflexivity].
Qed.

(** Under the API strategy no run reaches the merge: every run ends with
    exit status 1, the pull request is never asked whether it is
    mergeable and the merge operation is never called. *)
Lemma merge_pr_api_run E pr_number w :
  exists evs r,
    merge_pr E pr_number true w = (add_events w evs, r)
    /\ Forall (fun e => quiet e = true) evs
    /\ exit_status r = Some 1%Z.
Proof.
  destruct (merge_pr_prefix E pr_number true w)
    as [[evs [e [-> [Hq He]]]]
       | [evs [number [title [author [head [head_sha [body [reviewed_by
           [commit_title [commit_message [Hq ->]]]]]]]]]]]].
  - eauto.
  - rewrite merge_via_api_run, add_events_app.
    eexists; eexists. split; [reflexivity |]. split; [| reflexivity].
    apply Forall_app. split; [assumption | repeat constructor].
Qed.

Lemma quiet_not_local e : quiet e = true -> is_local_step e = false.
Proof. destruct e; (discriminate || reflexivity). Qed.

Lemma quiet_not_merge e : quiet e = true -> is_merge_attempt e = false.
Proof. destruct e; (discriminate || reflexivity). Qed.

(** The run of pull request 42 under the local strategy, when the three
    commands succeed. *)
Lemma merge_pr_42_locally :
  let w := fst (merge_pr env_42 (lit "42") false initial_world) in
  log w
  = [ GetRepo (lit "owner/repo"); GetPull 42; GetReviews 42;
      CreateTemp (lit "/tmp/tmp0a1b2c");
      WriteTemp (lit "/tmp/tmp0a1b2c") message_42;
      RunCommand (lit "git fetch origin pull/42/head");
      RunCommand (lit "git checkout main");
      RunCommand (lit "git merge --no-ff 0123abc -F /tmp/tmp0a1b2c");
      Print (lit "Pull request merged successfully!");
      Print (lit "Merge commit message:" ++ [Py.NL] ++ message_42);
      Print ([Py.NL]
             ++ lit "Note: You'll need to push this merge to mark the PR as merged on GitHub");
      Unlink (lit "/tmp/tmp0a1b2c") ]
  /\ files w = ∅.
Proof. split; vm_compute; reflexivity. Qed.

(** C1, where the code parts from the claim: pull request 42 is mergeable,
    and yet the run under the API strategy prints an error and exits with
    code 1 without asking whether the pull request is mergeable and
    without calling the merge operation; and so does every run under the
    API strategy: none sends a request about mergeability or a merge
    request, and each ends with exit status 1. *)
Theorem merge_pr_api_never_merges :
  pr_mergeable pr_42 = Ok (Some true)
  /\ merge_pr env_42 (lit "42") true initial_world
     = (add_events initial_world
          [ GetRepo (lit "owner/repo"); GetPull 42; GetReviews 42;
            Print (lit "Error merging PR via API: 'pr_object'") ],
        Exc (SystemExit 1))
  /\ (forall E pr_number w,
        exists evs r,
          merge_pr E pr_number true w = (add_events w evs, r)
          /\ Forall (fun e => is_merge_attempt e = false) evs
          /\ exit_status r = Some 1%Z).
Proof.
  split; [reflexivity |]. split; [vm_compute; reflexivity |].
  intros E pr_number w.
  destruct (merge_pr_api_run E pr_number w) as [evs [r [Hrun [Hq Hr]]]].
  exists evs, r. split; [assumption |]. split; [| assumption].
  eapply Forall_impl; [eassumption | apply quiet_not_merge].
Qed.

(** ** The command line *)

Lemma count_while_app p a b :
  Forall (fun c => p c = true) a ->
  match b with c :: _ => p c = false | [] => True end ->
  Py.count_while p (a ++ b) = length a.
Proof.
  intros Ha Hb. induction Ha as [| c a Hc _ IH]; simpl.
  - destruct b as [| c b]; [reflexivity |]. simpl. rewrite Hb. reflexivity.
  - rewrite Hc, IH. reflexivity.
Qed.

(** What the validation of the pull request number accepts: one or more
    digits, then nothing or a single line feed. *)
Lemma re_match_digits_iff s :
  Py.re_match_digits s = true
  <-> exists digits,
        digits <> [] /\ Forall (fun c => Py.isdecimal c = true) digits
        /\ (s = digits \/ s = digits ++ [Py.NL]).
Proof.
  unfold Py.re_match_digits. split.
  - intros H. apply andb_true_iff in H as [Hk Hrest]. apply Nat.leb_le in Hk.
    exists (take (Py.count_while Py.isdecimal s) s).
    split; [| split; [apply count_while_take |]].
    + intros Hnil. apply (f_equal (@length ascii)) in Hnil.
      rewrite length_take in Hnil. simpl in Hnil.
      destruct s; simpl in *; [lia |]. lia.
    + pose proof (take_drop (Py.count_while Py.isdecimal s) s) as Hs.
      destruct (drop (Py.count_while Py.isdecimal s) s) as [| c [| d rest]];
        [| | discriminate].
      * left. rewrite app_nil_r in Hs. auto.
      * right. apply bool_decide_eq_true_1 in Hrest. subst c. auto.
  - intros [digits [Hne [Hd [-> | ->]]]].
    + assert (Py.count_while Py.isdecimal digits = length digits) as ->.
      { rewrite <- (app_nil_r digits) at 1. apply (count_while_app _ _ [] Hd I). }
      rewrite drop_all.
      apply andb_true_iff. split; [| reflexivity].
      apply Nat.leb_le. destruct digits; [congruence | simpl; lia].
    + rewrite (count_while_app _ _ [Py.NL] Hd) by reflexivity.
      rewrite drop_app_length.
      apply andb_true_iff. split; [| reflexivity].
      apply Nat.leb_le. destruct digits; [congruence | simpl; lia].
Qed.

Lemma main_two_arguments E prog pr_number w :
  main E [prog; pr_number] w
  = if Py.re_match_digits pr_number
    then merge_pr E pr_number true w
    else (add_events w [Print (lit "Error: PR number must be a positive integer")],
          Exc (SystemExit 1)).
Proof.
  unfold main. cbn [length]. rewrite bool_decide_eq_false_2 by lia.
  unfold bind at 1. unfold list_get. cbn [lookup list_lookup]. unfold ret at 1.
  destruct (Py.re_match_digits pr_number); [| reflexivity].
  cbn [negb]. rewrite bool_decide_eq_false_2 by (cbn [length]; lia).
  reflexivity.
Qed.

Lemma main_wrong_count E argv w :
  length argv <> 2 -> main E argv w = (add_events w [Print usage], Exc (SystemExit 1)).
Proof.
  intros Hlen. unfold main. rewrite bool_decide_eq_true_2 by assumption. reflexivity.
Qed.

(** C2, where the code parts from the claim: with [--local] as the second
    argument the argument count is 3, which the first test of the script
    refuses: the run prints the usage message and exits with code 1, for
    every pull request number; and no run of the script, whatever its
    arguments, takes a step of the local strategy. *)
Theorem main_never_local :
  (forall E prog pr_number w,
     main E [prog; pr_number; lit "--local"] w
     = (add_events w [Print usage], Exc (SystemExit 1)))
  /\ (forall E argv w,
        exists evs, fst (main E argv w) = add_events w evs
                    /\ Forall (fun e => is_local_step e = false) evs).
Proof.
  split.
  - intros E prog pr_number w. apply main_wrong_count. cbn [length]. lia.
  - intros E argv w.
    destruct (decide (length argv = 2)) as [Hlen | Hlen].
    + destruct argv as [| prog [| pr_number [| x argv]]]; try discriminate.
      rewrite main_two_arguments.
      destruct (Py.re_match_digits pr_number).
      * destruct (merge_pr_api_run E pr_number w) as [evs [r [-> [Hq _]]]].
        exists evs. split; [reflexivity |].
        eapply Forall_impl; [eassumption | apply quiet_not_local].
      * eexists. split; [reflexivity |]. repeat constructor.
    + rewrite main_wrong_count by assumption.
      eexists. split; [reflexivity |]. repeat constructor.
Qed.

(** C9, where the code parts from the claim: the argument [0] is no
    positive integer and yet passes the validation, so that the run goes on
    to the platform (the repository and pull request 0 are requested);
    the argument [12] followed by a line feed is not made of digits only
    and passes too.  The argument [12a] is refused with exit code 1 before
    any request. *)
Theorem main_accepts_zero :
  Py.re_match_digits (lit "0") = true
  /\ Py.int (lit "0") = Some 0%Z
  /\ main env_42 [lit "merge-pr.py"; lit "0"] initial_world
     = (add_events initial_world [GetRepo (lit "owner/repo"); GetPull 0],
        Exc (GithubException (lit "404 Not Found")))
  /\ Py.re_match_digits (lit "12" ++ [Py.NL]) = true
  /\ main env_42 [lit "merge-pr.py"; lit "12a"] initial_world
     = (add_events initial_world [Print (lit "Error: PR number must be a positive integer")],
        Exc (SystemExit 1)).
Proof. repeat split; vm_compute; reflexivity. Qed.

(** An argument that the validation refuses ends the run with exit code 1
    before any request to the platform. *)
Lemma main_refuses E prog pr_number w :
  Py.re_match_digits pr_number = false ->
  main E [prog; pr_number] w
  = (add_events w [Print (lit "Error: PR number must be a positive integer")],
     Exc (SystemExit 1)).
Proof. intros H. rewrite main_two_arguments, H. reflexivity. Qed.

(** * Further properties of the script *)

(** ** The length of the wrapped lines *)

Lemma take_fitting_length width cur chunks :
  cur <= width ->
  cur + length (concat (Textwrap.take_fitting width cur chunks).1) <= width.
Proof.
  revert cur. induction chunks as [| c cs IH]; intros cur Hcur; simpl; [lia |].
  destruct (cur + length c <=? width) eqn:Hfit; [| simpl; lia].
  apply Nat.leb_le in Hfit. specialize (IH (cur + length c) Hfit).
  destruct (Textwrap.take_fitting width (cur + length c) cs) as [line rest].
  simpl in *. rewrite length_app. lia.
Qed.

Lemma take_fitting_Forall {P : str -> Prop} width cur chunks :
  Forall P chunks ->
  Forall P (Textwrap.take_fitting width cur chunks).1
  /\ Forall P (Textwrap.take_fitting width cur chunks).2.
Proof.
  intros H. apply Forall_app. rewrite take_fitting_app. assumption.
Qed.

(** What [break_long_word] gives: nothing changes, or the first chunk is
    cut within the room left on the line. *)
Lemma break_long_word_cases width cur_line chunks :
  Textwrap.break_long_word width cur_line chunks = (chunks, cur_line)
  \/ exists c cs e,
       chunks = c :: cs /\ width < length c
       /\ e <= (if width <? 1 then 1 else width - length (concat cur_line))
       /\ Textwrap.break_long_word width cur_line chunks
          = (drop e c :: cs, cur_line ++ [take e c]).
Proof.
  unfold Textwrap.break_long_word, Textwrap.handle_long_word.
  destruct chunks as [| c cs]; [left; reflexivity |].
  destruct (width <? length c) eqn:Hlong; [| left; reflexivity].
  apply Nat.ltb_lt in Hlong. right.
  eexists; eexists; eexists. split; [reflexivity |]. split; [assumption |].
  split; [| reflexivity]. apply long_word_end_le.
Qed.

Lemma drop_trailing_blank_Forall {P : str -> Prop} cur_line :
  Forall P cur_line -> Forall P (Textwrap.drop_trailing_blank cur_line).
Proof.
  intros H. unfold Textwrap.drop_trailing_blank.
  destruct (rev cur_line) as [| c r] eqn:Hrev; [assumption |].
  destruct (Textwrap.is_blank c); [| assumption].
  apply Forall_rev in H. rewrite Hrev in H. inversion H; subst.
  apply Forall_rev. assumption.
Qed.

Lemma drop_trailing_blank_nonempty cur_line piece :
  Forall (fun c => c <> []) cur_line ->
  Forall (fun c => c <> []) (Textwrap.drop_trailing_blank (cur_line ++ [piece])).
Proof.
  intros H. destruct (Textwrap.is_blank piece) eqn:Hb.
  - rewrite drop_trailing_blank_snoc; assumption.
  - unfold Textwrap.drop_trailing_blank. rewrite rev_app_distr. simpl. rewrite Hb.
    apply Forall_app. split; [assumption |].
    constructor; [| constructor]. intros ->. discriminate.
Qed.

(** One pass of the loop: the chunks put on the line are not empty, they
    are chunks or pieces of chunks, and together they fit the width. *)
Lemma wrap_line_shape width (chunks lines : list str) :
  1 <= width ->
  Forall (fun c => c <> []) chunks ->
  exists cur_line,
    (Textwrap.wrap_line width chunks lines).2 = Textwrap.add_line lines cur_line
    /\ Forall (fun c => c <> []) cur_line
    /\ length (concat cur_line) <= width
    /\ Forall (fun c => c <> []) (Textwrap.wrap_line width chunks lines).1
    /\ forall P : ascii -> Prop,
         Forall (Forall P) chunks ->
         Forall (Forall P) cur_line
         /\ Forall (Forall P) (Textwrap.wrap_line width chunks lines).1.
Proof.
  intros Hw Hne. unfold Textwrap.wrap_line.
  assert (Forall (fun c => c <> []) (Textwrap.drop_leading_blank chunks lines)
          /\ forall P : ascii -> Prop,
               Forall (Forall P) chunks ->
               Forall (Forall P) (Textwrap.drop_leading_blank chunks lines)) as [Hne1 HP1].
  { unfold Textwrap.drop_leading_blank.
    destruct chunks as [| c cs]; [auto |]. destruct lines; [auto |].
    destruct (Textwrap.is_blank c); [| auto].
    split; [inversion Hne; assumption |]. intros P HP. inversion HP; assumption. }
  pose proof (take_fitting_length width 0 (Textwrap.drop_leading_blank chunks lines)
                ltac:(lia)) as Hlen.
  pose proof (take_fitting_app width 0 (Textwrap.drop_leading_blank chunks lines)) as Happ.
  destruct (Textwrap.take_fitting width 0 (Textwrap.drop_leading_blank chunks lines))
    as [cur_line chunks2].
  cbn [fst snd] in *. simpl in Hlen.
  rewrite <- Happ in Hne1. apply Forall_app in Hne1 as [Hne_line Hne2].
  assert (forall P : ascii -> Prop,
            Forall (Forall P) chunks ->
            Forall (Forall P) cur_line /\ Forall (Forall P) chunks2) as HP2.
  { intros P HP. apply Forall_app. pose proof (HP1 P HP) as H.
    rewrite <- Happ in H. exact H. }
  destruct (break_long_word_cases width cur_line chunks2)
    as [-> | [c [cs [e [-> [Hlong [He ->]]]]]]].
  - exists (Textwrap.drop_trailing_blank cur_line). cbn [fst snd].
    split; [reflexivity |].
    split; [apply drop_trailing_blank_Forall; assumption |].
    split; [pose proof (drop_trailing_blank_length cur_line); lia |].
    split; [assumption |].
    intros P HP. destruct (HP2 P HP) as [H1 H2].
    split; [apply drop_trailing_blank_Forall; assumption | assumption].
  - exists (Textwrap.drop_trailing_blank (cur_line ++ [take e c])). cbn [fst snd].
    assert (e <= width - length (concat cur_line)) as He'.
    { destruct (width <? 1) eqn:H1; [apply Nat.ltb_lt in H1; lia | assumption]. }
    split; [reflexivity |].
    split; [apply drop_trailing_blank_nonempty; assumption |].
    split.
    { pose proof (drop_trailing_blank_length (cur_line ++ [take e c])) as Hd.
      rewrite concat_app, length_app in Hd. simpl in Hd.
      rewrite app_nil_r, length_take in Hd. lia. }
    split.
    { constructor; [| inversion Hne2; assumption].
      intros Hnil. apply (f_equal (@length ascii)) in Hnil.
      rewrite length_drop in Hnil. simpl in Hnil. lia. }
    intros P HP. destruct (HP2 P HP) as [H1 H2]. inversion H2; subst. split.
    + apply drop_trailing_blank_Forall. apply Forall_app. split; [assumption |].
      constructor; [apply Forall_take; assumption | constructor].
    + constructor; [apply Forall_drop; assumption | assumption].
Qed.

Lemma concat_nonempty (chunks : list str) :
  chunks <> [] -> Forall (fun c => c <> []) chunks -> concat chunks <> [].
Proof.
  intros Hne H. destruct chunks as [| c cs]; [congruence |].
  inversion H as [| ? ? Hc _]; subst.
  simpl. destruct c; [congruence | discriminate].
Qed.

Lemma wrap_loop_lines (P : ascii -> Prop) width fuel (chunks lines : list str) :
  1 <= width ->
  Forall (fun c => c <> []) chunks ->
  Forall (Forall P) chunks ->
  Forall (fun l => l <> [] /\ length l <= width /\ Forall P l) lines ->
  chunks_size chunks <= fuel ->
  exists ls, Textwrap.wrap_loop fuel width chunks lines = Ret ls
             /\ Forall (fun l => l <> [] /\ length l <= width /\ Forall P l) ls.
Proof.
  intros Hw. revert chunks lines.
  induction fuel as [| fuel IH]; intros chunks lines Hne HP Hlines Hsize.
  - destruct chunks as [| c cs]; [exists lines; auto |].
    unfold chunks_size in Hsize. simpl in Hsize. lia.
  - destruct chunks as [| c cs]; [exists lines; auto |].
    cbn [Textwrap.wrap_loop].
    pose proof (wrap_line_size width c cs lines Hw) as Hlt.
    destruct (wrap_line_shape width (c :: cs) lines Hw Hne)
      as [cur_line [Hlines' [Hne_line [Hlen [Hne' Hchars]]]]].
    destruct (Hchars P HP) as [HP_line HP'].
    destruct (Textwrap.wrap_line width (c :: cs) lines) as [chunks' lines'].
    cbn [fst snd] in *. subst lines'.
    apply IH; [assumption | assumption | | lia].
    unfold Textwrap.add_line. destruct cur_line as [| d ds] eqn:Hcur; [assumption |].
    apply Forall_app. split; [assumption |].
    constructor; [| constructor]. rewrite <- Hcur in *.
    split; [apply concat_nonempty; [subst; discriminate | assumption] |].
    split; [assumption |]. apply Forall_concat. assumption.
Qed.

Lemma split_from_nonempty fuel before rest :
  Forall (fun c => c <> []) (Textwrap.split_from fuel before rest).
Proof.
  revert before rest. induction fuel as [| fuel IH]; intros before rest; [constructor |].
  destruct rest as [| c rest]; [constructor |].
  cbn [Textwrap.split_from]. constructor; [| apply IH].
  pose proof (chunk_len_pos before c rest) as Hpos.
  destruct (Textwrap.chunk_len before (c :: rest)); [lia | discriminate].
Qed.

Lemma munge_no_NL line : Forall (fun c => c <> Py.NL) (Textwrap.munge_whitespace line).
Proof.
  unfold Textwrap.munge_whitespace. apply Forall_forall. intros x Hx.
  apply list_elem_of_In, in_map_iff in Hx. destruct Hx as [y [<- _]].
  destruct (Textwrap.whitespace y) eqn:Hy; [discriminate |].
  intros ->. discriminate.
Qed.

Lemma Forall_concat_inv {A} (P : A -> Prop) (ls : list (list A)) :
  Forall P (concat ls) -> Forall (Forall P) ls.
Proof.
  induction ls as [| l ls IH]; simpl; [constructor |].
  intros H. apply Forall_app in H as [H1 H2]. constructor; auto.
Qed.

(** [textwrap.wrap] returns lines that are not empty, hold no line feed and
    have at most [width] characters. *)
Lemma wrap_lines_fit line width :
  1 <= width ->
  exists ls, Textwrap.wrap line width = Ret ls
             /\ Forall (fun l => l <> [] /\ length l <= width
                                 /\ Forall (fun c => c <> Py.NL) l) ls.
Proof.
  intros Hw. unfold Textwrap.wrap, Textwrap.wrap_chunks.
  destruct (width <=? 0) eqn:H0; [apply Nat.leb_le in H0; lia |].
  apply wrap_loop_lines; [assumption | apply split_from_nonempty | | constructor | reflexivity].
  apply Forall_concat_inv. rewrite split_concat. apply munge_no_NL.
Qed.

Lemma split_lines_no_NL s : Forall (fun l => Py.NL ∉ l) (Py.split Py.NL s).
Proof.
  induction s as [| c s IH]; simpl.
  - constructor; [| constructor]. apply not_elem_of_nil.
  - destruct (decide (c = Py.NL)) as [-> | Hc].
    + constructor; [apply not_elem_of_nil | assumption].
    + destruct (Py.split Py.NL s) as [| l ls].
      * constructor; [| constructor]. intros H. apply list_elem_of_singleton in H. congruence.
      * inversion IH; subst. constructor; [| assumption].
        intros H. apply elem_of_cons in H as [H | H]; [congruence | contradiction].
Qed.

Lemma wrap_lines_lines_fit width lines flag acc :
  1 <= width ->
  Forall (fun l => Py.NL ∉ l) lines ->
  exists flag' out,
    wrap_lines width (flag, acc) lines = Ret (flag', acc ++ out)
    /\ Forall (fun l => (Py.NL ∉ l)
                        /\ (length l <= width \/ l ∈ verbatim_lines flag lines)) out.
Proof.
  intros Hw Hfree. revert flag acc.
  induction Hfree as [| line lines Hline _ IH]; intros flag acc.
  - exists flag, []. simpl. rewrite app_nil_r. auto.
  - cbn [wrap_lines verbatim_lines]. unfold wrap_step, is_fence.
    destruct (Py.startswith (lit "```") (Py.strip line)).
    + destruct (IH (negb flag) (acc ++ [line])) as [flag' [out [-> Hout]]].
      exists flag', (line :: out). rewrite <- app_assoc. split; [reflexivity |].
      constructor; [split; [assumption | right; left] |].
      eapply Forall_impl; [exact Hout |]. intros l [H1 [H2 | H2]]; split; auto.
      right. right. assumption.
    + destruct flag.
      * destruct (IH true (acc ++ [line])) as [flag' [out [-> Hout]]].
        exists flag', (line :: out). rewrite <- app_assoc. split; [reflexivity |].
        constructor; [split; [assumption | right; left] |].
        eapply Forall_impl; [exact Hout |]. intros l [H1 [H2 | H2]]; split; auto.
        right. right. assumption.
      * destruct (wrap_lines_fit line width Hw) as [ls [-> Hls]].
        destruct (IH false (acc ++ ls)) as [flag' [out [-> Hout]]].
        exists flag', (ls ++ out). rewrite <- app_assoc. split; [reflexivity |].
        apply Forall_app. split; [| assumption].
        eapply Forall_impl; [exact Hls |]. intros l [_ [Hlen Hnl]]. split; [| auto].
        intros Hin. rewrite Forall_forall in Hnl. apply (Hnl _ Hin). reflexivity.
Qed.

(** X1: for every text and every positive width, each line of the text
    that [wrap_text] returns has at most [width] characters, unless it is
    a line that was copied as it stood: a fence or a line of a fenced code
    block of the text. *)
Theorem wrap_text_lines_fit text width :
  0 < width ->
  exists wrapped,
    wrap_text text width = Ret wrapped
    /\ Forall (fun l => length l <= width
                        \/ l ∈ verbatim_lines false (Py.split Py.NL text))
              (Py.split Py.NL wrapped).
Proof.
  intros Hw. unfold wrap_text.
  destruct (wrap_lines_lines_fit width (Py.split Py.NL text) false [] ltac:(lia)
              (split_lines_no_NL text)) as [flag' [out [-> Hout]]].
  cbn [app]. eexists. split; [reflexivity |].
  destruct out as [| l out].
  - simpl. constructor; [left; simpl; lia | constructor].
  - rewrite split_join_NL; [| discriminate |].
    + eapply Forall_impl; [exact Hout |]. intros x [_ H]. exact H.
    + eapply Forall_impl; [exact Hout |]. intros x [H _]. exact H.
Qed.

Lemma wrap_text_lines_fit_witness :
  exists wrapped,
    wrap_text fenced_text 20 = Ret wrapped
    /\ Forall (fun l => length l <= 20
                        \/ l ∈ verbatim_lines false (Py.split Py.NL fenced_text))
              (Py.split Py.NL wrapped).
Proof. apply (wrap_text_lines_fit fenced_text 20). lia. Defined.

(** ** Texts that are code only *)

Lemma wrap_lines_verbatim width lines flag acc :
  prose_lines flag lines = [] ->
  exists flag', wrap_lines width (flag, acc) lines = Ret (flag', acc ++ lines).
Proof.
  revert flag acc. induction lines as [| line lines IH]; intros flag acc Hprose.
  - exists flag. simpl. rewrite app_nil_r. reflexivity.
  - cbn [wrap_lines prose_lines] in *. unfold wrap_step. unfold is_fence in Hprose.
    destruct (Py.startswith (lit "```") (Py.strip line)).
    + destruct (IH (negb flag) (acc ++ [line]) Hprose) as [flag' ->].
      exists flag'. rewrite <- app_assoc. reflexivity.
    + destruct flag; [| discriminate].
      destruct (IH true (acc ++ [line]) Hprose) as [flag' ->].
      exists flag'. rewrite <- app_assoc. reflexivity.
Qed.

(** X2: a text all of whose lines are fences or lines of fenced code
    blocks comes back from [wrap_text] as it went in, for every width,
    the width 0 included (no line is handed to [textwrap.wrap], so nothing
    is raised). *)
Theorem wrap_text_code_only text width :
  prose_lines false (Py.split Py.NL text) = [] ->
  wrap_text text width = Ret text.
Proof.
  intros Hprose. unfold wrap_text.
  destruct (wrap_lines_verbatim width (Py.split Py.NL text) false [] Hprose) as [flag' ->].
  cbn [app]. rewrite join_split_NL. reflexivity.
Qed.

Lemma wrap_text_code_only_witness :
  wrap_text (Py.join [Py.NL] [lit "```python"; lit "x   =   1"; []; lit "```"]) 0
  = Ret (Py.join [Py.NL] [lit "```python"; lit "x   =   1"; []; lit "```"]).
Proof. apply wrap_text_code_only. vm_compute. reflexivity. Defined.

(** X3: a fence that is never closed: when a fence opens a block outside
    any other block and no fence follows it, every line after it comes out
    as it went in, however long it is, after the lines wrapped before the
    fence. *)
Theorem wrap_text_unterminated_fence width before open rest out_before :
  Forall (fun l => Py.NL ∉ l) (before ++ open :: rest) ->
  wrap_lines width (false, []) before = Ret (false, out_before) ->
  is_fence open = true ->
  Forall (fun l => is_fence l = false) rest ->
  wrap_text (Py.join [Py.NL] (before ++ open :: rest)) width
  = Ret (Py.join [Py.NL] (out_before ++ open :: rest)).
Proof.
  intros Hfree Hbefore Hopen Hrest. unfold wrap_text.
  rewrite split_join_NL; [| destruct before; discriminate | assumption].
  rewrite wrap_lines_app, Hbefore. cbn [wrap_lines].
  rewrite (wrap_step_fence _ _ _ _ Hopen). cbn [negb].
  rewrite (wrap_lines_block _ _ _ Hrest), <- app_assoc. reflexivity.
Qed.

Lemma wrap_text_unterminated_fence_witness :
  wrap_text (Py.join [Py.NL] ([lit "Run it like this:"]
                              ++ lit "```" :: [repeat (ascii_of_N 120) 100; lit "a  b"])) 72
  = Ret (Py.join [Py.NL] ([lit "Run it like this:"]
                          ++ lit "```" :: [repeat (ascii_of_N 120) 100; lit "a  b"])).
Proof.
  apply wrap_text_unterminated_fence.
  - refine (bool_decide_unpack _ _). vm_compute. exact I.
  - vm_compute. reflexivity.
  - vm_compute. reflexivity.
  - repeat constructor.
Defined.

(** ** Short lines *)

Lemma take_fitting_all width cur chunks :
  cur + length (concat chunks) <= width ->
  Textwrap.take_fitting width cur chunks = (chunks, []).
Proof.
  revert cur. induction chunks as [| c cs IH]; intros cur H; [reflexivity |].
  simpl in *. rewrite length_app in H.
  rewrite (proj2 (Nat.leb_le _ _)) by lia.
  rewrite IH by lia. reflexivity.
Qed.

Lemma munge_spaces_only_from col text :
  Forall (fun c => Textwrap.whitespace c = true -> c = Py.SPACE) text ->
  map (fun c => if Textwrap.whitespace c then Py.SPACE else c)
      (Py.expandtabs_from 8 col text) = text.
Proof.
  intros H. revert col. induction H as [| c s Hc _ IH]; intros col; [reflexivity |].
  cbn [Py.expandtabs_from]. destruct (decide (c = Py.TAB)) as [-> | Hne].
  - specialize (Hc eq_refl). discriminate.
  - cbn [map]. rewrite IH. destruct (Textwrap.whitespace c); [| reflexivity].
    rewrite Hc; reflexivity.
Qed.

Lemma munge_spaces_only text :
  Forall (fun c => Textwrap.whitespace c = true -> c = Py.SPACE) text ->
  Textwrap.munge_whitespace text = text.
Proof. apply munge_spaces_only_from. Qed.

Lemma last_concat_snoc (r : list str) (d : str) :
  d <> [] -> last (concat (r ++ [d])) = last d.
Proof.
  intros Hd. rewrite concat_app. simpl. rewrite app_nil_r.
  destruct (exists_last Hd) as [d' [c ->]].
  rewrite app_assoc, !last_snoc. reflexivity.
Qed.

(** A line that fits the width, whose whitespace is spaces only and which
    does not end with whitespace, is one line for [textwrap.wrap]. *)
Lemma wrap_short_line line width :
  1 <= width ->
  line <> [] ->
  length line <= width ->
  Forall (fun c => Textwrap.whitespace c = true -> c = Py.SPACE) line ->
  (forall c, last line = Some c -> Py.isspace c = false) ->
  Textwrap.wrap line width = Ret [line].
Proof.
  intros Hw Hne Hlen Hsp Hlast. unfold Textwrap.wrap, Textwrap.wrap_chunks.
  destruct (width <=? 0) eqn:H0; [apply Nat.leb_le in H0; lia |].
  rewrite (munge_spaces_only _ Hsp).
  pose proof (split_concat line) as Hcat.
  pose proof (split_from_nonempty (length line) [] line) as Hchunks.
  fold (Textwrap.split line) in Hchunks.
  assert (Textwrap.split line <> []) as Hsplit.
  { intros Hnil. rewrite Hnil in Hcat. simpl in Hcat. congruence. }
  destruct (exists_last Hsplit) as [cs [c Hcs]].
  rewrite Hcs in *. clear Hsplit Hcs.
  assert (Textwrap.is_blank c = false) as Hblank.
  { destruct (Textwrap.is_blank c) eqn:Hb; [| reflexivity].
    apply is_blank_Forall in Hb.
    apply Forall_app in Hchunks as [_ Hc]. apply Forall_cons in Hc as [Hcne _].
    pose proof (last_concat_snoc cs c Hcne) as Hl. rewrite Hcat in Hl.
    destruct (exists_last Hcne) as [c' [x ->]].
    rewrite last_snoc in Hl. specialize (Hlast x Hl).
    apply Forall_app in Hb as [_ Hb]. inversion Hb; congruence. }
  assert (exists fuel, length (concat (cs ++ [c])) + length (cs ++ [c]) = S fuel) as [fuel ->].
  { rewrite (length_app cs). simpl. exists (length (concat (cs ++ [c])) + length cs). lia. }
  destruct (cs ++ [c]) as [| d ds] eqn:Hds; [destruct cs; discriminate |].
  cbn [Textwrap.wrap_loop]. unfold Textwrap.wrap_line.
  cbn [Textwrap.drop_leading_blank].
  rewrite take_fitting_all by (rewrite Hcat; simpl; lia).
  cbn [Textwrap.break_long_word]. rewrite <- Hds.
  unfold Textwrap.drop_trailing_blank. rewrite rev_app_distr. cbn [rev app].
  rewrite Hblank, Hds. cbn [Textwrap.add_line app]. rewrite Hcat.
  destruct fuel; reflexivity.
Qed.

(** X4: a text of one line that fits the width, whose whitespace is
    spaces only (no tab, no line feed) and which does not end with
    whitespace, comes back from [wrap_text] as it went in; so does the
    empty text. *)
Theorem wrap_text_short_line text width :
  0 < width ->
  length text <= width ->
  Forall (fun c => Textwrap.whitespace c = true -> c = Py.SPACE) text ->
  (forall c, last text = Some c -> Py.isspace c = false) ->
  wrap_text text width = Ret text.
Proof.
  intros Hw Hlen Hsp Hlast.
  assert (text = [] \/ text <> []) as [-> | Hne] by (destruct text; [left | right]; congruence).
  { vm_compute. destruct width; [lia | reflexivity]. }
  unfold wrap_text. rewrite split_NL_free.
  - cbn [wrap_lines]. unfold wrap_step.
    destruct (Py.startswith (lit "```") (Py.strip text)); [reflexivity |].
    rewrite wrap_short_line; try assumption; try lia. reflexivity.
  - intros Hin. rewrite Forall_forall in Hsp.
    specialize (Hsp _ Hin eq_refl). discriminate.
Qed.

Lemma wrap_text_short_line_witness :
  wrap_text (lit "  Fix the   off-by-one error (see #12).") 72
  = Ret (lit "  Fix the   off-by-one error (see #12).").
Proof.
  apply wrap_text_short_line.
  - lia.
  - vm_compute. lia.
  - refine (bool_decide_unpack _ _). vm_compute. exact I.
  - vm_compute. intros c [= <-]. reflexivity.
Defined.

(** ** The pull request number *)

Lemma isdecimal_ord c : Py.isdecimal c = true -> (48 <= Py.ord c <= 57)%N.
Proof.
  unfold Py.isdecimal, Py.in_range. intros H.
  apply andb_true_iff in H as [H1 H2]. apply N.leb_le in H1, H2. lia.
Qed.

Lemma isdecimal_not_int_space c : Py.isdecimal c = true -> Py.int_space c = false.
Proof.
  intros H. apply isdecimal_ord in H. unfold Py.int_space, Py.in_range.
  repeat match goal with
         | |- context [(?a <=? ?b)%N] => destruct (N.leb_spec a b)
         | |- context [(?a =? ?b)%N] => destruct (N.eqb_spec a b)
         end; try reflexivity; lia.
Qed.

Lemma parse_digits_digits digits acc after_digit :
  Forall (fun c => Py.isdecimal c = true) digits ->
  (0 <= acc)%Z ->
  digits <> [] \/ after_digit = true ->
  exists n, Py.parse_digits acc after_digit digits = Some n /\ (0 <= n)%Z.
Proof.
  intros Hd. revert acc after_digit.
  induction Hd as [| c ds Hc _ IH]; intros acc after_digit Hacc Hne.
  - destruct Hne as [Hne | ->]; [congruence |]. exists acc. auto.
  - cbn [Py.parse_digits]. rewrite Hc. apply IH; [| right; reflexivity].
    apply isdecimal_ord in Hc. lia.
Qed.

Lemma int_lstrip_digit c s : Py.isdecimal c = true -> Py.int_lstrip (c :: s) = c :: s.
Proof. intros H. simpl. rewrite (isdecimal_not_int_space _ H). reflexivity. Qed.

(** [int] on digits, and on digits with a line feed after them: the
    line feed is ignored. *)
Lemma int_digits digits rest :
  digits <> [] ->
  Forall (fun c => Py.isdecimal c = true) digits ->
  rest = [] \/ rest = [Py.NL] ->
  Py.int (digits ++ rest) = Py.int_unsigned digits
  /\ Py.digit_count (digits ++ rest) = Py.digit_count digits.
Proof.
  intros Hne Hd Hrest. split.
  - unfold Py.int.
    assert (rev (Py.int_lstrip (rev (Py.int_lstrip (digits ++ rest)))) = digits) as ->.
    { destruct digits as [| c ds]; [congruence |].
      inversion Hd as [| ? ? Hc Hds]; subst.
      change ((c :: ds) ++ rest) with (c :: (ds ++ rest)).
      rewrite (int_lstrip_digit _ _ Hc).
      change (c :: (ds ++ rest)) with ((c :: ds) ++ rest).
      destruct (exists_last Hne) as [ds' [d Heq]].
      rewrite Heq in *. apply Forall_app in Hd as [_ Hlast].
      apply Forall_cons in Hlast as [Hdd _].
      destruct Hrest as [-> | ->].
      - rewrite app_nil_r, rev_app_distr. cbn [rev app].
        rewrite (int_lstrip_digit _ _ Hdd).
        change (d :: rev ds') with (rev [d] ++ rev ds').
        rewrite <- rev_app_distr, rev_involutive. reflexivity.
      - rewrite rev_app_distr. cbn [rev app Py.int_lstrip].
        change (Py.int_space Py.NL) with true. cbv iota.
        rewrite rev_app_distr. cbn [rev app].
        rewrite (int_lstrip_digit _ _ Hdd).
        change (d :: rev ds') with (rev [d] ++ rev ds').
        rewrite <- rev_app_distr, rev_involutive. reflexivity. }
    destruct digits as [| c ds]; [congruence |].
    inversion Hd as [| ? ? Hc Hds]; subst.
    pose proof (isdecimal_ord _ Hc) as Hord.
    rewrite !bool_decide_eq_false_2 by lia. reflexivity.
  - unfold Py.digit_count. rewrite List.filter_app.
    destruct Hrest as [-> | ->]; [rewrite app_nil_r; reflexivity |].
    change (List.filter Py.isdecimal [Py.NL]) with (@nil ascii).
    rewrite app_nil_r. reflexivity.
Qed.

(** X5: an argument that passes the validation of the command line and
    has no more digits than [int] converts (4300, unless the limit was
    changed) is one that [int] accepts: in [get_pr_info] the conversion
    of the pull request number returns an integer that is not negative,
    also for an argument that ends with a line feed.  An argument with
    more digits passes the validation too, and [int] raises [ValueError]
    for it. *)
Theorem validated_number_converts pr_number :
  Py.re_match_digits pr_number = true ->
  (Py.digit_count pr_number <= Py.int_max_str_digits ->
   exists n, (0 <= n)%Z /\ forall w, py_int pr_number w = (w, Ret n))
  /\ (Py.int_max_str_digits < Py.digit_count pr_number ->
      forall w, py_int pr_number w = (w, Exc (ValueError (Py.int_error pr_number)))).
Proof.
  intros H. apply re_match_digits_iff in H as [digits [Hne [Hd Hs]]].
  destruct (int_digits digits (if decide (pr_number = digits) then [] else [Py.NL]) Hne Hd)
    as [Hint Hcount].
  { destruct (decide (pr_number = digits)); auto. }
  assert (pr_number = digits ++ (if decide (pr_number = digits) then [] else [Py.NL])) as Heq.
  { destruct (decide (pr_number = digits)) as [-> | Hneq].
    - rewrite app_nil_r. reflexivity.
    - destruct Hs; [contradiction | assumption]. }
  rewrite <- Heq in Hint, Hcount. unfold py_int. rewrite Hint, Hcount.
  unfold Py.int_unsigned. split; intros Hlen.
  - rewrite (proj2 (Nat.ltb_ge _ _)) by exact Hlen.
    destruct (parse_digits_digits digits 0%Z false Hd ltac:(lia) ltac:(left; exact Hne))
      as [n [-> Hpos]].
    exists n. split; [assumption |]. reflexivity.
  - rewrite (proj2 (Nat.ltb_lt _ _)) by exact Hlen. reflexivity.
Qed.

Lemma validated_number_converts_witness :
  (exists n, (0 <= n)%Z /\ forall w, py_int (lit "12" ++ [Py.NL]) w = (w, Ret n))
  /\ (forall w, exists msg,
        py_int (repeat (ascii_of_N 49) 4301) w = (w, Exc (ValueError msg))).
Proof.
  split.
  - apply (validated_number_converts (lit "12" ++ [Py.NL])).
    + vm_compute. reflexivity.
    + refine (bool_decide_unpack _ _). vm_compute. exact I.
  - intros w. eexists.
    apply (validated_number_converts (repeat (ascii_of_N 49) 4301)).
    + vm_compute. reflexivity.
    + refine (bool_decide_unpack _ _). vm_compute. exact I.
Defined.

(** ** What no run does *)

(** X6: whatever its arguments and whatever the platform answers, a run
    of the script ends with exit status 1: it never ends with status 0,
    and among its events there is no question about mergeability, no merge
    request, no temporary file and no command. *)
Theorem main_always_fails E argv w :
  exit_status (main E argv w).2 = Some 1%Z
  /\ exists evs, (main E argv w).1 = add_events w evs
                 /\ Forall (fun e => quiet e = true) evs.
Proof.
  destruct (decide (length argv = 2)) as [Hlen | Hlen].
  - destruct argv as [| prog [| pr_number [| x argv]]]; try discriminate.
    rewrite main_two_arguments.
    destruct (Py.re_match_digits pr_number).
    + destruct (merge_pr_api_run E pr_number w) as [evs [r [-> [Hq Hr]]]].
      split; [assumption |]. exists evs. auto.
    + split; [reflexivity |]. eexists. split; [reflexivity |]. repeat constructor.
  - rewrite main_wrong_count by assumption.
    split; [reflexivity |]. eexists. split; [reflexivity |]. repeat constructor.
Qed.

(** ** The repository *)

(** X7: [merge_pr] sends requests to the platform only when the
    variable [GITHUB_REPOSITORY] is set and not empty, and then its first
    event is the request for the repository of that name; otherwise it
    prints an error and exits with code 1, under either strategy and for
    every pull request number. *)
Theorem merge_pr_repository_first E pr_number use_api w :
  match environ E !! lit "GITHUB_REPOSITORY" with
  | Some (c :: s) =>
      exists evs, log (merge_pr E pr_number use_api w).1 = log w ++ GetRepo (c :: s) :: evs
  | _ =>
      merge_pr E pr_number use_api w
      = (add_events w [Print (lit "Error: GITHUB_REPOSITORY environment variable not set")],
         Exc (SystemExit 1))
  end.
Proof.
  unfold merge_pr.
  destruct (environ E !! lit "GITHUB_REPOSITORY") as [[| c s] |]; try reflexivity.
  unfold bind.
  destruct (get_repo E (c :: s)) as [repo | msg].
  - rewrite request_Ok.
    destruct (get_pr_info_run E repo pr_number (add_events w [GetRepo (c :: s)]))
      as [evs [r [-> [_ Hr]]]].
    rewrite add_events_app.
    destruct r as [pr_info | e |]; [| | contradiction].
    + destruct Hr as [number [title [author [head [head_sha [body [reviewed_by ->]]]]]]].
      destruct (compose_message_run number title author head head_sha body reviewed_by
                  (add_events w ([GetRepo (c :: s)] ++ evs)))
        as [commit_body [_ ->]].
      destruct use_api.
      * rewrite merge_via_api_run, add_events_app. eexists. reflexivity.
      * destruct (merge_locally_any E pr_number number title author head head_sha body
                    reviewed_by
                    ((lit "Merge '" ++ title ++ lit "' from " ++ author)
                     ++ [Py.NL; Py.NL] ++ commit_body ++ [Py.NL]
                     ++ concat (map (fun approver => [Py.NL] ++ lit "Reviewed-by: " ++ approver)
                                    reviewed_by)
                     ++ [Py.NL; Py.NL] ++ lit "Closes #" ++ Py.str_of_int number)
                    (add_events w ([GetRepo (c :: s)] ++ evs)))
          as [commands [Hlog _]].
        cbv beta iota. rewrite Hlog. cbn [log add_events app].
        rewrite <- !app_assoc. eexists. reflexivity.
    + eexists. reflexivity.
  - rewrite request_Failed. exists []. reflexivity.
Qed.

(** X8: when the pull request does not exist (the platform fails the
    request for it), [merge_pr] has asked for the repository and for the
    pull request and nothing more: the failure is not caught, no reviewer
    is looked up, no file is made and no command is run, under either
    strategy. *)
Theorem merge_pr_missing_pull E pr_number use_api c s repo n msg w :
  environ E !! lit "GITHUB_REPOSITORY" = Some (c :: s) ->
  get_repo E (c :: s) = Ok repo ->
  Py.int pr_number = Some n ->
  get_pull repo n = Failed msg ->
  merge_pr E pr_number use_api w
  = (add_events w [GetRepo (c :: s); GetPull n], Exc (GithubException msg)).
Proof.
  intros Henv Hrepo Hint Hpull. unfold merge_pr. rewrite Henv.
  unfold bind at 1. rewrite Hrepo, request_Ok.
  unfold bind at 1. unfold get_pr_info, py_int. rewrite Hint.
  unfold bind at 1, ret at 1. unfold bind at 1. rewrite Hpull, request_Failed.
  rewrite add_events_app. reflexivity.
Qed.

Lemma merge_pr_missing_pull_witness :
  merge_pr env_42 (lit "43") false initial_world
  = (add_events initial_world [GetRepo (lit "owner/repo"); GetPull 43],
     Exc (GithubException (lit "404 Not Found"))).
Proof.
  apply (merge_pr_missing_pull env_42 (lit "43") false _ _ repo_42 43%Z); reflexivity.
Defined.

(** ** The requests of the identity resolver *)

Lemma user_requests_app a b : user_requests (a ++ b) = user_requests a ++ user_requests b.
Proof. apply omap_app. Qed.

(** A lookup sends one profile request, or none for a mapped username. *)
Lemma get_user_email_requests E username w :
  well_mapped E username = true ->
  exists evs,
    get_user_email E username w = (add_events w evs, Ret (identity_of E username))
    /\ Forall (fun e => quiet e = true) evs
    /\ user_requests evs = if mapped E username then [] else [username].
Proof.
  intros Hwell.
  destruct (get_user_email_run E username w Hwell) as [evs0 [Hrun0 _]].
  destruct (get_user_email_cases E username w Hwell) as [s [w' [Hrun Hcases]]].
  rewrite Hrun in Hrun0. injection Hrun0 as _ Hs. subst s.
  unfold mapped. rewrite Hrun.
  destruct (mapping_entry E username) as [entry |].
  - destruct Hcases as [-> _]. exists []. rewrite add_events_nil.
    split; [reflexivity |]. split; [constructor | reflexivity].
  - destruct (get_user E username) as [user | msg]; destruct Hcases as [-> _];
      eexists; (split; [reflexivity |]); split; try reflexivity; repeat constructor.
Qed.

Lemma for_each_reviewers_requests E reviews acc w :
  Forall (fun username => well_mapped E username = true) (approvers reviews) ->
  exists evs,
    for_each (add_reviewer E) acc reviews w
    = (add_events w evs,
       Ret (acc ++ map (fun r => identity_of E (login (review_user r)))
                       (List.filter approved reviews)))
    /\ Forall (fun e => quiet e = true) evs
    /\ user_requests evs
       = map (fun r => login (review_user r))
             (List.filter (fun r => approved r && negb (mapped E (login (review_user r))))
                          reviews).
Proof.
  revert acc w. induction reviews as [| r reviews IH]; intros acc w Hwell.
  - exists []. simpl. unfold ret. rewrite add_events_nil, app_nil_r.
    split; [reflexivity |]. split; [constructor | reflexivity].
  - unfold approvers in Hwell, IH. cbn [for_each List.filter] in *.
    unfold bind at 1. unfold add_reviewer at 1.
    change (bool_decide (review_state r = lit "APPROVED")) with (approved r).
    destruct (approved r).
    + cbn [map] in Hwell. apply Forall_cons in Hwell as [Hr Hwell].
      unfold bind at 1.
      destruct (get_user_email_requests E (login (review_user r)) w Hr)
        as [evs1 [-> [Hq1 Hu1]]].
      unfold ret at 1.
      destruct (IH (acc ++ [identity_of E (login (review_user r))]) (add_events w evs1) Hwell)
        as [evs2 [-> [Hq2 Hu2]]].
      exists (evs1 ++ evs2). rewrite add_events_app, <- app_assoc.
      split; [reflexivity |]. split; [apply Forall_app; split; assumption |].
      rewrite user_requests_app, Hu1, Hu2. cbn [andb].
      destruct (mapped E (login (review_user r))); reflexivity.
    + unfold ret at 1. cbn [andb]. apply IH. assumption.
Qed.

(** [get_pr_info] when the platform answers: its events and its
    dictionary. *)
Lemma get_pr_info_ok E repo pr_number n pr reviews w :
  Py.int pr_number = Some n ->
  get_pull repo n = Ok pr ->
  pr_get_reviews pr = Ok reviews ->
  Forall (fun username => well_mapped E username = true) (approvers reviews) ->
  exists evs,
    get_pr_info E repo pr_number w
    = (add_events w ([GetPull n; GetReviews (pr_num pr)] ++ evs),
       Ret (pr_info_of (pr_num pr) (pr_title pr)
              (Py.or_else (name (pr_user pr)) (login (pr_user pr)))
              (pr_head_ref pr) (pr_head_sha pr)
              (match pr_body pr with
               | Some (c :: s) => Py.strip (c :: s)
               | _ => []
               end)
              (map (fun r => identity_of E (login (review_user r)))
                   (List.filter approved reviews))))
    /\ Forall (fun e => quiet e = true) evs
    /\ user_requests evs
       = map (fun r => login (review_user r))
             (List.filter (fun r => approved r && negb (mapped E (login (review_user r))))
                          reviews).
Proof.
  intros Hint Hpull Hreviews Hwell.
  unfold get_pr_info, py_int. rewrite Hint.
  unfold bind at 1, ret at 1. unfold bind at 1. rewrite Hpull, request_Ok.
  unfold bind at 1. rewrite Hreviews, request_Ok. unfold bind at 1.
  destruct (for_each_reviewers_requests E reviews []
              (add_events (add_events w [GetPull n]) [GetReviews (pr_num pr)]) Hwell)
    as [evs [-> [Hq Hu]]].
  rewrite !add_events_app. unfold ret. exists evs. auto.
Qed.

(** X9: [get_pr_info] looks every approval up on its own: the profile
    requests it sends are, in the order of the reviews, one for each
    approved review whose reviewer is not in the user mapping; a reviewer
    who approved twice is requested twice, and a mapped reviewer or a
    review in another state costs no request.  (The user mapping is as the
    script expects it for the approvers.) *)
Theorem get_pr_info_requests E repo pr_number n pr reviews w :
  Py.int pr_number = Some n ->
  get_pull repo n = Ok pr ->
  pr_get_reviews pr = Ok reviews ->
  Forall (fun username => well_mapped E username = true) (approvers reviews) ->
  exists evs,
    (get_pr_info E repo pr_number w).1 = add_events w evs
    /\ user_requests evs
       = map (fun r => login (review_user r))
             (List.filter (fun r => approved r && negb (mapped E (login (review_user r))))
                          reviews).
Proof.
  intros Hint Hpull Hreviews Hwell.
  destruct (get_pr_info_ok E repo pr_number n pr reviews w Hint Hpull Hreviews Hwell)
    as [evs [-> [_ Hu]]].
  eexists. split; [reflexivity |]. rewrite user_requests_app. exact Hu.
Qed.

Lemma get_pr_info_requests_witness :
  exists evs,
    (get_pr_info env_ABA repo_ABA (lit "7") initial_world).1 = add_events initial_world evs
    /\ user_requests evs = [lit "A"; lit "A"].
Proof.
  apply (get_pr_info_requests env_ABA repo_ABA (lit "7") 7%Z pr_ABA reviews_ABA);
    try reflexivity.
  repeat constructor.
Defined.

(** X10: when no [.github.json] exists the user mapping is empty, and
    every lookup of [get_user_email] sends exactly one profile request,
    for the username it was given. *)
Theorem get_user_email_without_mapping E username w :
  dot_github_json E = None ->
  user_mapping E = JDict []
  /\ exists evs s,
       get_user_email E username w = (add_events w evs, Ret s)
       /\ user_requests evs = [username].
Proof.
  intros Hfile.
  assert (user_mapping E = JDict []) as Hmap
    by (unfold user_mapping, load_user_mapping; rewrite Hfile; reflexivity).
  split; [assumption |].
  assert (well_mapped E username = true) as Hwell
    by (unfold well_mapped; rewrite Hmap; reflexivity).
  destruct (get_user_email_requests E username w Hwell) as [evs [Hrun [_ Hu]]].
  exists evs, (identity_of E username). split; [assumption |].
  unfold mapped, mapping_entry in Hu. rewrite Hmap in Hu. exact Hu.
Qed.

Lemma get_user_email_without_mapping_witness :
  user_mapping env_ABA = JDict []
  /\ exists evs s,
       get_user_email env_ABA (lit "B") initial_world = (add_events initial_world evs, Ret s)
       /\ user_requests evs = [lit "B"].
Proof. apply (get_user_email_without_mapping env_ABA (lit "B") initial_world). reflexivity. Defined.

(** ** Stripped strings *)

Lemma lstrip_lstrip s : Py.lstrip (Py.lstrip s) = Py.lstrip s.
Proof.
  induction s as [| c s IH]; [reflexivity |].
  simpl. destruct (Py.isspace c) eqn:Hc; [assumption |].
  simpl. rewrite Hc. reflexivity.
Qed.

Lemma lstrip_snoc s c :
  Py.isspace c = false -> Py.lstrip (s ++ [c]) = Py.lstrip s ++ [c].
Proof.
  intros Hc. induction s as [| x s IH]; simpl.
  - rewrite Hc. reflexivity.
  - destruct (Py.isspace x); [assumption | reflexivity].
Qed.

Lemma rstrip_rstrip s : Py.rstrip (Py.rstrip s) = Py.rstrip s.
Proof. unfold Py.rstrip. rewrite rev_involutive, lstrip_lstrip. reflexivity. Qed.

(** Stripping on the right leaves the left end as it is. *)
Lemma lstrip_rstrip s : Py.lstrip s = s -> Py.lstrip (Py.rstrip s) = Py.rstrip s.
Proof.
  destruct s as [| c s]; [reflexivity |].
  simpl. destruct (Py.isspace c) eqn:Hc.
  - intros H. exfalso.
    apply (f_equal (@length ascii)) in H. simpl in H.
    assert (length (Py.lstrip s) <= length s) as Hle.
    { clear. induction s as [| x s IH]; simpl; [lia |].
      destruct (Py.isspace x); simpl; lia. }
    lia.
  - intros _. unfold Py.rstrip. cbn [rev].
    rewrite (lstrip_snoc _ _ Hc), rev_app_distr. simpl. rewrite Hc. reflexivity.
Qed.

(** [strip] twice is [strip] once: a stripped string has no whitespace
    at its ends. *)
Lemma strip_strip s : Py.strip (Py.strip s) = Py.strip s.
Proof.
  unfold Py.strip.
  rewrite (lstrip_rstrip (Py.lstrip s) (lstrip_lstrip s)).
  apply rstrip_rstrip.
Qed.

(** X11: what [run_command] returns: the output and the error text of
    the command with no whitespace left at their ends, and the return code
    as the command gave it; the call is the one event of the run. *)
Theorem run_command_stripped E command w w' output error returncode :
  run_command E command w = (w', Ret (output, error, returncode)) ->
  w' = add_events w [RunCommand command]
  /\ Py.strip output = output /\ Py.strip error = error
  /\ exists raw_output raw_error,
       popen E command = Ok (raw_output, raw_error, returncode)
       /\ output = Py.strip raw_output /\ error = Py.strip raw_error.
Proof.
  unfold run_command, bind, emit.
  destruct (popen E command) as [[[o e] rc] | msg]; [| discriminate].
  unfold ret. intros [= <- <- <- <-].
  split; [reflexivity |]. split; [apply strip_strip |]. split; [apply strip_strip |].
  eauto.
Qed.

Lemma run_command_stripped_witness :
  Py.strip (lit "Already up to date.") = lit "Already up to date."
  /\ Py.strip (lit "warning: x") = lit "warning: x".
Proof.
  pose (E := {| dot_github_json := None; environ := ∅;
                get_user := fun _ => Failed [];
                get_repo := fun _ => Failed [];
                popen := fun _ => Ok ([Py.NL] ++ lit "Already up to date." ++ [Py.NL],
                                      lit "  warning: x ", 0%Z);
                temp_name := []; temp_failure := None; temp_write := fun _ => Written |}).
  destruct (run_command_stripped E git_checkout initial_world
              (add_events initial_world [RunCommand git_checkout])
              (lit "Already up to date.") (lit "warning: x") 0%Z) as [_ [H1 [H2 _]]].
  - vm_compute. reflexivity.
  - split; assumption.
Defined.

(** ** The dictionary of [get_pr_info] *)

(** X12: when the pull request and its reviews are fetched (and the
    user mapping is as the script expects it for the approvers),
    [get_pr_info] returns a dictionary with the seven keys [number],
    [title], [author], [head], [head_sha], [body] and [reviewed_by] and no
    other; the author is the display name of the author, or the login
    when there is none; the body is the text of the pull request with no
    whitespace at its ends, and empty when the pull request has none. *)
Theorem get_pr_info_dictionary E repo pr_number n pr reviews w :
  Py.int pr_number = Some n ->
  get_pull repo n = Ok pr ->
  pr_get_reviews pr = Ok reviews ->
  Forall (fun username => well_mapped E username = true) (approvers reviews) ->
  exists w' pr_info body,
    get_pr_info E repo pr_number w = (w', Ret pr_info)
    /\ dom pr_info
       = list_to_set [lit "number"; lit "title"; lit "author"; lit "head";
                      lit "head_sha"; lit "body"; lit "reviewed_by"]
    /\ pr_info !! lit "number" = Some (VInt (pr_num pr))
    /\ pr_info !! lit "title" = Some (VStr (pr_title pr))
    /\ pr_info !! lit "author"
       = Some (VStr (match name (pr_user pr) with
                     | Some (c :: s) => c :: s
                     | _ => login (pr_user pr)
                     end))
    /\ pr_info !! lit "head" = Some (VStr (pr_head_ref pr))
    /\ pr_info !! lit "head_sha" = Some (VStr (pr_head_sha pr))
    /\ pr_info !! lit "body" = Some (VStr body)
    /\ Py.strip body = body
    /\ body = match pr_body pr with
              | Some text => Py.strip text
              | None => []
              end.
Proof.
  intros Hint Hpull Hreviews Hwell.
  destruct (get_pr_info_ok E repo pr_number n pr reviews w Hint Hpull Hreviews Hwell)
    as [evs [-> _]].
  generalize (map (fun r => identity_of E (login (review_user r)))
                  (List.filter approved reviews)).
  intros reviewed_by.
  eexists; eexists; eexists. split; [reflexivity |].
  split; [vm_compute; reflexivity |].
  split; [apply pr_info_number |]. split; [apply pr_info_title |].
  split; [apply pr_info_author |]. split; [vm_compute; reflexivity |].
  split; [apply pr_info_head_sha |]. split; [apply pr_info_body |].
  destruct (pr_body pr) as [[| c s] |]; split; try reflexivity.
  apply strip_strip.
Qed.

Lemma get_pr_info_dictionary_witness :
  exists w' pr_info,
    get_pr_info env_42 repo_42 (lit "42") initial_world = (w', Ret pr_info)
    /\ pr_info !! lit "author" = Some (VStr (lit "alice"))
    /\ pr_info !! lit "body" = Some (VStr (lit "Short fix.")).
Proof.
  destruct (get_pr_info_dictionary env_42 repo_42 (lit "42") 42%Z pr_42
              [ {| review_state := lit "APPROVED"; review_user := user_bob |} ]
              initial_world eq_refl eq_refl eq_refl ltac:(repeat constructor))
    as [w' [pr_info [body [Hrun [_ [_ [_ [Hauthor [_ [_ [Hbody [_ Hb]]]]]]]]]]]].
  exists w', pr_info. split; [exact Hrun |]. split; [exact Hauthor |].
  rewrite Hbody, Hb. vm_compute. reflexivity.
Defined.

(** ** The commit message of every pull request *)

(** X13: for every pull request that is fetched with its reviews (the
    user mapping being as the script expects it for the approvers), the
    commit message is the title [Merge '<title>' from <author>], an empty
    line, the body wrapped at 72 columns, an empty line, one line
    [Reviewed-by: <identity>] for each approval in the order of the
    reviews, an empty line and [Closes #<number>]; composing it never
    fails. *)
Theorem commit_message_template E repo pr_number n pr reviews w :
  Py.int pr_number = Some n ->
  get_pull repo n = Ok pr ->
  pr_get_reviews pr = Ok reviews ->
  Forall (fun username => well_mapped E username = true) (approvers reviews) ->
  exists w' commit_body,
    wrap_text (match pr_body pr with Some text => Py.strip text | None => [] end) 72
    = Ret commit_body
    /\ (pr_info <- get_pr_info E repo pr_number ;; compose_message pr_info) w
       = (w',
          Ret (lit "Merge '" ++ pr_title pr ++ lit "' from "
               ++ match name (pr_user pr) with
                  | Some (c :: s) => c :: s
                  | _ => login (pr_user pr)
                  end,
               (lit "Merge '" ++ pr_title pr ++ lit "' from "
                ++ match name (pr_user pr) with
                   | Some (c :: s) => c :: s
                   | _ => login (pr_user pr)
                   end)
               ++ [Py.NL; Py.NL] ++ commit_body ++ [Py.NL]
               ++ concat (map (fun r => [Py.NL] ++ lit "Reviewed-by: "
                                        ++ identity_of E (login (review_user r)))
                              (List.filter approved reviews))
               ++ [Py.NL; Py.NL] ++ lit "Closes #" ++ Py.str_of_int (pr_num pr))).
Proof.
  intros Hint Hpull Hreviews Hwell. unfold bind.
  destruct (get_pr_info_ok E repo pr_number n pr reviews w Hint Hpull Hreviews Hwell)
    as [evs [-> _]].
  match goal with
  | |- context [compose_message (pr_info_of ?a ?b ?c ?d ?e ?f ?g) ?w0] =>
      destruct (compose_message_run a b c d e f g w0) as [commit_body [Hwrap ->]]
  end.
  eexists; exists commit_body. split.
  - rewrite <- Hwrap. destruct (pr_body pr) as [[| c s] |]; reflexivity.
  - rewrite map_map. reflexivity.
Qed.

Lemma commit_message_template_witness :
  exists w' commit_body,
    wrap_text (match pr_body pr_ABA with Some text => Py.strip text | None => [] end) 72
    = Ret commit_body
    /\ (pr_info <- get_pr_info env_ABA repo_ABA (lit "7") ;; compose_message pr_info)
         initial_world
       = (w',
          Ret (lit "Merge '" ++ pr_title pr_ABA ++ lit "' from "
               ++ match name (pr_user pr_ABA) with
                  | Some (c :: s) => c :: s
                  | _ => login (pr_user pr_ABA)
                  end,
               (lit "Merge '" ++ pr_title pr_ABA ++ lit "' from "
                ++ match name (pr_user pr_ABA) with
                   | Some (c :: s) => c :: s
                   | _ => login (pr_user pr_ABA)
                   end)
               ++ [Py.NL; Py.NL] ++ commit_body ++ [Py.NL]
               ++ concat (map (fun r => [Py.NL] ++ lit "Reviewed-by: "
                                        ++ identity_of env_ABA (login (review_user r)))
                              (List.filter approved reviews_ABA))
               ++ [Py.NL; Py.NL] ++ lit "Closes #" ++ Py.str_of_int (pr_num pr_ABA))).
Proof.
  apply (commit_message_template env_ABA repo_ABA (lit "7") 7%Z pr_ABA reviews_ABA);
    try reflexivity.
  repeat constructor.
Defined.

(** ** The local strategy *)

(** The run of the local strategy once the pull request is fetched: the
    message is composed and the strategy begins. *)
Lemma merge_pr_local_reach E pr_number c s repo n pr reviews w :
  environ E !! lit "GITHUB_REPOSITORY" = Some (c :: s) ->
  get_repo E (c :: s) = Ok repo ->
  Py.int pr_number = Some n ->
  get_pull repo n = Ok pr ->
  pr_get_reviews pr = Ok reviews ->
  Forall (fun username => well_mapped E username = true) (approvers reviews) ->
  exists evs commit_title commit_message author body reviewed_by,
    Forall (fun e => quiet e = true) evs
    /\ (pr_info <- get_pr_info E repo pr_number ;; compose_message pr_info)
         (add_events w [GetRepo (c :: s)])
       = (add_events w (GetRepo (c :: s) :: evs), Ret (commit_title, commit_message))
    /\ merge_pr E pr_number false w
       = merge_locally E pr_number
           (pr_info_of (pr_num pr) (pr_title pr) author (pr_head_ref pr) (pr_head_sha pr)
                       body reviewed_by)
           commit_message (add_events w (GetRepo (c :: s) :: evs)).
Proof.
  intros Henv Hrepo Hint Hpull Hreviews Hwell.
  destruct (get_pr_info_ok E repo pr_number n pr reviews
              (add_events w [GetRepo (c :: s)]) Hint Hpull Hreviews Hwell)
    as [evs0 [Hinfo [Hq0 _]]].
  rewrite add_events_app in Hinfo.
  match type of Hinfo with
  | _ = (?w0, Ret (pr_info_of ?a ?b ?c0 ?d ?e ?f ?g)) =>
      destruct (compose_message_run a b c0 d e f g w0) as [commit_body [_ Hcompose]]
  end.
  exists ([GetPull n; GetReviews (pr_num pr)] ++ evs0).
  eexists; eexists; eexists; eexists; eexists.
  split; [repeat (constructor; [reflexivity |]); assumption |].
  split.
  - unfold bind. rewrite Hinfo. exact Hcompose.
  - unfold merge_pr. rewrite Henv. unfold bind.
    rewrite Hrepo, request_Ok, Hinfo, Hcompose. reflexivity.
Qed.

(** C8, where the code parts from the claim: the temporary file is
    created and written before the [try] block whose [finally] clause
    removes it.  Once the run has fetched the pull request and composed
    the message: when the message is written to the file, the commands
    run (the first of them at least) and the removal of the file is the
    last thing the run does, however the commands end, so that the file
    does not exist at the end; but when the writing raises (the locale
    has no encoding for the message, or the system refuses the bytes),
    the run ends with the exception, no command is run, the file is not
    removed and exists at the end.  When the file cannot be created
    there is none. *)
Theorem merge_pr_local_temp_file E pr_number c s repo n pr reviews w :
  environ E !! lit "GITHUB_REPOSITORY" = Some (c :: s) ->
  get_repo E (c :: s) = Ok repo ->
  Py.int pr_number = Some n ->
  get_pull repo n = Ok pr ->
  pr_get_reviews pr = Ok reviews ->
  Forall (fun username => well_mapped E username = true) (approvers reviews) ->
  exists before commit_title commit_message,
    (pr_info <- get_pr_info E repo pr_number ;; compose_message pr_info)
      (add_events w [GetRepo (c :: s)])
    = (add_events w before, Ret (commit_title, commit_message))
    /\ Forall (fun e => is_local_step e = false) before
    /\ match temp_failure E, temp_write E commit_message with
       | Some msg, _ =>
           merge_pr E pr_number false w = (add_events w before, Exc (OSError msg))
       | None, Written =>
           exists commands fs r,
             merge_pr E pr_number false w
             = (mkWorld (log w ++ before
                           ++ [CreateTemp (temp_name E);
                               WriteTemp (temp_name E) commit_message]
                           ++ commands ++ [Unlink (temp_name E)]) fs, r)
             /\ (temp_name E ∉ fs)
             /\ Forall (fun e => is_command_or_print e = true) commands
             /\ commands_run E pr_number (pr_head_sha pr) (temp_name E) (commands_of commands)
             /\ r <> OutOfFuel
       | None, NotEncodable msg =>
           exists fs,
             merge_pr E pr_number false w
             = (mkWorld (log w ++ before ++ [CreateTemp (temp_name E)]) fs,
                Exc (UnicodeEncodeError msg))
             /\ temp_name E ∈ fs
       | None, NotWritten msg =>
           exists fs,
             merge_pr E pr_number false w
             = (mkWorld (log w ++ before ++ [CreateTemp (temp_name E)]) fs,
                Exc (OSError msg))
             /\ temp_name E ∈ fs
       end.
Proof.
  intros Henv Hrepo Hint Hpull Hreviews Hwell.
  destruct (merge_pr_local_reach E pr_number c s repo n pr reviews w
              Henv Hrepo Hint Hpull Hreviews Hwell)
    as [evs [commit_title [commit_message [author [body [reviewed_by [Hq [Hcompose ->]]]]]]]].
  exists (GetRepo (c :: s) :: evs), commit_title, commit_message.
  split; [exact Hcompose |].
  split.
  { constructor; [reflexivity |].
    eapply Forall_impl; [eassumption | apply quiet_not_local]. }
  pose proof (merge_locally_run E pr_number (pr_num pr) (pr_title pr) author (pr_head_ref pr)
                (pr_head_sha pr) body reviewed_by commit_message
                (add_events w (GetRepo (c :: s) :: evs))) as Hrun.
  destruct (temp_failure E) as [msg |]; [exact Hrun |].
  destruct (temp_write E commit_message) as [| msg | msg].
  - destruct Hrun as [commands [fs [r [-> [Hfs [Hcommands [Hcmds [_ [_ Hr]]]]]]]]].
    cbn [log add_events].
    exists commands, fs, r. split; [rewrite <- !app_assoc; reflexivity |]. auto.
  - rewrite Hrun. cbn [log add_events]. eexists.
    split; [rewrite <- !app_assoc; reflexivity |].
    apply elem_of_union_l, elem_of_singleton. reflexivity.
  - rewrite Hrun. cbn [log add_events]. eexists.
    split; [rewrite <- !app_assoc; reflexivity |].
    apply elem_of_union_l, elem_of_singleton. reflexivity.
Qed.

(** The run of pull request 8 under the local strategy, in a locale that
    encodes ASCII only: the title holds a letter outside ASCII, the
    writing of the message raises, and the file that was created stays. *)
Lemma merge_pr_local_temp_file_witness :
  exists fs,
    merge_pr env_ascii (lit "8") false initial_world
    = (mkWorld [ GetRepo (lit "owner/repo"); GetPull 8; GetReviews 8;
                 CreateTemp (lit "/tmp/tmp6g7h8i") ] fs,
       Exc (UnicodeEncodeError
              (lit "'ascii' codec can't encode character: ordinal not in range(128)")))
    /\ lit "/tmp/tmp6g7h8i" ∈ fs.
Proof.
  destruct (merge_pr_local_temp_file env_ascii (lit "8") (ascii_of_N 111) (lit "wner/repo")
              repo_8 8%Z pr_8 [] initial_world
              eq_refl eq_refl eq_refl eq_refl eq_refl ltac:(constructor))
    as [before [commit_title [commit_message [Hcompose [_ Hcase]]]]].
  vm_compute in Hcompose. injection Hcompose as <- <- <-.
  cbn [temp_failure env_ascii] in Hcase.
  change (temp_write env_ascii) with ascii_only in Hcase.
  match type of Hcase with
  | context [ascii_only ?m] =>
      change (ascii_only m)
        with (NotEncodable
                (lit "'ascii' codec can't encode character: ordinal not in range(128)"))
        in Hcase
  end.
  cbv beta iota in Hcase. destruct Hcase as [fs [Hrun Hfs]].
  exists fs. split; [exact Hrun | exact Hfs].
Defined.



(** ** Lines are wrapped one by one *)

(** X15: [wrap_text] wraps line by line and never joins two lines of the
    text: when the lines of [before] end outside a code block, the lines
    that the text [before ++ after] gives are those of [before] followed
    by those of [after]. *)
Theorem wrap_text_line_by_line width before after out_before flag out_after :
  before ++ after <> [] ->
  Forall (fun l => Py.NL ∉ l) (before ++ after) ->
  wrap_lines width (false, []) before = Ret (false, out_before) ->
  wrap_lines width (false, []) after = Ret (flag, out_after) ->
  wrap_text (Py.join [Py.NL] (before ++ after)) width
  = Ret (Py.join [Py.NL] (out_before ++ out_after)).
Proof.
  intros Hne Hfree Hbefore Hafter. unfold wrap_text.
  rewrite split_join_NL by assumption.
  rewrite wrap_lines_app, Hbefore, wrap_lines_acc, Hafter. reflexivity.
Qed.

Lemma wrap_text_line_by_line_witness :
  wrap_text (Py.join [Py.NL] ([lit "one two"; lit "three"] ++ [lit "four five six"])) 9
  = Ret (Py.join [Py.NL] ([lit "one two"; lit "three"] ++ [lit "four five"; lit "six"])).
Proof.
  apply (wrap_text_line_by_line 9 [lit "one two"; lit "three"] [lit "four five six"]
           [lit "one two"; lit "three"] false [lit "four five"; lit "six"]).
  - discriminate.
  - refine (bool_decide_unpack _ _). vm_compute. exact I.
  - vm_compute. reflexivity.
  - vm_compute. reflexivity.
Defined.

(** X16: a line lies inside a code block exactly when an odd number of
    fences comes before it: after any lines, the flag of the loop of
    [wrap_text] is the parity of the number of fences among them. *)
Theorem wrap_lines_flag_parity width lines flag out :
  wrap_lines width (false, []) lines = Ret (flag, out) ->
  flag = Nat.odd (length (List.filter is_fence lines)).
Proof.
  assert (forall b acc, wrap_lines width (b, acc) lines = Ret (flag, out) ->
                        flag = xorb b (Nat.odd (length (List.filter is_fence lines)))) as H.
  { induction lines as [| line lines IH]; intros b acc Hrun.
    - simpl in *. injection Hrun as <- _. destruct b; reflexivity.
    - cbn [wrap_lines List.filter] in *. unfold wrap_step in Hrun. unfold is_fence at 1.
      destruct (Py.startswith (lit "```") (Py.strip line)).
      + apply IH in Hrun. rewrite Hrun. cbn [length]. rewrite Nat.odd_succ.
        rewrite <- Nat.negb_odd. destruct b, (Nat.odd _); reflexivity.
      + destruct b.
        * apply IH in Hrun. assumption.
        * destruct (Textwrap.wrap line width); try discriminate.
          apply IH in Hrun. assumption. }
  intros Hrun. apply H in Hrun. rewrite Hrun. reflexivity.
Qed.

Lemma wrap_lines_flag_parity_witness :
  true = Nat.odd (length (List.filter is_fence [lit "text"; lit "```"; lit "code"])).
Proof.
  apply (wrap_lines_flag_parity 72 [lit "text"; lit "```"; lit "code"] true
           [lit "text"; lit "```"; lit "code"]).
  vm_compute. reflexivity.
Defined.
